(** * Inheritance ledger contracts: a shallow embedding and its properties

    The two Solidity contracts of [contracts/src/InheritanceAutomation.sol]
    ([InheritanceAutomation], the percentage ledger, and [SimpleInheritance],
    the fixed-split two-party variant) are embedded as executable functions
    in a small execution monad: contract state is threaded explicitly, a
    failed [require] aborts the call, and every storage write, event and
    external call is appended to a trace so that the order of effects
    inside one call can be stated. The display helpers of the web
    client's panels are embedded as functions on strings. *)

From Stdlib Require Import NArith String Ascii List Lia Bool.
From stdpp Require Import base option list gmap strings.

Local Open Scope N_scope.

(** ** Solidity value types *)

Abbreviation uint256 := N (only parsing).
Abbreviation address := N (only parsing).
Abbreviation bytes32 := N (only parsing).
Abbreviation bytes := string (only parsing).

Definition MAX_UINT256 : N := 2 ^ 256 - 1.

(** The zero value every Solidity storage slot starts from. *)
Class Zero (V : Type) := zero : V.
Global Instance N_zero : Zero N := 0.
Global Instance bool_zero : Zero bool := false.
Global Instance string_zero : Zero string := EmptyString.
Global Instance list_zero {A} : Zero (list A) := [].

(** [m[k]] on a Solidity [mapping]: total, absent keys read as zero. *)
Definition mapping_read {V} `{Zero V} (m : gmap N V) (k : N) : V :=
  default zero (m !! k).

Notation "m .[ k ]" := (mapping_read m k) (at level 1, left associativity, format "m .[ k ]").

(** ** Failures *)

Inductive Failure : Type :=
| Revert (reason : string)          (* require(cond, reason) *)
| Panic (code : N)                  (* compiler-inserted checks *)
| ReentrancyGuardReentrantCall.     (* OpenZeppelin custom error *)

Definition ARITHMETIC_OVERFLOW : N := 17.      (* Panic(0x11) *)
Definition ARRAY_OUT_OF_BOUNDS : N := 50.      (* Panic(0x32) *)

Inductive Result (A : Type) : Type :=
| Ok (a : A)
| Err (e : Failure).
Arguments Ok {A} a.
Arguments Err {A} e.

(** ** The execution monad *)

Section Execution.
Variables St Ev : Type.

(** What a call does, in program order. [SStore s] is a storage write
    leaving the contract in [s]; [ExtCall to v s] is a value-carrying
    external call made while the contract is in [s]. *)
Inductive Step : Type :=
| SStore (s : St)
| Log (e : Ev)
| ExtCall (to : address) (value : uint256) (s : St).

Definition Machine : Type := St * list Step.

Definition M (A : Type) : Type := Machine -> Result (A * Machine).

Definition ret {A} (a : A) : M A := fun m => Ok (a, m).

Definition bind {A B} (c : M A) (k : A -> M B) : M B :=
  fun m => match c m with
           | Ok (a, m') => k a m'
           | Err e => Err e
           end.

Definition throw {A} (e : Failure) : M A := fun _ => Err e.

Definition require (cond : bool) (reason : string) : M unit :=
  fun m => if cond then Ok (tt, m) else Err (Revert reason).

Definition gets {A} (f : St -> A) : M A := fun m => Ok (f (fst m), m).

Definition sstore (f : St -> St) : M unit :=
  fun m => let s := f (fst m) in Ok (tt, (s, snd m ++ [SStore s])).

(** A change of the contract's own ether balance: not a storage write. *)
Definition modify_balance (f : St -> St) : M unit :=
  fun m => Ok (tt, (f (fst m), snd m)).

Definition emit (e : Ev) : M unit :=
  fun m => Ok (tt, (fst m, snd m ++ [Log e])).

Definition trace_call (to : address) (value : uint256) : M unit :=
  fun m => Ok (tt, (fst m, snd m ++ [ExtCall to value (fst m)])).

(** Solidity 0.8 checked arithmetic. *)
Definition checked_add (a b : uint256) : M uint256 :=
  fun m => if a + b <=? MAX_UINT256 then Ok (a + b, m) else Err (Panic ARITHMETIC_OVERFLOW).

Definition checked_sub (a b : uint256) : M uint256 :=
  fun m => if b <=? a then Ok (a - b, m) else Err (Panic ARITHMETIC_OVERFLOW).

Definition checked_mul (a b : uint256) : M uint256 :=
  fun m => if a * b <=? MAX_UINT256 then Ok (a * b, m) else Err (Panic ARITHMETIC_OVERFLOW).

(** [for (i = 0; i < l.length; i++) body(l[i])] *)
Fixpoint for_each {A} (l : list A) (body : A -> M unit) : M unit :=
  match l with
  | [] => ret tt
  | x :: l' => bind (body x) (fun _ => for_each l' body)
  end.

(** A call run as a transaction from state [s], with an empty trace. *)
Definition run {A} (c : M A) (s : St) : Result (A * Machine) := c (s, []).

(** The state a transaction leaves behind: a failed call reverts. *)
Definition transact {A} (c : M A) (s : St) : St :=
  match run c s with
  | Ok (_, m) => fst m
  | Err _ => s
  end.
End Execution.

Arguments SStore {St Ev} s.
Arguments Log {St Ev} e.
Arguments ExtCall {St Ev} to value s.
Arguments ret {St Ev A} a.
Arguments bind {St Ev A B} c k.
Arguments throw {St Ev A} e.
Arguments require {St Ev} cond reason.
Arguments gets {St Ev A} f.
Arguments sstore {St Ev} f.
Arguments modify_balance {St Ev} f.
Arguments emit {St Ev} e.
Arguments trace_call {St Ev} to value.
Arguments checked_add {St Ev} a b.
Arguments checked_sub {St Ev} a b.
Arguments checked_mul {St Ev} a b.
Arguments for_each {St Ev A} l body.
Arguments run {St Ev A} c s.
Arguments transact {St Ev A} c s.

Declare Scope exec_scope.
Delimit Scope exec_scope with exec.
Notation "'let!' x ':=' c 'in' k" := (bind c (fun x => k))
  (at level 10, x name, c at level 100, k at level 200) : exec_scope.
Notation "c1 '>>' c2" := (bind c1 (fun _ => c2))
  (at level 100, c2 at level 200, right associativity) : exec_scope.
Local Open Scope exec_scope.

(** [preserves R c]: a successful run of [c] relates the state it starts
    from to every state it stores and to the state it ends in. *)
Definition preserves {St Ev A} (R : St -> St -> Prop) (c : M St Ev A) : Prop :=
  forall s tr a s' tr', c (s, tr) = Ok (a, (s', tr')) ->
    R s s' /\ exists new, tr' = tr ++ new /\ forall x, In (SStore x) new -> R s x.

(** abi.encodePacked of a uint256: 32 bytes, big endian. *)
Fixpoint be_bytes (k : nat) (n : N) : string :=
  match k with
  | O => EmptyString
  | S k' => String.append (be_bytes k' (n / 256)) (String (ascii_of_N (n mod 256)) EmptyString)
  end.

Definition encodePacked_uint256 (n : uint256) : bytes := be_bytes 32 n.

(** * The percentage ledger: contract [InheritanceAutomation] *)

Module InheritanceAutomation.

(** ** Structs *)

Record Document : Type := {
  documentHash : bytes32;
  owner : address;
  timestamp : uint256;
  isVerified : bool;
  documentType : string;
  encryptedData : bytes;
  bankPublicKey : bytes
}.

Record Inheritor : Type := {
  wallet : address;
  share : uint256;
  hasReceived : bool;
  receivedAmount : uint256
}.

(** The struct's [documents] member is [caseDocuments] here, the name
    [documents] being the contract's registry mapping. *)
Record InheritanceCase : Type := {
  caseId : bytes32;
  caseDocuments : list Document;
  inheritors : list Inheritor;
  totalAmount : uint256;
  isDistributed : bool;
  createdAt : uint256
}.

Global Instance Document_zero : Zero Document :=
  {| documentHash := 0; owner := 0; timestamp := 0; isVerified := false;
     documentType := EmptyString; encryptedData := EmptyString;
     bankPublicKey := EmptyString |}.

Global Instance InheritanceCase_zero : Zero InheritanceCase :=
  {| caseId := 0; caseDocuments := []; inheritors := []; totalAmount := 0;
     isDistributed := false; createdAt := 0 |}.

Definition with_isVerified (b : bool) (d : Document) : Document :=
  {| documentHash := documentHash d; owner := owner d; timestamp := timestamp d;
     isVerified := b; documentType := documentType d;
     encryptedData := encryptedData d; bankPublicKey := bankPublicKey d |}.

Definition with_encryptedData (e : bytes) (d : Document) : Document :=
  {| documentHash := documentHash d; owner := owner d; timestamp := timestamp d;
     isVerified := isVerified d; documentType := documentType d;
     encryptedData := e; bankPublicKey := bankPublicKey d |}.

Definition with_bankPublicKey (k : bytes) (d : Document) : Document :=
  {| documentHash := documentHash d; owner := owner d; timestamp := timestamp d;
     isVerified := isVerified d; documentType := documentType d;
     encryptedData := encryptedData d; bankPublicKey := k |}.

Definition with_hasReceived (b : bool) (i : Inheritor) : Inheritor :=
  {| wallet := wallet i; share := share i; hasReceived := b;
     receivedAmount := receivedAmount i |}.

Definition with_receivedAmount (a : uint256) (i : Inheritor) : Inheritor :=
  {| wallet := wallet i; share := share i; hasReceived := hasReceived i;
     receivedAmount := a |}.

Definition with_caseId (x : bytes32) (c : InheritanceCase) : InheritanceCase :=
  {| caseId := x; caseDocuments := caseDocuments c; inheritors := inheritors c;
     totalAmount := totalAmount c; isDistributed := isDistributed c;
     createdAt := createdAt c |}.

Definition with_caseDocuments (x : list Document) (c : InheritanceCase) : InheritanceCase :=
  {| caseId := caseId c; caseDocuments := x; inheritors := inheritors c;
     totalAmount := totalAmount c; isDistributed := isDistributed c;
     createdAt := createdAt c |}.

Definition with_inheritors (x : list Inheritor) (c : InheritanceCase) : InheritanceCase :=
  {| caseId := caseId c; caseDocuments := caseDocuments c; inheritors := x;
     totalAmount := totalAmount c; isDistributed := isDistributed c;
     createdAt := createdAt c |}.

Definition with_totalAmount (x : uint256) (c : InheritanceCase) : InheritanceCase :=
  {| caseId := caseId c; caseDocuments := caseDocuments c; inheritors := inheritors c;
     totalAmount := x; isDistributed := isDistributed c; createdAt := createdAt c |}.

Definition with_isDistributed (x : bool) (c : InheritanceCase) : InheritanceCase :=
  {| caseId := caseId c; caseDocuments := caseDocuments c; inheritors := inheritors c;
     totalAmount := totalAmount c; isDistributed := x; createdAt := createdAt c |}.

Definition with_createdAt (x : uint256) (c : InheritanceCase) : InheritanceCase :=
  {| caseId := caseId c; caseDocuments := caseDocuments c; inheritors := inheritors c;
     totalAmount := totalAmount c; isDistributed := isDistributed c; createdAt := x |}.

(** ** Events *)

Inductive Event : Type :=
| DocumentRegistered (documentHash : bytes32) (owner : address) (documentType : string) (timestamp : uint256)
| DocumentVerified (documentHash : bytes32) (verifier : address) (timestamp : uint256)
| DocumentEncrypted (documentHash : bytes32) (encryptedData : bytes) (timestamp : uint256)
| DocumentDecrypted (documentHash : bytes32) (decryptedData : string) (timestamp : uint256)
| InheritanceCaseCreated (caseId : bytes32) (creator : address) (timestamp : uint256)
| AssetDistributed (caseId : bytes32) (inheritor : address) (amount : uint256) (timestamp : uint256)
| Deposited (from : address) (amount : uint256) (timestamp : uint256)
| Released (to : address) (amount : uint256) (timestamp : uint256).

(** ** Contract state

    The state variables of the contract, the reentrancy lock it inherits
    and the ether it holds ([address(this).balance]). The mapping
    [bankKeyPairs] and the owner set by [Ownable] are never read nor
    written by the contract's functions and are left out. *)

Record State : Type := {
  documents : gmap N Document;
  inheritanceCases : gmap N InheritanceCase;
  userDocuments : gmap N (list bytes32);
  balances : gmap N uint256;
  totalCases : uint256;
  totalDocuments : uint256;
  allDocumentHashes : list bytes32;
  bankAddress : address;
  _status : bool;
  this_balance : uint256
}.

Definition set_documents (f : gmap N Document -> gmap N Document) (s : State) : State :=
  {| documents := f (documents s); inheritanceCases := inheritanceCases s;
     userDocuments := userDocuments s; balances := balances s;
     totalCases := totalCases s; totalDocuments := totalDocuments s;
     allDocumentHashes := allDocumentHashes s; bankAddress := bankAddress s;
     _status := _status s; this_balance := this_balance s |}.

Definition set_inheritanceCases (f : gmap N InheritanceCase -> gmap N InheritanceCase) (s : State) : State :=
  {| documents := documents s; inheritanceCases := f (inheritanceCases s);
     userDocuments := userDocuments s; balances := balances s;
     totalCases := totalCases s; totalDocuments := totalDocuments s;
     allDocumentHashes := allDocumentHashes s; bankAddress := bankAddress s;
     _status := _status s; this_balance := this_balance s |}.

Definition set_userDocuments (f : gmap N (list bytes32) -> gmap N (list bytes32)) (s : State) : State :=
  {| documents := documents s; inheritanceCases := inheritanceCases s;
     userDocuments := f (userDocuments s); balances := balances s;
     totalCases := totalCases s; totalDocuments := totalDocuments s;
     allDocumentHashes := allDocumentHashes s; bankAddress := bankAddress s;
     _status := _status s; this_balance := this_balance s |}.

Definition set_balances (f : gmap N uint256 -> gmap N uint256) (s : State) : State :=
  {| documents := documents s; inheritanceCases := inheritanceCases s;
     userDocuments := userDocuments s; balances := f (balances s);
     totalCases := totalCases s; totalDocuments := totalDocuments s;
     allDocumentHashes := allDocumentHashes s; bankAddress := bankAddress s;
     _status := _status s; this_balance := this_balance s |}.

Definition set_totalCases (x : uint256) (s : State) : State :=
  {| documents := documents s; inheritanceCases := inheritanceCases s;
     userDocuments := userDocuments s; balances := balances s;
     totalCases := x; totalDocuments := totalDocuments s;
     allDocumentHashes := allDocumentHashes s; bankAddress := bankAddress s;
     _status := _status s; this_balance := this_balance s |}.

Definition set_totalDocuments (x : uint256) (s : State) : State :=
  {| documents := documents s; inheritanceCases := inheritanceCases s;
     userDocuments := userDocuments s; balances := balances s;
     totalCases := totalCases s; totalDocuments := x;
     allDocumentHashes := allDocumentHashes s; bankAddress := bankAddress s;
     _status := _status s; this_balance := this_balance s |}.

Definition set_allDocumentHashes (f : list bytes32 -> list bytes32) (s : State) : State :=
  {| documents := documents s; inheritanceCases := inheritanceCases s;
     userDocuments := userDocuments s; balances := balances s;
     totalCases := totalCases s; totalDocuments := totalDocuments s;
     allDocumentHashes := f (allDocumentHashes s); bankAddress := bankAddress s;
     _status := _status s; this_balance := this_balance s |}.

Definition set_status (x : bool) (s : State) : State :=
  {| documents := documents s; inheritanceCases := inheritanceCases s;
     userDocuments := userDocuments s; balances := balances s;
     totalCases := totalCases s; totalDocuments := totalDocuments s;
     allDocumentHashes := allDocumentHashes s; bankAddress := bankAddress s;
     _status := x; this_balance := this_balance s |}.

Definition set_this_balance (x : uint256) (s : State) : State :=
  {| documents := documents s; inheritanceCases := inheritanceCases s;
     userDocuments := userDocuments s; balances := balances s;
     totalCases := totalCases s; totalDocuments := totalDocuments s;
     allDocumentHashes := allDocumentHashes s; bankAddress := bankAddress s;
     _status := _status s; this_balance := x |}.

(** [documents[h] = f(documents[h])] and [inheritanceCases[c] = f(...)]. *)
Definition update_document (h : bytes32) (f : Document -> Document) : State -> State :=
  set_documents (fun m => <[h := f m.[h]]> m).

Definition update_case (c : bytes32) (f : InheritanceCase -> InheritanceCase) : State -> State :=
  set_inheritanceCases (fun m => <[c := f m.[c]]> m).

Definition update_inheritor (c : bytes32) (i : nat) (f : Inheritor -> Inheritor) : State -> State :=
  update_case c (fun k => with_inheritors (alter f i (inheritors k)) k).

Abbreviation Exec := (M State Event).
Abbreviation Trace := (list (Step State Event)).

(** ** Shares and payouts

    The quantities the distribution is specified by, to compare the
    payout loop with: what one inheritor is due out of a pool,
    floor(pool * share / 100), the inheritor's record once paid, and the
    sums over a list of inheritors. *)

Definition payout (pool : uint256) (i : Inheritor) : uint256 := pool * share i / 100.

Definition paid (pool : uint256) (i : Inheritor) : Inheritor :=
  if 0 <? payout pool i
  then {| wallet := wallet i; share := share i; hasReceived := true;
          receivedAmount := payout pool i |}
  else i.

Fixpoint total_share (l : list Inheritor) : uint256 :=
  match l with
  | [] => 0
  | i :: l' => share i + total_share l'
  end.

Fixpoint total_paid (pool : uint256) (l : list Inheritor) : uint256 :=
  match l with
  | [] => 0
  | i :: l' => payout pool i + total_paid pool l'
  end.

(** What the inheritors of [l] whose wallet is [a] are due together. *)
Fixpoint credited (pool : uint256) (l : list Inheritor) (a : address) : uint256 :=
  match l with
  | [] => 0
  | i :: l' => (if wallet i =? a then payout pool i else 0) + credited pool l' a
  end.

(** ** Failure kinds

    The kinds of failure the specification names, each as the revert
    reason the contract gives for it. *)

Definition Unauthorized : Failure := Revert "Only bank can call this function".
Definition NotFound_document : Failure := Revert "Document does not exist".
Definition NotFound_case : Failure := Revert "Case does not exist".
Definition NotFound_referenced : Failure := Revert "Document not found".
Definition AlreadyVerified : Failure := Revert "Document already verified".
Definition AlreadyExists_document : Failure := Revert "Document already exists".
Definition AlreadyExists_case : Failure := Revert "Case already exists".
Definition InvalidInput_no_documents : Failure := Revert "At least one document required".
Definition InvalidInput_length_mismatch : Failure := Revert "Arrays length mismatch".
Definition InvalidInput_no_inheritors : Failure := Revert "At least one inheritor required".
Definition InvalidInput_amount : Failure := Revert "Amount must be greater than 0".
Definition InvariantViolation : Failure := Revert "Total share must be 100".
Definition AlreadyDistributed : Failure := Revert "Assets already distributed".
Definition NothingToDistribute : Failure := Revert "No assets to distribute".
Definition NotAllVerified : Failure := Revert "All documents must be verified".
Definition InsufficientFunds : Failure := Revert "Insufficient balance".
Definition TransferFailure : Failure := Revert "Transfer failed".

(** ** Modifiers *)

Definition documentExists {A} (documentHash : bytes32) (body : Exec A) : Exec A :=
  let! d := gets (fun s => (documents s).[documentHash]) in
  require (negb (timestamp d =? 0)) "Document does not exist" >>
  body.

Definition caseExists {A} (caseId : bytes32) (body : Exec A) : Exec A :=
  let! c := gets (fun s => (inheritanceCases s).[caseId]) in
  require (negb (createdAt c =? 0)) "Case does not exist" >>
  body.

Definition onlyBank {A} (msg_sender : address) (body : Exec A) : Exec A :=
  let! bank := gets bankAddress in
  require (msg_sender =? bank) "Only bank can call this function" >>
  body.

(** Modelled from the spec: the reentrancy lock of the imported
    [ReentrancyGuard], whose source is not part of the repository; a
    per-call lock, acquired on entry (failing when already held) and
    released when the body returns. A failing body reverts the call and
    with it the acquisition. *)
Definition nonReentrant {A} (body : Exec A) : Exec A :=
  let! entered := gets _status in
  (fun m => if entered then Err ReentrancyGuardReentrantCall else Ok (tt, m)) >>
  sstore (set_status true) >>
  let! r := body in
  sstore (set_status false) >>
  ret r.

(** [to.call{value: value}("")]: the call is made in the current state; it
    succeeds when the contract holds [value] and the recipient accepts
    it, and then the ether leaves the contract. Of what the recipient
    does only the answer is modelled: a failed call leaves no effect,
    and a call made back into the contract acts on the state the
    transaction ends in (after the call the caller only logs an event
    and releases the lock), as a transaction that follows does. *)
Definition send (to : address) (value : uint256) (recipient_accepts : bool) : Exec bool :=
  trace_call to value >>
  let! held := gets this_balance in
  if (value <=? held) && recipient_accepts
  then modify_balance (set_this_balance (held - value)) >> ret true
  else ret false.

(** ** Functions *)

Section Contract.
(** [keccak256(abi.encodePacked(s))] for a string [s]. *)
Variable keccak256 : string -> bytes32.

(** Storage as the constructor leaves it: all zero but the bank. *)
Definition deployed (_bankAddress : address) : State :=
  {| documents := ∅; inheritanceCases := ∅; userDocuments := ∅;
     balances := ∅; totalCases := 0; totalDocuments := 0;
     allDocumentHashes := []; bankAddress := _bankAddress;
     _status := false; this_balance := 0 |}.

Definition constructor (_bankAddress : address) : Result State :=
  if _bankAddress =? 0 then Err (Revert "Invalid bank address")
  else Ok (deployed _bankAddress).

Definition registerDocument (msg_sender : address) (block_timestamp : uint256)
    (documentContent documentType : string) : Exec bytes32 :=
  let documentHash := keccak256 documentContent in
  let! d := gets (fun s => (documents s).[documentHash]) in
  require (timestamp d =? 0) "Document already exists" >>
  sstore (set_documents (insert documentHash
    {| documentHash := documentHash; owner := msg_sender;
       timestamp := block_timestamp; isVerified := false;
       documentType := documentType; encryptedData := EmptyString;
       bankPublicKey := EmptyString |})) >>
  sstore (set_userDocuments (fun m => <[msg_sender := (m.[msg_sender] ++ [documentHash])]> m)) >>
  sstore (set_allDocumentHashes (fun l => l ++ [documentHash])) >>
  let! n := gets totalDocuments in
  let! n' := checked_add n 1 in
  sstore (set_totalDocuments n') >>
  emit (DocumentRegistered documentHash msg_sender documentType block_timestamp) >>
  ret documentHash.

Definition encryptAndSendToBank (msg_sender : address) (block_timestamp : uint256)
    (documentHash : bytes32) (documentContent : string) (bankPublicKey : bytes) : Exec bytes :=
  documentExists documentHash (
    let! d := gets (fun s => (documents s).[documentHash]) in
    require (owner d =? msg_sender) "Only document owner can encrypt" >>
    require (negb (String.length documentContent =? 0)%nat) "Document content cannot be empty" >>
    require (negb (String.length bankPublicKey =? 0)%nat) "Bank public key cannot be empty" >>
    let encryptedData :=
      String.append "ENCRYPTED:" (String.append documentContent
        (String.append ":" (encodePacked_uint256 block_timestamp))) in
    sstore (update_document documentHash (with_encryptedData encryptedData)) >>
    sstore (update_document documentHash (with_bankPublicKey bankPublicKey)) >>
    emit (DocumentEncrypted documentHash encryptedData block_timestamp) >>
    ret encryptedData).

Definition decryptAndVerifyDocument (block_timestamp : uint256)
    (documentHash : bytes32) (decryptedContent : string) : Exec bool :=
  emit (DocumentDecrypted documentHash decryptedContent block_timestamp) >>
  ret true.

Definition verifyDocument (msg_sender : address) (block_timestamp : uint256)
    (documentHash : bytes32) : Exec unit :=
  documentExists documentHash (
  onlyBank msg_sender (
    let! d := gets (fun s => (documents s).[documentHash]) in
    require (negb (isVerified d)) "Document already verified" >>
    sstore (update_document documentHash (with_isVerified true)) >>
    emit (DocumentVerified documentHash msg_sender block_timestamp))).

(** [for (i = 0; i < shares.length; i++) totalShare += shares[i];] *)
Fixpoint sum_shares (shares : list uint256) (totalShare : uint256) : Exec uint256 :=
  match shares with
  | [] => ret totalShare
  | x :: rest => let! t := checked_add totalShare x in sum_shares rest t
  end.

(** One round of the document loop of [createInheritanceCase]: the
    registry entry is looked up and a copy of it is pushed on the case. *)
Definition add_document (caseId : bytes32) (h : bytes32) : Exec unit :=
  let! d := gets (fun s => (documents s).[h]) in
  require (negb (timestamp d =? 0)) "Document not found" >>
  sstore (update_case caseId (fun k => with_caseDocuments (caseDocuments k ++ [d]) k)).

(** One round of its inheritor loop, on [(inheritorAddresses[i], shares[i])]. *)
Definition add_inheritor (caseId : bytes32) (p : address * uint256) : Exec unit :=
  sstore (update_case caseId (fun k => with_inheritors (inheritors k ++
    [{| wallet := fst p; share := snd p; hasReceived := false; receivedAmount := 0 |}]) k)).

Definition createInheritanceCase (msg_sender : address) (block_timestamp : uint256)
    (caseId : bytes32) (documentHashes : list bytes32)
    (inheritorAddresses : list address) (shares : list uint256) : Exec unit :=
  let! c := gets (fun s => (inheritanceCases s).[caseId]) in
  require (createdAt c =? 0) "Case already exists" >>
  require (0 <? length documentHashes)%nat "At least one document required" >>
  require (length inheritorAddresses =? length shares)%nat "Arrays length mismatch" >>
  require (0 <? length inheritorAddresses)%nat "At least one inheritor required" >>
  let! totalShare := sum_shares shares 0 in
  require (totalShare =? 100) "Total share must be 100" >>
  sstore (update_case caseId (with_caseId caseId)) >>
  sstore (update_case caseId (with_createdAt block_timestamp)) >>
  for_each documentHashes (add_document caseId) >>
  (* the two arrays have the same length here, so [shares[i]] is in range *)
  for_each (combine inheritorAddresses shares) (add_inheritor caseId) >>
  let! n := gets totalCases in
  let! n' := checked_add n 1 in
  sstore (set_totalCases n') >>
  emit (InheritanceCaseCreated caseId msg_sender block_timestamp).

(** [sum(shares)], unbounded. *)
Definition sum_of (shares : list uint256) : N := foldr N.add 0 shares.

(** One round of the payout loop of [distributeAssets], at index [i]. *)
Definition distribute_to (block_timestamp : uint256) (caseId : bytes32) (i : nat) : Exec unit :=
  let! c := gets (fun s => (inheritanceCases s).[caseId]) in
  match inheritors c !! i with
  | None => throw (Panic ARRAY_OUT_OF_BOUNDS)
  | Some inheritor =>
      let! product := checked_mul (totalAmount c) (share inheritor) in
      let amount := product / 100 in
      if 0 <? amount then
        sstore (update_inheritor caseId i (with_hasReceived true)) >>
        sstore (update_inheritor caseId i (with_receivedAmount amount)) >>
        let! b := gets (fun s => (balances s).[wallet inheritor]) in
        let! b' := checked_add b amount in
        sstore (set_balances (insert (wallet inheritor) b')) >>
        emit (AssetDistributed caseId (wallet inheritor) amount block_timestamp)
      else ret tt
  end.

(** One round of its verification loop. *)
Definition require_verified (d : Document) : Exec unit :=
  require (isVerified d) "All documents must be verified".

Definition distributeAssets (block_timestamp : uint256) (caseId : bytes32) : Exec unit :=
  caseExists caseId (
  nonReentrant (
    let! c := gets (fun s => (inheritanceCases s).[caseId]) in
    require (negb (isDistributed c)) "Assets already distributed" >>
    require (0 <? totalAmount c) "No assets to distribute" >>
    for_each (caseDocuments c) require_verified >>
    sstore (update_case caseId (with_isDistributed true)) >>
    for_each (seq 0 (length (inheritors c))) (distribute_to block_timestamp caseId))).

(** [deposit] is payable: the ether sent is the contract's on entry. *)
Definition deposit (msg_sender : address) (block_timestamp : uint256)
    (msg_value : uint256) (caseId : bytes32) : Exec unit :=
  modify_balance (fun s => set_this_balance (this_balance s + msg_value) s) >>
  require (0 <? msg_value) "Amount must be greater than 0" >>
  let! c := gets (fun s => (inheritanceCases s).[caseId]) in
  require (negb (createdAt c =? 0)) "Case does not exist" >>
  let! t := checked_add (totalAmount c) msg_value in
  sstore (update_case caseId (with_totalAmount t)) >>
  let! b := gets (fun s => (balances s).[msg_sender]) in
  let! b' := checked_add b msg_value in
  sstore (set_balances (insert msg_sender b')) >>
  emit (Deposited msg_sender msg_value block_timestamp).

Definition withdraw (msg_sender : address) (block_timestamp : uint256)
    (recipient_accepts : bool) (amount : uint256) : Exec unit :=
  nonReentrant (
    let! b := gets (fun s => (balances s).[msg_sender]) in
    require (amount <=? b) "Insufficient balance" >>
    let! b' := checked_sub b amount in
    sstore (set_balances (insert msg_sender b')) >>
    let! success := send msg_sender amount recipient_accepts in
    require success "Transfer failed" >>
    emit (Released msg_sender amount block_timestamp)).

(** *** Views *)

Definition getDocument (documentHash : bytes32) : Exec Document :=
  documentExists documentHash (gets (fun s => (documents s).[documentHash])).

Definition getInheritanceCase (caseId : bytes32) : Exec InheritanceCase :=
  caseExists caseId (gets (fun s => (inheritanceCases s).[caseId])).

Definition getUserDocuments (user : address) : Exec (list bytes32) :=
  gets (fun s => (userDocuments s).[user]).

Definition getBalance (user : address) : Exec uint256 :=
  gets (fun s => (balances s).[user]).

Definition getTotalCases : Exec uint256 := gets totalCases.

Definition getTotalDocuments : Exec uint256 := gets totalDocuments.

Definition getDocumentByIndex (index : uint256) : Exec Document :=
  let! n := gets totalDocuments in
  require (index <? n) "Index out of bounds" >>
  let! hashes := gets allDocumentHashes in
  match hashes !! N.to_nat index with
  | None => throw (Panic ARRAY_OUT_OF_BOUNDS)
  | Some docHash => gets (fun s => (documents s).[docHash])
  end.

Definition verifyDocumentHash (documentHash : bytes32) (documentContent : string) : Exec bool :=
  ret true.

(** ** Transactions *)

Inductive Call : Type :=
| RegisterDocument (documentContent documentType : string)
| EncryptAndSendToBank (documentHash : bytes32) (documentContent : string) (bankPublicKey : bytes)
| DecryptAndVerifyDocument (documentHash : bytes32) (decryptedContent : string)
| VerifyDocument (documentHash : bytes32)
| CreateInheritanceCase (caseId : bytes32) (documentHashes : list bytes32)
    (inheritorAddresses : list address) (shares : list uint256)
| DistributeAssets (caseId : bytes32)
| Deposit (caseId : bytes32) (msg_value : uint256)
| Withdraw (amount : uint256) (recipient_accepts : bool).

Record Tx : Type := {
  msg_sender : address;
  block_timestamp : uint256;
  call : Call
}.

Definition dispatch (tx : Tx) : Exec unit :=
  let sender := msg_sender tx in
  let now := block_timestamp tx in
  match call tx with
  | RegisterDocument content type =>
      let! _ := registerDocument sender now content type in ret tt
  | EncryptAndSendToBank h content key =>
      let! _ := encryptAndSendToBank sender now h content key in ret tt
  | DecryptAndVerifyDocument h content =>
      let! _ := decryptAndVerifyDocument now h content in ret tt
  | VerifyDocument h => verifyDocument sender now h
  | CreateInheritanceCase c hashes addresses shares =>
      createInheritanceCase sender now c hashes addresses shares
  | DistributeAssets c => distributeAssets now c
  | Deposit c value => deposit sender now value c
  | Withdraw amount accepts => withdraw sender now accepts amount
  end.

Definition apply (tx : Tx) (s : State) : State := transact (dispatch tx) s.

Definition apply_all (txs : list Tx) (s : State) : State :=
  fold_left (fun s tx => apply tx s) txs s.

(** The states the deployed contract can be in. *)
Inductive reachable : State -> Prop :=
| reachable_deployed bank s : constructor bank = Ok s -> reachable s
| reachable_apply tx s : reachable s -> reachable (apply tx s).
End Contract.

(** ** Predicates on states

    What the properties of the contract are stated with. *)

(** A document with hash [h] exists in state [s]. *)
Definition present (s : State) (h : bytes32) : Prop := timestamp (documents s).[h] ≠ 0.

#[global] Instance present_dec s h : Decision (present s h) :=
  decide (timestamp (documents s).[h] ≠ 0).

(** The inheritor record [createInheritanceCase] stores for one pair. *)
Definition new_inheritor (p : address * uint256) : Inheritor :=
  {| wallet := fst p; share := snd p; hasReceived := false; receivedAmount := 0 |}.


(** The request passes the checks made before anything is stored. *)
Definition well_formed (st : State) (caseId : bytes32) (hashes : list bytes32)
    (addresses : list address) (shares : list uint256) : Prop :=
  createdAt (inheritanceCases st).[caseId] = 0
  /\ hashes ≠ []
  /\ length addresses = length shares
  /\ addresses ≠ []
  /\ sum_of shares = 100.

(** Once case [cid] exists, its creation time and its document copies
    are fixed and its distributed flag can only stay set. *)
Definition stable (cid : bytes32) (s s' : State) : Prop :=
  createdAt (inheritanceCases s).[cid] ≠ 0 ->
  createdAt (inheritanceCases s').[cid] = createdAt (inheritanceCases s).[cid]
  /\ caseDocuments (inheritanceCases s').[cid] = caseDocuments (inheritanceCases s).[cid]
  /\ (isDistributed (inheritanceCases s).[cid] = true ->
      isDistributed (inheritanceCases s').[cid] = true).

(** Case [cid] is untouched. *)
Definition case_same (cid : bytes32) (s s' : State) : Prop :=
  (inheritanceCases s').[cid] = (inheritanceCases s).[cid].

(** The lock is untouched. *)
Definition lock_same (s s' : State) : Prop := _status s' = _status s.

(** The state of the loop after the first [k] inheritors of [inhs], the
    pool being [pool] and the balances at the start those of [st]. *)
Definition payout_invariant (caseId : bytes32) (pool : uint256) (inhs : list Inheritor)
    (st : State) (k : nat) (s : State) : Prop :=
  totalAmount (inheritanceCases s).[caseId] = pool
  /\ length (inheritors (inheritanceCases s).[caseId]) = length inhs
  /\ (forall i inh, inhs !! i = Some inh ->
        inheritors (inheritanceCases s).[caseId] !! i =
          Some (if (i <? k)%nat then paid pool inh else inh))
  /\ (forall a, (balances s).[a] = (balances st).[a] + credited pool (take k inhs) a).

(** ** The registry and the funds

    What the properties of the document registry and of the money the
    contract keeps are stated with. *)

(** Document [h], once it exists, keeps its hash, owner, time and type,
    and its verified flag can only stay set. *)
Definition document_kept (h : bytes32) (s s' : State) : Prop :=
  present s h ->
  documentHash (documents s').[h] = documentHash (documents s).[h]
  /\ owner (documents s').[h] = owner (documents s).[h]
  /\ timestamp (documents s').[h] = timestamp (documents s).[h]
  /\ documentType (documents s').[h] = documentType (documents s).[h]
  /\ (isVerified (documents s).[h] = true -> isVerified (documents s').[h] = true).

(** The verified flag of [h] is not set. *)
Definition unverified_kept (h : bytes32) (s s' : State) : Prop :=
  isVerified (documents s).[h] = false -> isVerified (documents s').[h] = false.

(** The bank is untouched. *)
Definition bank_same (s s' : State) : Prop := bankAddress s' = bankAddress s.

(** The ether held is untouched. *)
Definition ether_same (s s' : State) : Prop := this_balance s' = this_balance s.

(** Neither the ether held nor any balance is touched. *)
Definition funds_same (s s' : State) : Prop :=
  balances s' = balances s /\ this_balance s' = this_balance s.

(** The documents' identities and the three indexes are untouched. *)
Definition index_same (s s' : State) : Prop :=
  (forall h, timestamp (documents s').[h] = timestamp (documents s).[h]
             /\ documentHash (documents s').[h] = documentHash (documents s).[h]
             /\ owner (documents s').[h] = owner (documents s).[h])
  /\ userDocuments s' = userDocuments s
  /\ allDocumentHashes s' = allDocumentHashes s
  /\ totalDocuments s' = totalDocuments s.

(** The bookkeeping of the registry: the counter is the length of the
    hash list, and every existing document is stored under its own hash
    and listed both in the hash list and under its owner. *)
Record registry (s : State) : Prop := {
  reg_count : totalDocuments s = N.of_nat (length (allDocumentHashes s));
  reg_keyed : forall h, present s h -> documentHash (documents s).[h] = h;
  reg_indexed : forall h, present s h -> In h (allDocumentHashes s);
  reg_owned : forall h, present s h -> In h (userDocuments s).[owner (documents s).[h]]
}.

(** The id, the pool and the distributed flag of case [c] are untouched. *)
Definition case_fields_same (c : bytes32) (s s' : State) : Prop :=
  caseId (inheritanceCases s').[c] = caseId (inheritanceCases s).[c]
  /\ totalAmount (inheritanceCases s').[c] = totalAmount (inheritanceCases s).[c]
  /\ isDistributed (inheritanceCases s').[c] = isDistributed (inheritanceCases s).[c].

(** The pool of case [c] is untouched. *)
Definition pool_same (c : bytes32) (s s' : State) : Prop :=
  totalAmount (inheritanceCases s').[c] = totalAmount (inheritanceCases s).[c].

(** Case [c], once it exists, keeps its inheritors' wallets and shares. *)
Definition heirs_kept (c : bytes32) (s s' : State) : Prop :=
  createdAt (inheritanceCases s).[c] ≠ 0 ->
  createdAt (inheritanceCases s').[c] = createdAt (inheritanceCases s).[c]
  /\ map wallet (inheritors (inheritanceCases s').[c]) =
       map wallet (inheritors (inheritanceCases s).[c])
  /\ map share (inheritors (inheritanceCases s').[c]) =
       map share (inheritors (inheritanceCases s).[c]).

(** The sum of a mapping's entries, and what the contract owes: the sum
    of all balances. *)
Definition total (m : gmap N uint256) : N := map_fold (fun _ v acc => v + acc) 0 m.


End InheritanceAutomation.

(** * The fixed-split two-party variant: contract [SimpleInheritance] *)

Module SimpleInheritance.

Record Document : Type := {
  documentHash : bytes32;
  owner : address;
  timestamp : uint256;
  isVerified : bool;
  documentType : string
}.

Record Inheritor : Type := {
  wallet : address;
  isOverseas : bool;
  hasReceived : bool;
  receivedAmount : uint256
}.

Global Instance Document_zero : Zero Document :=
  {| documentHash := 0; owner := 0; timestamp := 0; isVerified := false;
     documentType := EmptyString |}.

Definition with_isVerified (b : bool) (d : Document) : Document :=
  {| documentHash := documentHash d; owner := owner d; timestamp := timestamp d;
     isVerified := b; documentType := documentType d |}.

Definition with_hasReceived (b : bool) (i : Inheritor) : Inheritor :=
  {| wallet := wallet i; isOverseas := isOverseas i; hasReceived := b;
     receivedAmount := receivedAmount i |}.

Definition with_receivedAmount (a : uint256) (i : Inheritor) : Inheritor :=
  {| wallet := wallet i; isOverseas := isOverseas i; hasReceived := hasReceived i;
     receivedAmount := a |}.

Inductive Event : Type :=
| DocumentRegistered (documentHash : bytes32) (owner : address) (documentType : string) (timestamp : uint256)
| DocumentVerified (documentHash : bytes32) (verifier : address) (timestamp : uint256)
| InheritanceDistributed (overseasInheritor domesticInheritor : address) (amount : uint256) (timestamp : uint256)
| Deposited (from : address) (amount : uint256) (timestamp : uint256)
| Released (to : address) (amount : uint256) (timestamp : uint256).

(** The state variables and the ether held ([address(this).balance]),
    the pool the distribution is paid from. *)
Record State : Type := {
  documents : gmap N Document;
  balances : gmap N uint256;
  totalDocuments : uint256;
  allDocumentHashes : list bytes32;
  bankAddress : address;
  overseasInheritor : Inheritor;
  domesticInheritor : Inheritor;
  isInheritanceDistributed : bool;
  this_balance : uint256
}.

Definition set_documents (f : gmap N Document -> gmap N Document) (s : State) : State :=
  {| documents := f (documents s); balances := balances s;
     totalDocuments := totalDocuments s; allDocumentHashes := allDocumentHashes s;
     bankAddress := bankAddress s; overseasInheritor := overseasInheritor s;
     domesticInheritor := domesticInheritor s;
     isInheritanceDistributed := isInheritanceDistributed s;
     this_balance := this_balance s |}.

Definition set_balances (f : gmap N uint256 -> gmap N uint256) (s : State) : State :=
  {| documents := documents s; balances := f (balances s);
     totalDocuments := totalDocuments s; allDocumentHashes := allDocumentHashes s;
     bankAddress := bankAddress s; overseasInheritor := overseasInheritor s;
     domesticInheritor := domesticInheritor s;
     isInheritanceDistributed := isInheritanceDistributed s;
     this_balance := this_balance s |}.

Definition set_totalDocuments (x : uint256) (s : State) : State :=
  {| documents := documents s; balances := balances s;
     totalDocuments := x; allDocumentHashes := allDocumentHashes s;
     bankAddress := bankAddress s; overseasInheritor := overseasInheritor s;
     domesticInheritor := domesticInheritor s;
     isInheritanceDistributed := isInheritanceDistributed s;
     this_balance := this_balance s |}.

Definition set_allDocumentHashes (f : list bytes32 -> list bytes32) (s : State) : State :=
  {| documents := documents s; balances := balances s;
     totalDocuments := totalDocuments s; allDocumentHashes := f (allDocumentHashes s);
     bankAddress := bankAddress s; overseasInheritor := overseasInheritor s;
     domesticInheritor := domesticInheritor s;
     isInheritanceDistributed := isInheritanceDistributed s;
     this_balance := this_balance s |}.

Definition set_overseasInheritor (f : Inheritor -> Inheritor) (s : State) : State :=
  {| documents := documents s; balances := balances s;
     totalDocuments := totalDocuments s; allDocumentHashes := allDocumentHashes s;
     bankAddress := bankAddress s; overseasInheritor := f (overseasInheritor s);
     domesticInheritor := domesticInheritor s;
     isInheritanceDistributed := isInheritanceDistributed s;
     this_balance := this_balance s |}.

Definition set_domesticInheritor (f : Inheritor -> Inheritor) (s : State) : State :=
  {| documents := documents s; balances := balances s;
     totalDocuments := totalDocuments s; allDocumentHashes := allDocumentHashes s;
     bankAddress := bankAddress s; overseasInheritor := overseasInheritor s;
     domesticInheritor := f (domesticInheritor s);
     isInheritanceDistributed := isInheritanceDistributed s;
     this_balance := this_balance s |}.

Definition set_isInheritanceDistributed (x : bool) (s : State) : State :=
  {| documents := documents s; balances := balances s;
     totalDocuments := totalDocuments s; allDocumentHashes := allDocumentHashes s;
     bankAddress := bankAddress s; overseasInheritor := overseasInheritor s;
     domesticInheritor := domesticInheritor s;
     isInheritanceDistributed := x;
     this_balance := this_balance s |}.

Definition set_this_balance (x : uint256) (s : State) : State :=
  {| documents := documents s; balances := balances s;
     totalDocuments := totalDocuments s; allDocumentHashes := allDocumentHashes s;
     bankAddress := bankAddress s; overseasInheritor := overseasInheritor s;
     domesticInheritor := domesticInheritor s;
     isInheritanceDistributed := isInheritanceDistributed s;
     this_balance := x |}.

Definition update_document (h : bytes32) (f : Document -> Document) : State -> State :=
  set_documents (fun m => <[h := f m.[h]]> m).

Abbreviation Exec := (M State Event).
Abbreviation Trace := (list (Step State Event)).

Definition SHARE_AMOUNT : uint256 := 5000000000.

Definition onlyBank {A} (msg_sender : address) (body : Exec A) : Exec A :=
  let! bank := gets bankAddress in
  require (msg_sender =? bank) "Only bank can call this function" >>
  body.

(** [to.call{value: value}("")], as in the ledger contract. *)
Definition send (to : address) (value : uint256) (recipient_accepts : bool) : Exec bool :=
  trace_call to value >>
  let! held := gets this_balance in
  if (value <=? held) && recipient_accepts
  then modify_balance (set_this_balance (held - value)) >> ret true
  else ret false.

Section Contract.
(** [keccak256(abi.encodePacked(s))] for a string [s]. *)
Variable keccak256 : string -> bytes32.

(** Storage as the constructor leaves it. *)
Definition deployed (_overseasInheritor _domesticInheritor _bankAddress : address) : State :=
  {| documents := ∅; balances := ∅; totalDocuments := 0;
     allDocumentHashes := []; bankAddress := _bankAddress;
     overseasInheritor :=
       {| wallet := _overseasInheritor; isOverseas := true;
          hasReceived := false; receivedAmount := 0 |};
     domesticInheritor :=
       {| wallet := _domesticInheritor; isOverseas := false;
          hasReceived := false; receivedAmount := 0 |};
     isInheritanceDistributed := false; this_balance := 0 |}.

Definition constructor (_overseasInheritor _domesticInheritor _bankAddress : address)
    : Result State :=
  if _overseasInheritor =? 0 then Err (Revert "Invalid overseas inheritor")
  else if _domesticInheritor =? 0 then Err (Revert "Invalid domestic inheritor")
  else if _bankAddress =? 0 then Err (Revert "Invalid bank address")
  else if _overseasInheritor =? _domesticInheritor then Err (Revert "Inheritors must be different")
  else Ok (deployed _overseasInheritor _domesticInheritor _bankAddress).

Definition registerDocument (msg_sender : address) (block_timestamp : uint256)
    (documentContent documentType : string) : Exec bytes32 :=
  let documentHash := keccak256 documentContent in
  let! d := gets (fun s => (documents s).[documentHash]) in
  require (SimpleInheritance.documentHash d =? 0) "Document already exists" >>
  sstore (set_documents (insert documentHash
    {| documentHash := documentHash; owner := msg_sender;
       timestamp := block_timestamp; isVerified := false;
       documentType := documentType |})) >>
  sstore (set_allDocumentHashes (fun l => l ++ [documentHash])) >>
  let! n := gets totalDocuments in
  let! n' := checked_add n 1 in
  sstore (set_totalDocuments n') >>
  emit (DocumentRegistered documentHash msg_sender documentType block_timestamp) >>
  ret documentHash.

Definition _distributeInheritance (block_timestamp : uint256) : Exec unit :=
  let! distributed := gets isInheritanceDistributed in
  require (negb distributed) "Inheritance already distributed" >>
  let! held := gets this_balance in
  require (10000000000 <=? held) "Insufficient balance" >>
  let! overseas := gets overseasInheritor in
  (if negb (hasReceived overseas) then
     let! b := gets (fun s => (balances s).[wallet overseas]) in
     let! b' := checked_add b SHARE_AMOUNT in
     sstore (set_balances (insert (wallet overseas) b')) >>
     sstore (set_overseasInheritor (with_hasReceived true)) >>
     sstore (set_overseasInheritor (with_receivedAmount SHARE_AMOUNT))
   else ret tt) >>
  let! domestic := gets domesticInheritor in
  (if negb (hasReceived domestic) then
     let! b := gets (fun s => (balances s).[wallet domestic]) in
     let! b' := checked_add b SHARE_AMOUNT in
     sstore (set_balances (insert (wallet domestic) b')) >>
     sstore (set_domesticInheritor (with_hasReceived true)) >>
     sstore (set_domesticInheritor (with_receivedAmount SHARE_AMOUNT))
   else ret tt) >>
  sstore (set_isInheritanceDistributed true) >>
  emit (InheritanceDistributed (wallet overseas) (wallet domestic) SHARE_AMOUNT block_timestamp).

(** The scan of [_checkAndDistributeInheritance]: stops at the first
    verified document. *)
Fixpoint hasVerifiedDocument (docs : gmap N Document) (hashes : list bytes32) : bool :=
  match hashes with
  | [] => false
  | h :: rest => if isVerified docs.[h] then true else hasVerifiedDocument docs rest
  end.

Definition _checkAndDistributeInheritance (block_timestamp : uint256) : Exec unit :=
  let! distributed := gets isInheritanceDistributed in
  if distributed then ret tt
  else
    let! found := gets (fun s => hasVerifiedDocument (documents s) (allDocumentHashes s)) in
    if found then _distributeInheritance block_timestamp else ret tt.

Definition verifyDocument (msg_sender : address) (block_timestamp : uint256)
    (documentHash : bytes32) : Exec unit :=
  onlyBank msg_sender (
    let! d := gets (fun s => (documents s).[documentHash]) in
    require (negb (SimpleInheritance.documentHash d =? 0)) "Document does not exist" >>
    require (negb (isVerified d)) "Document already verified" >>
    sstore (update_document documentHash (with_isVerified true)) >>
    emit (DocumentVerified documentHash msg_sender block_timestamp) >>
    _checkAndDistributeInheritance block_timestamp).

Definition deposit (msg_sender : address) (block_timestamp : uint256)
    (msg_value : uint256) : Exec unit :=
  modify_balance (fun s => set_this_balance (this_balance s + msg_value) s) >>
  require (0 <? msg_value) "Must deposit some amount" >>
  emit (Deposited msg_sender msg_value block_timestamp).

(** The [receive()] function: plain ether transfers to the contract. *)
Definition receive (msg_sender : address) (block_timestamp : uint256)
    (msg_value : uint256) : Exec unit :=
  modify_balance (fun s => set_this_balance (this_balance s + msg_value) s) >>
  emit (Deposited msg_sender msg_value block_timestamp).

Definition withdraw (msg_sender : address) (block_timestamp : uint256)
    (recipient_accepts : bool) : Exec unit :=
  let! overseas := gets overseasInheritor in
  let! domestic := gets domesticInheritor in
  require ((msg_sender =? wallet overseas) || (msg_sender =? wallet domestic))
    "Only inheritors can withdraw" >>
  let! amount := gets (fun s => (balances s).[msg_sender]) in
  require (0 <? amount) "No balance to withdraw" >>
  sstore (set_balances (insert msg_sender 0)) >>
  let! success := send msg_sender amount recipient_accepts in
  require success "Transfer failed" >>
  emit (Released msg_sender amount block_timestamp).

Definition getDocument (documentHash : bytes32) : Exec Document :=
  let! d := gets (fun s => (documents s).[documentHash]) in
  require (negb (SimpleInheritance.documentHash d =? 0)) "Document does not exist" >>
  ret d.

Definition getTotalDocuments : Exec uint256 := gets totalDocuments.

Definition getDocumentByIndex (index : uint256) : Exec Document :=
  let! n := gets totalDocuments in
  require (index <? n) "Index out of bounds" >>
  let! hashes := gets allDocumentHashes in
  match hashes !! N.to_nat index with
  | None => throw (Panic ARRAY_OUT_OF_BOUNDS)
  | Some docHash => gets (fun s => (documents s).[docHash])
  end.

Definition getInheritors : Exec (Inheritor * Inheritor) :=
  gets (fun s => (overseasInheritor s, domesticInheritor s)).

Definition getInheritanceStatus : Exec bool := gets isInheritanceDistributed.

Definition getContractBalance : Exec uint256 := gets this_balance.

(** ** Transactions *)

Inductive Call : Type :=
| RegisterDocument (documentContent documentType : string)
| VerifyDocument (documentHash : bytes32)
| Deposit (msg_value : uint256)
| Receive (msg_value : uint256)
| Withdraw (recipient_accepts : bool).

Record Tx : Type := {
  msg_sender : address;
  block_timestamp : uint256;
  call : Call
}.

Definition dispatch (tx : Tx) : Exec unit :=
  let sender := msg_sender tx in
  let now := block_timestamp tx in
  match call tx with
  | RegisterDocument content type =>
      let! _ := registerDocument sender now content type in ret tt
  | VerifyDocument h => verifyDocument sender now h
  | Deposit value => deposit sender now value
  | Receive value => receive sender now value
  | Withdraw accepts => withdraw sender now accepts
  end.

Definition apply (tx : Tx) (s : State) : State := transact (dispatch tx) s.

Definition apply_all (txs : list Tx) (s : State) : State :=
  fold_left (fun s tx => apply tx s) txs s.

(** The states the deployed contract can be in. *)
Inductive reachable : State -> Prop :=
| reachable_deployed overseas domestic bank s :
    constructor overseas domestic bank = Ok s -> reachable s
| reachable_apply tx s : reachable s -> reachable (apply tx s).
End Contract.

(** ** What holds in every state the contract can be in

    The inheritors differ; every existing document is indexed; only
    existing documents are verified; before the distribution nothing is
    verified, received or credited; and while nothing is verified the
    distribution has not happened. *)

Record invariant (s : State) : Prop := {
  inv_wallets : wallet (overseasInheritor s) ≠ wallet (domesticInheritor s);
  inv_indexed : forall h, documentHash (documents s).[h] ≠ 0 -> In h (allDocumentHashes s);
  inv_verified : forall h, isVerified (documents s).[h] = true ->
                           documentHash (documents s).[h] ≠ 0;
  inv_pending : isInheritanceDistributed s = false ->
                (forall h, isVerified (documents s).[h] = false)
                /\ hasReceived (overseasInheritor s) = false
                /\ hasReceived (domesticInheritor s) = false
                /\ (forall a, (balances s).[a] = 0);
  inv_first : (forall h, isVerified (documents s).[h] = false) ->
              isInheritanceDistributed s = false
}.

(** ** The money and the parties *)

(** What the contract owes its two inheritors. *)
Definition owed (s : State) : N :=
  (balances s).[wallet (overseasInheritor s)] + (balances s).[wallet (domesticInheritor s)].

(** The bank and the two wallets are untouched. *)
Definition parties_same (s s' : State) : Prop :=
  bankAddress s' = bankAddress s
  /\ wallet (overseasInheritor s') = wallet (overseasInheritor s)
  /\ wallet (domesticInheritor s') = wallet (domesticInheritor s).

(** Document [h], once it exists, keeps its hash, owner, time and type,
    and its verified flag can only stay set. *)
Definition document_kept (h : bytes32) (s s' : State) : Prop :=
  documentHash (documents s).[h] ≠ 0 ->
  documentHash (documents s').[h] = documentHash (documents s).[h]
  /\ owner (documents s').[h] = owner (documents s).[h]
  /\ timestamp (documents s').[h] = timestamp (documents s).[h]
  /\ documentType (documents s').[h] = documentType (documents s).[h]
  /\ (isVerified (documents s).[h] = true -> isVerified (documents s').[h] = true).

(** The accounts of the contract: the parties are set, what is owed to
    the inheritors is held, a balance is nothing or one share, nobody
    but the inheritors has one, and the counter of documents is the
    length of the hash list. *)
Record accounts (s : State) : Prop := {
  acc_parties : wallet (overseasInheritor s) ≠ 0
                /\ wallet (domesticInheritor s) ≠ 0
                /\ bankAddress s ≠ 0;
  acc_backed : owed s <= this_balance s;
  acc_shares : forall a, (balances s).[a] = 0 \/ (balances s).[a] = SHARE_AMOUNT;
  acc_others : forall a, a ≠ wallet (overseasInheritor s) ->
                         a ≠ wallet (domesticInheritor s) -> (balances s).[a] = 0;
  acc_count : totalDocuments s = N.of_nat (length (allDocumentHashes s))
}.

End SimpleInheritance.

(** * The panels of the web client

    The display helpers of [web/src/client/bank/BankPanel.tsx] (the same
    in [admin/AdminPanel.tsx]), as functions on strings. A JavaScript
    string is a sequence of code units; the addresses and hashes shown
    are hexadecimal text, one byte per unit. *)

Module Web.





End Web.

(** * Concrete runs

    States reached by short transaction sequences, on which the model is
    run. The contracts are parametric in the hash function; the runs use
    a stand-in that maps a string to 1000 plus its length, which keeps
    the two documents used apart. *)

Module Scenario.

Definition length_hash (s : string) : bytes32 := N.of_nat (String.length s) + 1000.

(** The outcome and the trace of a call, for stating what a run gives. *)
Definition trace_of {St Ev A} (c : M St Ev A) (s : St) : list (Step St Ev) :=
  match run c s with
  | Ok (_, m) => snd m
  | Err _ => []
  end.

Module Ledger.
Import InheritanceAutomation.

(** Bank 1, document owner 2, depositor 3, inheritors 20 and 21. *)
Definition doc_A : bytes32 := 1005.

Definition register_A : Tx :=
  {| msg_sender := 2; block_timestamp := 10;
     call := RegisterDocument "doc-A" "inheritance" |}.

Definition create_case : Tx :=
  {| msg_sender := 2; block_timestamp := 11;
     call := CreateInheritanceCase 7 [doc_A] [20; 21] [70; 30] |}.

Definition fund_case : Tx :=
  {| msg_sender := 3; block_timestamp := 12; call := Deposit 7 1000 |}.

Definition verify_A : Tx :=
  {| msg_sender := 1; block_timestamp := 13; call := VerifyDocument doc_A |}.

Definition fresh : State := deployed 1.

Definition registered : State := apply_all length_hash [register_A] fresh.

(** The case is created while the document is unverified. *)
Definition created_early : State := apply_all length_hash [register_A; create_case] fresh.

(** ... and the document is verified afterwards. *)
Definition verified_late : State :=
  apply_all length_hash [register_A; create_case; fund_case; verify_A] fresh.

(** The document is verified first, then the case created and funded. *)
Definition ready : State :=
  apply_all length_hash [register_A; verify_A; create_case; fund_case] fresh.

Definition distributed : State := transact (distributeAssets 14 7) ready.

(** The distribution as a transaction, sent by a stranger, and the
    depositor taking 400 out. *)
Definition distribute : Tx :=
  {| msg_sender := 4; block_timestamp := 14; call := DistributeAssets 7 |}.

Definition take_out : Tx :=
  {| msg_sender := 3; block_timestamp := 15; call := Withdraw 400 true |}.

End Ledger.

Module FixedSplit.
Import SimpleInheritance.

(** Overseas inheritor 20, domestic inheritor 21, bank 1, owner 2, funder 5. *)
Definition doc_A : bytes32 := 1005.

Definition register_A : Tx :=
  {| msg_sender := 2; block_timestamp := 10;
     call := RegisterDocument "doc-A" "inheritance" |}.

Definition fund_pool : Tx :=
  {| msg_sender := 5; block_timestamp := 11; call := Deposit 10000000000 |}.

Definition fresh : State := deployed 20 21 1.

Definition unfunded : State := apply_all length_hash [register_A] fresh.

Definition funded : State := apply_all length_hash [register_A; fund_pool] fresh.

(** The bank verifies the document of the funded run, which settles the
    inheritance; then 7 more are sent in and the overseas inheritor
    withdraws. *)
Definition verify_A : Tx :=
  {| msg_sender := 1; block_timestamp := 12; call := VerifyDocument doc_A |}.

Definition top_up : Tx :=
  {| msg_sender := 5; block_timestamp := 13; call := Receive 7 |}.

Definition collect : Tx :=
  {| msg_sender := 20; block_timestamp := 14; call := Withdraw true |}.

Definition settled : State :=
  apply_all length_hash [register_A; fund_pool; verify_A] fresh.
End FixedSplit.

End Scenario.

(** * Properties *)

Global Arguments mapping_read : simpl never.

(** ** Reading mappings *)

Section MappingFacts.
Context {V : Type} `{Zero V}.
Implicit Types (m : gmap N V) (k : N) (v : V).

Lemma read_empty k : (∅ : gmap N V).[k] = zero.
Proof. unfold mapping_read. now rewrite lookup_empty. Qed.

Lemma read_insert_eq m k v : (<[k := v]> m).[k] = v.
Proof. unfold mapping_read. now rewrite lookup_insert_eq. Qed.

Lemma read_insert_ne m k k' v : k ≠ k' -> (<[k := v]> m).[k'] = m.[k'].
Proof. intros Hne. unfold mapping_read. now rewrite lookup_insert_ne. Qed.

Lemma read_insert m k k' v :
  (<[k := v]> m).[k'] = if decide (k = k') then v else m.[k'].
Proof.
  case_decide as Hk.
  - subst. apply read_insert_eq.
  - now apply read_insert_ne.
Qed.
End MappingFacts.

(** ** The execution monad *)

(** Closes [preserves] goals of steps that store nothing. *)
Ltac silent_step :=
  split; [auto|]; exists []; rewrite app_nil_r; split; [reflexivity|];
  intros ? Hin; destruct Hin.

Section ExecutionFacts.
Context {St Ev : Type}.
Implicit Types (s : St) (tr : list (Step St Ev)).
Local Abbreviation preserves := (@preserves St Ev _).

Section Preservation.
Variable R : St -> St -> Prop.
Hypothesis R_refl : forall s, R s s.
Hypothesis R_trans : forall s1 s2 s3, R s1 s2 -> R s2 s3 -> R s1 s3.

Lemma preserves_ret {A} (a : A) : preserves R (ret a).
Proof.
  intros s tr a' s' tr' Hrun. inversion Hrun; subst.
  silent_step.
Qed.

Lemma preserves_throw {A} e : preserves R (throw e : M St Ev A).
Proof. intros s tr a s' tr' Hrun. discriminate Hrun. Qed.

Lemma preserves_gets {A} (f : St -> A) : preserves R (gets f).
Proof.
  intros s tr a s' tr' Hrun. inversion Hrun; subst.
  silent_step.
Qed.

Lemma preserves_require cond reason : preserves R (require cond reason).
Proof.
  intros s tr a s' tr' Hrun. unfold require in Hrun.
  destruct cond; inversion Hrun; subst.
  silent_step.
Qed.

Lemma preserves_guard (b : bool) e :
  preserves R (fun m => if b then Err e else Ok (tt, m)).
Proof.
  intros s tr a s' tr' Hrun. destruct b; inversion Hrun; subst.
  silent_step.
Qed.

Lemma preserves_emit e : preserves R (emit e).
Proof.
  intros s tr a s' tr' Hrun. inversion Hrun; subst.
  split; [apply R_refl|]. exists [Log e]. split; [reflexivity|].
  intros x Hx. destruct Hx as [Hx|Hx]; [discriminate Hx | destruct Hx].
Qed.

Lemma preserves_trace_call to value : preserves R (trace_call to value).
Proof.
  intros s tr a s' tr' Hrun. inversion Hrun; subst.
  split; [apply R_refl|]. eexists. split; [reflexivity|].
  intros x Hx. destruct Hx as [Hx|Hx]; [discriminate Hx | destruct Hx].
Qed.

Lemma preserves_sstore (f : St -> St) :
  (forall s, R s (f s)) -> preserves R (sstore f).
Proof.
  intros Hf s tr a s' tr' Hrun. inversion Hrun; subst. cbn [fst snd].
  split; [apply Hf|]. eexists. split; [reflexivity|].
  intros x Hx. destruct Hx as [Hx|Hx]; [|destruct Hx].
  inversion Hx; subst. apply Hf.
Qed.

Lemma preserves_modify_balance (f : St -> St) :
  (forall s, R s (f s)) -> preserves R (modify_balance f).
Proof.
  intros Hf s tr a s' tr' Hrun. inversion Hrun; subst. cbn [fst snd].
  silent_step.
Qed.

Lemma preserves_checked_add a b : preserves R (checked_add a b).
Proof.
  intros s tr r s' tr' Hrun. unfold checked_add in Hrun.
  destruct (a + b <=? MAX_UINT256); inversion Hrun; subst.
  silent_step.
Qed.

Lemma preserves_checked_sub a b : preserves R (checked_sub a b).
Proof.
  intros s tr r s' tr' Hrun. unfold checked_sub in Hrun.
  destruct (b <=? a); inversion Hrun; subst.
  silent_step.
Qed.

Lemma preserves_checked_mul a b : preserves R (checked_mul a b).
Proof.
  intros s tr r s' tr' Hrun. unfold checked_mul in Hrun.
  destruct (a * b <=? MAX_UINT256); inversion Hrun; subst.
  silent_step.
Qed.

Lemma preserves_bind {A B} (c : M St Ev A) (k : A -> M St Ev B) :
  preserves R c -> (forall a, preserves R (k a)) -> preserves R (bind c k).
Proof.
  intros Hc Hk s tr b s' tr' Hrun. unfold bind in Hrun.
  destruct (c (s, tr)) as [[a [s1 tr1]]|] eqn:Hc1; [|discriminate].
  destruct (Hc _ _ _ _ _ Hc1) as (H1 & new1 & -> & Hnew1).
  destruct (Hk a _ _ _ _ _ Hrun) as (H2 & new2 & -> & Hnew2).
  split; [eauto|]. exists (new1 ++ new2). rewrite app_assoc. split; [reflexivity|].
  intros x Hx. apply in_app_or in Hx as [Hx|Hx]; eauto.
Qed.

Lemma preserves_if {A} (b : bool) (c1 c2 : M St Ev A) :
  preserves R c1 -> preserves R c2 -> preserves R (if b then c1 else c2).
Proof. destruct b; auto. Qed.

Lemma preserves_for_each {A} (l : list A) (body : A -> M St Ev unit) :
  (forall x, preserves R (body x)) -> preserves R (for_each l body).
Proof.
  intros Hbody. induction l as [|x l IH]; cbn [for_each].
  - apply preserves_ret.
  - apply preserves_bind; auto.
Qed.
End Preservation.

Lemma preserves_weaken {A} (R R' : St -> St -> Prop) (c : M St Ev A) :
  (forall s s', R s s' -> R' s s') -> preserves R c -> preserves R' c.
Proof.
  intros HR Hc s tr a s' tr' Hrun.
  destruct (Hc _ _ _ _ _ Hrun) as (H1 & new & -> & Hnew).
  split; [auto|]. exists new. split; auto.
Qed.

Lemma transact_preserves {A} (R : St -> St -> Prop) (c : M St Ev A) s :
  (forall s, R s s) -> preserves R c -> R s (transact c s).
Proof.
  intros Hrefl Hc. unfold transact, run.
  destruct (c (s, [])) as [[a [s' tr']]|] eqn:Hrun; [|apply Hrefl].
  cbn [fst]. now destruct (Hc _ _ _ _ _ Hrun).
Qed.
End ExecutionFacts.

Create HintDb preserve discriminated.
#[global] Hint Resolve preserves_ret preserves_throw preserves_gets preserves_require
  preserves_guard preserves_emit preserves_trace_call preserves_checked_add
  preserves_checked_sub preserves_checked_mul : preserve.

(** ** The percentage ledger *)

Module LedgerFacts.
Import InheritanceAutomation.

(** Symbolic execution of a call: unfolds the monad and the contract's
    straight-line functions, leaving the conditions met on the way. *)
Ltac exec :=
  cbv beta iota zeta delta
    [run transact bind ret throw require gets sstore emit modify_balance trace_call
     checked_add checked_sub checked_mul
     documentExists caseExists onlyBank nonReentrant send
     registerDocument encryptAndSendToBank decryptAndVerifyDocument verifyDocument
     createInheritanceCase distribute_to distributeAssets deposit withdraw
     verifyDocumentHash dispatch apply];
  cbn [fst snd].

Ltac exec_in H :=
  cbv beta iota zeta delta
    [run transact bind ret throw require gets sstore emit modify_balance trace_call
     checked_add checked_sub checked_mul
     documentExists caseExists onlyBank nonReentrant send
     registerDocument encryptAndSendToBank decryptAndVerifyDocument verifyDocument
     createInheritanceCase distribute_to distributeAssets deposit withdraw
     verifyDocumentHash dispatch apply] in H;
  cbn [fst snd] in H.

(** Decides the next condition a hypothesis about a run depends on. *)
Ltac branch H :=
  match type of H with
  | context [if ?b then _ else _] =>
      let E := fresh "E" in
      destruct b eqn:E; cbn [fst snd] in H; try discriminate H
  end.

(** *** State projections after a write *)

Lemma case_update_case c c' f s :
  (inheritanceCases (update_case c f s)).[c'] =
  if decide (c = c') then f (inheritanceCases s).[c] else (inheritanceCases s).[c'].
Proof. unfold update_case, set_inheritanceCases. cbn. apply read_insert. Qed.

Lemma case_update_case_eq c f s :
  (inheritanceCases (update_case c f s)).[c] = f (inheritanceCases s).[c].
Proof. rewrite case_update_case. now rewrite decide_True. Qed.

(** *** verifyDocument and the bank *)

(** C5, as the contract has it: a caller other than the bank can never
    verify a document, whatever the document's state; the call fails with
    NotFound when no document has that hash (the existence modifier runs
    first) and with Unauthorized when one has, verified or not. *)
Theorem verifyDocument_non_bank (st : State) (sender now h : N) :
  sender ≠ bankAddress st ->
  run (verifyDocument sender now h) st =
    Err (if timestamp (documents st).[h] =? 0 then NotFound_document else Unauthorized)
  /\ transact (verifyDocument sender now h) st = st.
Proof.
  intros Hsender.
  assert (Hrun : run (verifyDocument sender now h) st =
    Err (if timestamp (documents st).[h] =? 0 then NotFound_document else Unauthorized)).
  { exec. destruct (timestamp (documents st).[h] =? 0); cbn; [reflexivity|].
    destruct (N.eqb_spec sender (bankAddress st)) as [Heq|_]; [contradiction|reflexivity]. }
  split; [exact Hrun|]. unfold transact. now rewrite Hrun.
Qed.

(** *** decryptAndVerifyDocument and verifyDocumentHash *)

(** C9: decryptAndVerifyDocument answers true for every hash and content,
    only logging an event: the state, and with it every verified flag,
    is left as it was, and no digest is compared; verifyDocumentHash
    answers true for every input as well. *)
Theorem decryptAndVerifyDocument_checks_nothing (st : State) (now h : N) (content : string) :
  run (decryptAndVerifyDocument now h content) st =
    Ok (true, (st, [Log (DocumentDecrypted h content now)]))
  /\ transact (decryptAndVerifyDocument now h content) st = st
  /\ run (verifyDocumentHash h content) st = Ok (true, (st, [])).
Proof. repeat split. Qed.

(** *** deposit *)

(** C8, as the contract has it: the amount is checked before the case. A
    deposit of zero fails with InvalidInput, a positive deposit to an
    absent case fails with NotFound, and a positive deposit to an existing
    case adds the amount both to the case's totalAmount and to the
    depositor's own balance (and to the ether held), provided neither sum
    leaves uint256. A failed deposit changes nothing. *)
Theorem deposit_outcome (st : State) (sender now value caseId : N) :
  (value = 0 -> run (deposit sender now value caseId) st = Err InvalidInput_amount)
  /\ (0 < value -> createdAt (inheritanceCases st).[caseId] = 0 ->
      run (deposit sender now value caseId) st = Err NotFound_case)
  /\ (0 < value -> createdAt (inheritanceCases st).[caseId] ≠ 0 ->
      totalAmount (inheritanceCases st).[caseId] + value <= MAX_UINT256 ->
      (balances st).[sender] + value <= MAX_UINT256 ->
      exists st' tr,
        run (deposit sender now value caseId) st = Ok (tt, (st', tr))
        /\ totalAmount (inheritanceCases st').[caseId] =
             totalAmount (inheritanceCases st).[caseId] + value
        /\ (balances st').[sender] = (balances st).[sender] + value
        /\ this_balance st' = this_balance st + value
        /\ (forall a, a ≠ sender -> (balances st').[a] = (balances st).[a])
        /\ (forall c, c ≠ caseId -> (inheritanceCases st').[c] = (inheritanceCases st).[c])
        /\ documents st' = documents st)
  /\ (forall e, run (deposit sender now value caseId) st = Err e ->
      transact (deposit sender now value caseId) st = st).
Proof.
  repeat split.
  - intros ->. reflexivity.
  - intros Hpos Habsent. exec.
    apply N.ltb_lt in Hpos. rewrite Hpos. cbn.
    rewrite Habsent. reflexivity.
  - intros Hpos Hexists Htotal Hbalance.
    apply N.ltb_lt in Hpos. apply N.eqb_neq in Hexists.
    apply N.leb_le in Htotal. apply N.leb_le in Hbalance.
    eexists. eexists. exec. rewrite Hpos. cbn.
    rewrite Hexists. cbn. rewrite Htotal. cbn. rewrite Hbalance.
    split; [reflexivity|]. cbn.
    rewrite !read_insert_eq.
    repeat split; intros; now apply read_insert_ne.
  - intros e Hrun. unfold transact. now rewrite Hrun.
Qed.

(** *** What later calls leave alone *)

Lemma stable_refl cid s : stable cid s s.
Proof. intros _. auto. Qed.

Lemma stable_trans cid s1 s2 s3 : stable cid s1 s2 -> stable cid s2 s3 -> stable cid s1 s3.
Proof.
  intros H12 H23 Hc. destruct (H12 Hc) as (Ht & Hd & Hf).
  destruct H23 as (Ht' & Hd' & Hf'); [congruence|].
  repeat split; try congruence. auto.
Qed.

Lemma case_same_refl cid s : case_same cid s s.
Proof. reflexivity. Qed.

Lemma case_same_trans cid s1 s2 s3 :
  case_same cid s1 s2 -> case_same cid s2 s3 -> case_same cid s1 s3.
Proof. unfold case_same. congruence. Qed.

Lemma lock_same_refl s : lock_same s s.
Proof. reflexivity. Qed.

Lemma lock_same_trans s1 s2 s3 : lock_same s1 s2 -> lock_same s2 s3 -> lock_same s1 s3.
Proof. unfold lock_same. congruence. Qed.

Lemma case_same_stable cid s s' : case_same cid s s' -> stable cid s s'.
Proof. unfold case_same. intros Heq _. rewrite Heq. auto. Qed.

#[global] Hint Resolve stable_refl stable_trans case_same_refl case_same_trans
  lock_same_refl lock_same_trans : preserve.

Lemma sum_shares_preserves R shares acc :
  (forall s, R s s) -> (forall s1 s2 s3, R s1 s2 -> R s2 s3 -> R s1 s3) ->
  preserves (St := State) (Ev := Event) R (sum_shares shares acc).
Proof.
  intros Hrefl Htrans. revert acc.
  induction shares as [|x rest IH]; intros acc; cbn [sum_shares].
  - now apply preserves_ret.
  - apply preserves_bind; [assumption| |auto].
    now apply preserves_checked_add.
Qed.

(** Splits a [preserves] goal along the structure of the computation. *)
Ltac preserve_step :=
  match goal with
  | |- preserves _ (bind _ _) => apply preserves_bind; [eauto with preserve | | intros ?]
  | |- preserves _ (sstore _) => apply preserves_sstore; intros ?
  | |- preserves _ (modify_balance _) => apply preserves_modify_balance; intros ?
  | |- preserves _ (for_each _ _) =>
      apply preserves_for_each; [eauto with preserve | eauto with preserve | intros ?]
  | |- preserves _ (sum_shares _ _) => apply sum_shares_preserves; eauto with preserve
  | |- preserves _ (if _ then _ else _) => apply preserves_if
  | |- preserves _ (match ?x with Some _ => _ | None => _ end) => destruct x
  | |- preserves _ _ => solve [eauto with preserve]
  end.

(** Settles what one write does to a case or to the lock. *)
Ltac write_ok :=
  unfold stable, case_same, lock_same, update_inheritor, update_document, update_case;
  cbn; rewrite ?read_insert;
  repeat case_decide; subst; cbn; try tauto; try congruence.

Ltac preserve := repeat preserve_step; try write_ok.

Section Frame.
Variable keccak256 : string -> bytes32.

Lemma registerDocument_stable cid sender now content type :
  preserves (stable cid) (registerDocument keccak256 sender now content type).
Proof. unfold registerDocument. preserve. Qed.

Lemma encryptAndSendToBank_stable cid sender now h content key :
  preserves (stable cid) (encryptAndSendToBank sender now h content key).
Proof. unfold encryptAndSendToBank, documentExists. preserve. Qed.

Lemma verifyDocument_stable cid sender now h :
  preserves (stable cid) (verifyDocument sender now h).
Proof. unfold verifyDocument, documentExists, onlyBank. preserve. Qed.

Lemma deposit_stable cid sender now value c :
  preserves (stable cid) (deposit sender now value c).
Proof. unfold deposit. preserve. Qed.

Lemma withdraw_stable cid sender now accepts amount :
  preserves (stable cid) (withdraw sender now accepts amount).
Proof. unfold withdraw, nonReentrant, send. preserve. Qed.

Lemma distributeAssets_stable cid now c :
  preserves (stable cid) (distributeAssets now c).
Proof.
  unfold distributeAssets, caseExists, nonReentrant, distribute_to, require_verified.
  preserve.
Qed.

Lemma createInheritanceCase_runs_on_fresh sender now caseId hashes addresses shares s tr a s' tr' :
  createInheritanceCase sender now caseId hashes addresses shares (s, tr) = Ok (a, (s', tr')) ->
  createdAt (inheritanceCases s).[caseId] = 0.
Proof.
  intros Hrun. unfold createInheritanceCase in Hrun. exec_in Hrun.
  branch Hrun. now apply N.eqb_eq.
Qed.

Lemma createInheritanceCase_stable cid sender now caseId hashes addresses shares :
  preserves (stable cid) (createInheritanceCase sender now caseId hashes addresses shares).
Proof.
  destruct (decide (cid = caseId)) as [->|Hne].
  - intros s tr a s' tr' Hrun.
    pose proof (createInheritanceCase_runs_on_fresh _ _ _ _ _ _ _ _ _ _ _ Hrun) as Hfresh.
    assert (Hany : preserves (fun _ _ : State => True)
              (createInheritanceCase sender now caseId hashes addresses shares)).
    { unfold createInheritanceCase, add_document, add_inheritor.
      repeat preserve_step; auto. }
    destruct (Hany _ _ _ _ _ Hrun) as (_ & new & -> & _).
    split; [intros Hc; contradiction|]. exists new. split; [reflexivity|].
    intros x _ Hc. contradiction.
  - apply preserves_weaken with (R := case_same cid); [apply case_same_stable|].
    unfold createInheritanceCase, add_document, add_inheritor. preserve.
Qed.

Lemma dispatch_stable cid tx : preserves (stable cid) (dispatch keccak256 tx).
Proof.
  unfold dispatch. destruct (call tx).
  - apply preserves_bind; [eauto with preserve| |intros ?; eauto with preserve].
    apply registerDocument_stable.
  - apply preserves_bind; [eauto with preserve| |intros ?; eauto with preserve].
    apply encryptAndSendToBank_stable.
  - unfold decryptAndVerifyDocument. preserve.
  - apply verifyDocument_stable.
  - apply createInheritanceCase_stable.
  - apply distributeAssets_stable.
  - apply deposit_stable.
  - apply withdraw_stable.
Qed.

Lemma apply_stable cid tx s : stable cid s (apply keccak256 tx s).
Proof.
  unfold apply. apply (transact_preserves (stable cid)); [apply stable_refl | apply dispatch_stable].
Qed.

Lemma apply_all_stable cid txs s : stable cid s (apply_all keccak256 txs s).
Proof.
  revert s. induction txs as [|tx txs IH]; intros s; cbn.
  - apply stable_refl.
  - eapply stable_trans; [apply apply_stable | apply IH].
Qed.

(** *** The lock is free between transactions *)

Lemma nonReentrant_releases {A} (body : Exec A) s tr a s' tr' :
  nonReentrant body (s, tr) = Ok (a, (s', tr')) -> _status s = false /\ _status s' = false.
Proof.
  unfold nonReentrant, bind, gets, sstore, ret. cbn [fst snd].
  destruct (_status s); [discriminate|].
  destruct (body _) as [[r [s1 tr1]]|]; [|discriminate].
  intros Hrun. inversion Hrun; subst. auto.
Qed.

Lemma dispatch_lock tx s tr a s' tr' :
  dispatch keccak256 tx (s, tr) = Ok (a, (s', tr')) -> _status s = false -> _status s' = false.
Proof.
  unfold dispatch. destruct (call tx); intros Hrun Hfree.
  1-5,7: enough (Hsame : lock_same s s') by (unfold lock_same in Hsame; congruence).
  1-6: match type of Hrun with ?c _ = _ =>
         assert (Hp : preserves lock_same c);
         [|now destruct (Hp _ _ _ _ _ Hrun)] end.
  - unfold registerDocument. preserve.
  - unfold encryptAndSendToBank, documentExists. preserve.
  - unfold decryptAndVerifyDocument. preserve.
  - unfold verifyDocument, documentExists, onlyBank. preserve.
  - unfold createInheritanceCase, add_document, add_inheritor. preserve.
  - unfold deposit. preserve.
  - unfold distributeAssets, caseExists in Hrun.
    unfold bind at 1 2, gets, require in Hrun. cbn [fst snd] in Hrun.
    branch Hrun. now apply nonReentrant_releases in Hrun.
  - unfold withdraw in Hrun. now apply nonReentrant_releases in Hrun.
Qed.

Lemma apply_lock tx s : _status s = false -> _status (apply keccak256 tx s) = false.
Proof.
  intros Hfree. unfold apply, transact, run.
  destruct (dispatch keccak256 tx (s, [])) as [[a [s' tr']]|] eqn:Hrun; [|exact Hfree].
  cbn [fst]. eapply dispatch_lock; eauto.
Qed.

Lemma reachable_lock s : reachable keccak256 s -> _status s = false.
Proof.
  induction 1 as [bank s Hinit|tx s _ IH].
  - unfold constructor in Hinit. destruct (bank =? 0); inversion Hinit. reflexivity.
  - now apply apply_lock.
Qed.

Lemma reachable_apply_all txs s :
  reachable keccak256 s -> reachable keccak256 (apply_all keccak256 txs s).
Proof.
  revert s. induction txs as [|tx txs IH]; intros s Hs; cbn; [exact Hs|].
  apply IH. now constructor.
Qed.

Lemma apply_all_lock txs s :
  _status s = false -> _status (apply_all keccak256 txs s) = false.
Proof.
  revert s. induction txs as [|tx txs IH]; intros s Hfree; cbn; [exact Hfree|].
  apply IH. now apply apply_lock.
Qed.

(** *** withdraw *)

(** C6: in every state the contract can be in, a withdrawal of more than
    the caller's balance fails with InsufficientFunds and changes nothing;
    with a sufficient balance the caller is debited first and the ether
    is sent from the debited state, and when the send fails the call
    fails with TransferFailure and nothing, the debit included, remains. *)
Theorem withdraw_outcome (st : State) (sender now amount : N) (accepts : bool) :
  reachable keccak256 st ->
  ((balances st).[sender] < amount ->
     run (withdraw sender now accepts amount) st = Err InsufficientFunds
     /\ transact (withdraw sender now accepts amount) st = st)
  /\ (amount <= (balances st).[sender] ->
      (amount <=? this_balance st) && accepts = false ->
     run (withdraw sender now accepts amount) st = Err TransferFailure
     /\ transact (withdraw sender now accepts amount) st = st)
  /\ (amount <= (balances st).[sender] ->
      (amount <=? this_balance st) && accepts = true ->
     exists st' pre debited post,
       run (withdraw sender now accepts amount) st =
         Ok (tt, (st', pre ++ ExtCall sender amount debited :: post))
       /\ In (SStore debited) pre
       /\ (balances debited).[sender] = (balances st).[sender] - amount
       /\ this_balance debited = this_balance st
       /\ (forall e, ~ In (Log e) pre)
       /\ (balances st').[sender] = (balances st).[sender] - amount
       /\ this_balance st' = this_balance st - amount
       /\ (forall a, a ≠ sender -> (balances st').[a] = (balances st).[a])).
Proof.
  intros Hreach. pose proof (reachable_lock _ Hreach) as Hfree.
  split; [|split].
  - intros Hshort. apply N.leb_gt in Hshort.
    assert (Hrun : run (withdraw sender now accepts amount) st = Err InsufficientFunds).
    { exec. rewrite Hfree. cbn. now rewrite Hshort. }
    split; [exact Hrun|]. unfold transact. now rewrite Hrun.
  - intros Hle Hsend. apply N.leb_le in Hle.
    assert (Hrun : run (withdraw sender now accepts amount) st = Err TransferFailure).
    { exec. rewrite Hfree. cbn. rewrite Hle. cbn. now rewrite Hsend. }
    split; [exact Hrun|]. unfold transact. now rewrite Hrun.
  - intros Hle Hsend. apply N.leb_le in Hle.
    eexists. exists [SStore (set_status true st);
      SStore (set_balances (insert sender ((balances st).[sender] - amount)) (set_status true st))].
    eexists. eexists. exec. rewrite Hfree. cbn.
    rewrite Hle. cbn. rewrite Hsend. cbn.
    split; [reflexivity|]. cbn.
    rewrite !read_insert_eq.
    split; [auto|]. split; [reflexivity|]. split; [reflexivity|].
    split; [intros e [He|[He|He]]; [discriminate He|discriminate He|destruct He]|].
    split; [reflexivity|]. split; [reflexivity|].
    intros a Ha. now apply read_insert_ne.
Qed.

(** *** distributeAssets *)

(** The verification loop reads the flags of the list it is given. *)
Lemma verified_loop (docs : list Document) (m : Machine State Event) :
  for_each docs require_verified m =
  if forallb isVerified docs then Ok (tt, m) else Err NotAllVerified.
Proof.
  induction docs as [|d docs IH]; cbn [for_each forallb]; [reflexivity|].
  unfold bind, require_verified at 1, require.
  destruct (isVerified d); cbn; [apply IH|reflexivity].
Qed.

Lemma payout_loop_stable cid now c (l : list nat) :
  preserves (stable cid) (for_each l (distribute_to now c)).
Proof. unfold distribute_to. preserve. Qed.

(** A payout round fails only on a compiler-inserted check. *)
Lemma payout_loop_failure now c (l : list nat) m e :
  for_each l (distribute_to now c) m = Err e -> exists code, e = Panic code.
Proof.
  revert m. induction l as [|i l IH]; intros m; cbn [for_each]; [discriminate|].
  unfold bind at 1.
  destruct (distribute_to now c i m) as [[[] m']|e'] eqn:Hstep; [apply IH|].
  intros Hrun. inversion Hrun; subst e'. clear Hrun.
  unfold distribute_to in Hstep. exec_in Hstep.
  destruct (inheritors _ !! i); [|inversion Hstep; eauto].
  branch Hstep; [|inversion Hstep; eauto].
  destruct (0 <? _); [|discriminate].
  cbn [fst snd] in Hstep. branch Hstep. inversion Hstep; eauto.
Qed.

(** What a successful distribution went through. *)
Lemma distributeAssets_success now caseId st st' tr :
  run (distributeAssets now caseId) st = Ok (tt, (st', tr)) ->
  createdAt (inheritanceCases st).[caseId] ≠ 0
  /\ _status st = false
  /\ isDistributed (inheritanceCases st).[caseId] = false
  /\ 0 < totalAmount (inheritanceCases st).[caseId]
  /\ forallb isVerified (caseDocuments (inheritanceCases st).[caseId]) = true
  /\ exists paid new,
       for_each (seq 0 (length (inheritors (inheritanceCases st).[caseId])))
         (distribute_to now caseId)
         (update_case caseId (with_isDistributed true) (set_status true st),
          [SStore (set_status true st);
           SStore (update_case caseId (with_isDistributed true) (set_status true st))])
       = Ok (tt, (paid,
           [SStore (set_status true st);
            SStore (update_case caseId (with_isDistributed true) (set_status true st))] ++ new))
       /\ st' = set_status false paid
       /\ tr = [SStore (set_status true st);
                SStore (update_case caseId (with_isDistributed true) (set_status true st))]
               ++ new ++ [SStore (set_status false paid)].
Proof.
  intros Hrun. unfold distributeAssets, caseExists, nonReentrant in Hrun.
  unfold run, bind, gets, require, sstore, ret in Hrun. cbn [fst snd] in Hrun.
  destruct (N.eqb_spec (createdAt (inheritanceCases st).[caseId]) 0) as [|Hexists];
    [discriminate|]. cbn in Hrun.
  destruct (_status st) eqn:Hfree; [discriminate|]. cbn in Hrun.
  destruct (isDistributed (inheritanceCases st).[caseId]) eqn:Hflag; [discriminate|].
  cbn in Hrun.
  destruct (N.ltb_spec 0 (totalAmount (inheritanceCases st).[caseId])) as [Hfunded|];
    [|discriminate]. cbn in Hrun.
  rewrite verified_loop in Hrun.
  destruct (forallb isVerified _) eqn:Hverified; [|discriminate]. cbn in Hrun.
  match type of Hrun with
  | match ?loop with _ => _ end = _ => destruct loop as [[[] [paid tr1]]|] eqn:Hloop
  end; [|discriminate].
  cbn in Hrun. inversion Hrun; subst. clear Hrun.
  do 5 (split; [auto|]).
  destruct (payout_loop_stable caseId _ _ _ _ _ _ _ _ Hloop) as (_ & new & -> & _).
  exists paid, new. split; [reflexivity|]. split; [reflexivity|].
  reflexivity.
Qed.

(** C3: a successful distributeAssets finds the flag clear and leaves it
    set; within the call the flag is stored before any balance changes
    (every state stored either still has the balances of the start or
    already has the flag); and from then on, whatever transactions
    follow, the flag stays set and distributeAssets on that case fails
    with AlreadyDistributed. *)
Theorem distributeAssets_once (now caseId : N) (st st' : State) (tr : Trace) :
  run (distributeAssets now caseId) st = Ok (tt, (st', tr)) ->
  isDistributed (inheritanceCases st).[caseId] = false
  /\ isDistributed (inheritanceCases st').[caseId] = true
  /\ (forall s, In (SStore s) tr ->
        balances s = balances st \/ isDistributed (inheritanceCases s).[caseId] = true)
  /\ (forall txs now',
        isDistributed (inheritanceCases (apply_all keccak256 txs st')).[caseId] = true
        /\ run (distributeAssets now' caseId) (apply_all keccak256 txs st') =
             Err AlreadyDistributed).
Proof.
  intros Hrun.
  destruct (distributeAssets_success _ _ _ _ _ Hrun)
    as (Hexists & Hfree & Hclear & _ & _ & paid & new & Hloop & -> & ->).
  set (flagged := update_case caseId (with_isDistributed true) (set_status true st)) in *.
  assert (Hflagged : isDistributed (inheritanceCases flagged).[caseId] = true).
  { unfold flagged. now rewrite case_update_case_eq. }
  assert (Hcreated : createdAt (inheritanceCases flagged).[caseId] ≠ 0).
  { unfold flagged. now rewrite case_update_case_eq. }
  destruct (payout_loop_stable caseId _ _ _ _ _ _ _ _ Hloop) as (Hpaid & new' & Hnew' & Hstores).
  apply app_inv_head in Hnew'. subst new'.
  destruct (Hpaid Hcreated) as (Hpaid_created & _ & Hpaid_flag).
  assert (Hend : isDistributed (inheritanceCases (set_status false paid)).[caseId] = true)
    by (cbn; auto).
  assert (Hend_created : createdAt (inheritanceCases (set_status false paid)).[caseId] ≠ 0)
    by (cbn; congruence).
  split; [exact Hclear|]. split; [exact Hend|]. split.
  - intros s Hin. cbn in Hin. destruct Hin as [Hs|[Hs|Hin]].
    + inversion Hs; subst. left. reflexivity.
    + inversion Hs; subst. right. exact Hflagged.
    + right. apply in_app_or in Hin as [Hin|[Hs|[]]].
      * now apply (Hstores s Hin Hcreated).
      * inversion Hs; subst. exact Hend.
  - intros txs now'.
    destruct (apply_all_stable caseId txs (set_status false paid) Hend_created)
      as (Hlater_created & _ & Hlater_flag).
    pose proof (apply_all_lock txs (set_status false paid) eq_refl) as Hlater_free.
    split; [auto|].
    unfold distributeAssets, caseExists, nonReentrant.
    unfold run, bind, gets, require, sstore, ret. cbn [fst snd].
    rewrite Hlater_created. apply N.eqb_neq in Hend_created. rewrite Hend_created.
    cbn. rewrite Hlater_free. cbn. rewrite (Hlater_flag Hend). reflexivity.
Qed.

(** *** The payout loop *)

Lemma credited_app pool (l1 l2 : list Inheritor) a :
  credited pool (l1 ++ l2) a = credited pool l1 a + credited pool l2 a.
Proof. induction l1 as [|i l1 IH]; cbn [credited app]; [reflexivity|]. rewrite IH. lia. Qed.

Lemma total_paid_bound pool (l : list Inheritor) :
  total_paid pool l * 100 <= pool * total_share l.
Proof.
  induction l as [|i l IH]; cbn [total_paid total_share]; [lia|].
  assert (payout pool i * 100 <= pool * share i).
  { unfold payout. rewrite N.mul_comm. apply N.Div0.mul_div_le. }
  lia.
Qed.

Lemma payout_step now caseId pool inhs st k s tr s' tr' :
  payout_invariant caseId pool inhs st k s ->
  (k < length inhs)%nat ->
  distribute_to now caseId k (s, tr) = Ok (tt, (s', tr')) ->
  payout_invariant caseId pool inhs st (S k) s'.
Proof.
  intros (Hpool & Hlen & Hinhs & Hbal) Hk Hstep.
  destruct (lookup_lt_is_Some_2 inhs k Hk) as [inh Hinh].
  pose proof (Hinhs k inh Hinh) as Hcur. rewrite Nat.ltb_irrefl in Hcur.
  unfold distribute_to in Hstep. exec_in Hstep.
  rewrite Hcur, Hpool in Hstep. branch Hstep.
  assert (Htake : take (S k) inhs = take k inhs ++ [inh]) by now apply take_S_r.
  assert (Hself : (k <? S k)%nat = true) by (apply Nat.ltb_lt; lia).
  assert (Hother : forall i, i ≠ k -> (i <? S k)%nat = (i <? k)%nat).
  { intros i Hi. destruct (Nat.ltb_spec i k), (Nat.ltb_spec i (S k)); auto; lia. }
  fold (payout pool inh) in Hstep.
  destruct (0 <? payout pool inh) eqn:Hdue; cbn [fst snd] in Hstep.
  - branch Hstep. inversion Hstep; subst s' tr'. clear Hstep.
    unfold payout_invariant, update_inheritor, update_case. cbn -[Nat.ltb].
    rewrite !read_insert_eq. cbn -[Nat.ltb]. repeat split.
    + exact Hpool.
    + now rewrite !length_alter.
    + intros i inh' Hi. destruct (decide (i = k)) as [->|Hne].
      * rewrite Hinh in Hi. inversion Hi; subst inh'.
        rewrite !list_lookup_alter_eq, Hcur, Hself. cbn.
        unfold paid. now rewrite Hdue.
      * rewrite !list_lookup_alter_ne by congruence.
        now rewrite (Hinhs i inh' Hi), Hother.
    + intros a. rewrite Htake, credited_app. cbn [credited].
      rewrite read_insert. case_decide as Ha.
      * subst a. rewrite N.eqb_refl, Hbal. lia.
      * apply N.eqb_neq in Ha. rewrite Ha, Hbal. lia.
  - inversion Hstep; subst s' tr'. clear Hstep.
    apply N.ltb_ge in Hdue. assert (Hzero : payout pool inh = 0) by lia.
    unfold payout_invariant. repeat split; auto.
    + intros i inh' Hi. rewrite (Hinhs i inh' Hi).
      destruct (decide (i = k)) as [->|Hne].
      * rewrite Hinh in Hi. inversion Hi; subst inh'.
        rewrite Nat.ltb_irrefl, Hself.
        unfold paid. rewrite Hzero. reflexivity.
      * now rewrite Hother.
    + intros a. rewrite Htake, credited_app. cbn [credited].
      rewrite Hzero, Hbal. destruct (wallet inh =? a); lia.
Qed.

Lemma payout_loop now caseId pool inhs st n : forall k s tr s' tr',
  (k + n = length inhs)%nat ->
  payout_invariant caseId pool inhs st k s ->
  for_each (seq k n) (distribute_to now caseId) (s, tr) = Ok (tt, (s', tr')) ->
  payout_invariant caseId pool inhs st (length inhs) s'.
Proof.
  induction n as [|n IH]; intros k s tr s' tr' Hkn Hinv Hrun; cbn [seq for_each] in Hrun.
  - inversion Hrun; subst. now replace (length inhs) with k by lia.
  - unfold bind at 1 in Hrun.
    destruct (distribute_to now caseId k (s, tr)) as [[[] [s1 tr1]]|] eqn:Hstep; [|discriminate].
    apply (IH (S k) s1 tr1 s' tr'); [lia| |exact Hrun].
    eapply payout_step; eauto. lia.
Qed.

(** C2: after a successful distributeAssets on a case whose shares sum
    to 100, every inheritor due a positive amount
    floor(totalAmount * share / 100) is marked as having received exactly
    that amount, the others are left as they were, every balance has
    grown by exactly what the inheritors with that wallet were due, and
    what was credited in total does not exceed the case's totalAmount. *)
Theorem distributeAssets_payout (now caseId : N) (st st' : State) (tr : Trace) :
  run (distributeAssets now caseId) st = Ok (tt, (st', tr)) ->
  total_share (inheritors (inheritanceCases st).[caseId]) = 100 ->
  (forall i inh,
      inheritors (inheritanceCases st).[caseId] !! i = Some inh ->
      0 < totalAmount (inheritanceCases st).[caseId] * share inh / 100 ->
      inheritors (inheritanceCases st').[caseId] !! i =
        Some {| wallet := wallet inh; share := share inh; hasReceived := true;
                receivedAmount :=
                  totalAmount (inheritanceCases st).[caseId] * share inh / 100 |})
  /\ (forall i inh,
      inheritors (inheritanceCases st).[caseId] !! i = Some inh ->
      totalAmount (inheritanceCases st).[caseId] * share inh / 100 = 0 ->
      inheritors (inheritanceCases st').[caseId] !! i = Some inh)
  /\ length (inheritors (inheritanceCases st').[caseId]) =
       length (inheritors (inheritanceCases st).[caseId])
  /\ (forall a, (balances st').[a] =
        (balances st).[a] +
        credited (totalAmount (inheritanceCases st).[caseId])
          (inheritors (inheritanceCases st).[caseId]) a)
  /\ total_paid (totalAmount (inheritanceCases st).[caseId])
       (inheritors (inheritanceCases st).[caseId])
     <= totalAmount (inheritanceCases st).[caseId].
Proof.
  intros Hrun Hshares.
  destruct (distributeAssets_success _ _ _ _ _ Hrun)
    as (_ & _ & _ & _ & _ & last & new & Hloop & -> & _).
  set (pool := totalAmount (inheritanceCases st).[caseId]) in *.
  set (inhs := inheritors (inheritanceCases st).[caseId]) in *.
  assert (Hstart : payout_invariant caseId pool inhs st 0
            (update_case caseId (with_isDistributed true) (set_status true st))).
  { unfold payout_invariant. rewrite case_update_case_eq. cbn.
    repeat split; auto. intros a. rewrite take_0. cbn [credited]. lia. }
  pose proof (payout_loop _ _ _ _ _ _ 0%nat _ _ _ _ eq_refl Hstart Hloop)
    as (Hpool & Hlen & Hinhs & Hbal).
  rewrite firstn_all in Hbal.
  split; [|split; [|split; [|split]]].
  - intros i inh Hi Hdue. cbn. rewrite (Hinhs i inh Hi).
    apply lookup_lt_Some in Hi. apply Nat.ltb_lt in Hi. rewrite Hi.
    unfold paid, payout. apply N.ltb_lt in Hdue. now rewrite Hdue.
  - intros i inh Hi Hzero. cbn. rewrite (Hinhs i inh Hi).
    apply lookup_lt_Some in Hi. apply Nat.ltb_lt in Hi. rewrite Hi.
    unfold paid, payout. rewrite Hzero. reflexivity.
  - exact Hlen.
  - exact Hbal.
  - pose proof (total_paid_bound pool inhs) as Hbound.
    rewrite Hshares in Hbound. lia.
Qed.

(** *** createInheritanceCase *)

Lemma sum_shares_result (shares : list uint256) (acc : uint256) (m : Machine State Event) :
  acc <= MAX_UINT256 ->
  sum_shares shares acc m =
  if acc + sum_of shares <=? MAX_UINT256 then Ok (acc + sum_of shares, m)
  else Err (Panic ARITHMETIC_OVERFLOW).
Proof.
  revert acc. induction shares as [|x rest IH]; intros acc Hacc; cbn [sum_shares sum_of foldr].
  - rewrite N.add_0_r. apply N.leb_le in Hacc. rewrite Hacc. reflexivity.
  - fold (sum_of rest). unfold bind, checked_add.
    destruct (N.leb_spec (acc + x) MAX_UINT256) as [Hfits|Hover].
    + rewrite IH by exact Hfits. now rewrite N.add_assoc.
    + destruct (N.leb_spec (acc + (x + sum_of rest)) MAX_UINT256); [lia|reflexivity].
Qed.

Lemma sum_shares_run (shares : list uint256) (m : Machine State Event) :
  sum_shares shares 0 m =
  if sum_of shares <=? MAX_UINT256 then Ok (sum_of shares, m)
  else Err (Panic ARITHMETIC_OVERFLOW).
Proof. rewrite sum_shares_result by (unfold MAX_UINT256; lia). reflexivity. Qed.

Lemma add_documents_missing c (hashes : list bytes32) s tr :
  Exists (fun h => ~ present s h) hashes ->
  for_each hashes (add_document c) (s, tr) = Err NotFound_referenced.
Proof.
  revert s tr. induction hashes as [|h rest IH]; intros s tr Hmissing.
  - inversion Hmissing.
  - cbn [for_each]. unfold bind at 1, add_document at 1. exec.
    destruct (N.eqb_spec (timestamp (documents s).[h]) 0) as [Habsent|Hpresent]; cbn.
    + reflexivity.
    + apply IH. inversion Hmissing as [? ? Hh|? ? Hrest]; subst; [contradiction|exact Hrest].
Qed.

Lemma add_documents_present c (hashes : list bytes32) s tr :
  Forall (present s) hashes ->
  exists s' tr',
    for_each hashes (add_document c) (s, tr) = Ok (tt, (s', tr'))
    /\ documents s' = documents s
    /\ totalCases s' = totalCases s
    /\ caseDocuments (inheritanceCases s').[c] =
         caseDocuments (inheritanceCases s).[c] ++ map (fun h => (documents s).[h]) hashes
    /\ inheritors (inheritanceCases s').[c] = inheritors (inheritanceCases s).[c]
    /\ createdAt (inheritanceCases s').[c] = createdAt (inheritanceCases s).[c].
Proof.
  revert s tr. induction hashes as [|h rest IH]; intros s tr Hall.
  - exists s, tr. cbn. rewrite app_nil_r. repeat split.
  - inversion Hall as [|? ? Hh Hrest]; subst.
    cbn [for_each]. unfold bind at 1, add_document at 1. exec.
    apply N.eqb_neq in Hh. rewrite Hh. cbn.
    match goal with |- context [for_each rest _ (?s1, ?tr1)] =>
      destruct (IH s1 tr1) as (s' & tr' & Hrun & Hdocs & Htotal & Hcopies & Hinhs & Hcreated)
    end; [exact Hrest|].
    exists s', tr'. rewrite Hrun, Hdocs, Htotal, Hcopies, Hinhs, Hcreated.
    rewrite !case_update_case_eq. cbn. rewrite <- app_assoc. repeat split.
Qed.

Lemma add_inheritors_run c (ps : list (address * uint256)) s tr :
  exists s' tr',
    for_each ps (add_inheritor c) (s, tr) = Ok (tt, (s', tr'))
    /\ documents s' = documents s
    /\ totalCases s' = totalCases s
    /\ caseDocuments (inheritanceCases s').[c] = caseDocuments (inheritanceCases s).[c]
    /\ inheritors (inheritanceCases s').[c] =
         inheritors (inheritanceCases s).[c] ++ map new_inheritor ps
    /\ createdAt (inheritanceCases s').[c] = createdAt (inheritanceCases s).[c].
Proof.
  revert s tr. induction ps as [|p rest IH]; intros s tr.
  - exists s, tr. cbn. rewrite app_nil_r. repeat split.
  - cbn [for_each]. unfold bind at 1, add_inheritor at 1. exec.
    match goal with |- context [for_each rest _ (?s1, ?tr1)] =>
      destruct (IH s1 tr1) as (s' & tr' & Hrun & Hdocs & Htotal & Hcopies & Hinhs & Hcreated)
    end.
    exists s', tr'. rewrite Hrun, Hdocs, Htotal, Hcopies, Hinhs, Hcreated.
    rewrite !case_update_case_eq. cbn. rewrite <- app_assoc. repeat split.
Qed.

Lemma nonempty_length {A} (l : list A) : l ≠ [] -> (0 <? length l)%nat = true.
Proof. destruct l; [contradiction|reflexivity]. Qed.

Lemma hundred_fits : (100 <=? MAX_UINT256) = true.
Proof. reflexivity. Qed.

Lemma createInheritanceCase_accepts st sender now caseId hashes addresses shares :
  well_formed st caseId hashes addresses shares ->
  Forall (present st) hashes ->
  totalCases st < MAX_UINT256 ->
  exists st' tr,
    run (createInheritanceCase sender now caseId hashes addresses shares) st = Ok (tt, (st', tr))
    /\ createdAt (inheritanceCases st').[caseId] = now
    /\ caseDocuments (inheritanceCases st').[caseId] =
         caseDocuments (inheritanceCases st).[caseId] ++ map (fun h => (documents st).[h]) hashes
    /\ inheritors (inheritanceCases st').[caseId] =
         inheritors (inheritanceCases st).[caseId] ++ map new_inheritor (combine addresses shares)
    /\ totalCases st' = totalCases st + 1.
Proof.
  intros (Hfresh & Hdocs & Hlen & Hinhs & Hsum) Hpresent Hroom.
  apply nonempty_length in Hdocs, Hinhs. apply Nat.eqb_eq in Hlen.
  exec. rewrite Hfresh, Hdocs, Hlen, Hinhs. cbn.
  rewrite sum_shares_run, Hsum, hundred_fits. cbn.
  match goal with |- context [for_each ?l (add_document _) (?s1, ?tr1)] =>
    destruct (add_documents_present caseId l s1 tr1)
      as (s2 & tr2 & Hrun2 & Hdocs2 & Htotal2 & Hcopies2 & Hinhs2 & Hcreated2)
  end; [exact Hpresent|].
  rewrite Hrun2. cbn.
  match goal with |- context [for_each ?l (add_inheritor _) (?s1, ?tr1)] =>
    destruct (add_inheritors_run caseId l s1 tr1)
      as (s3 & tr3 & Hrun3 & Hdocs3 & Htotal3 & Hcopies3 & Hinhs3 & Hcreated3)
  end.
  rewrite Hrun3. cbn. rewrite Htotal3, Htotal2. cbn.
  destruct (N.leb_spec (totalCases st + 1) MAX_UINT256) as [_|Hover]; [|lia].
  eexists. eexists. split; [reflexivity|]. cbn.
  rewrite Hcreated3, Hcreated2, Hcopies3, Hcopies2, Hinhs3, Hinhs2.
  rewrite !case_update_case_eq. cbn. repeat split.
Qed.

Lemma createInheritanceCase_success st sender now caseId hashes addresses shares st' tr :
  run (createInheritanceCase sender now caseId hashes addresses shares) st = Ok (tt, (st', tr)) ->
  well_formed st caseId hashes addresses shares
  /\ Forall (present st) hashes
  /\ totalCases st < MAX_UINT256.
Proof.
  intros Hrun. exec_in Hrun.
  do 4 branch Hrun. rewrite sum_shares_run in Hrun. do 2 branch Hrun.
  apply N.eqb_eq in E, E4. apply Nat.ltb_lt in E0, E2. apply Nat.eqb_eq in E1.
  assert (Hwf : well_formed st caseId hashes addresses shares).
  { repeat split; auto.
    - intros ->. cbn in E0. lia.
    - intros ->. cbn in E2. lia. }
  split; [exact Hwf|].
  destruct (decide (Forall (present st) hashes)) as [Hall|Hmissing];
    [|apply not_Forall_Exists in Hmissing; [|apply _]].
  - split; [exact Hall|].
    match type of Hrun with context [for_each ?l (add_document _) (?s1, ?tr1)] =>
      destruct (add_documents_present caseId l s1 tr1)
        as (s2 & tr2 & Hrun2 & _ & Htotal2 & _)
    end; [exact Hall|].
    rewrite Hrun2 in Hrun. cbn [fst snd] in Hrun.
    match type of Hrun with context [for_each ?l (add_inheritor _) (?s1, ?tr1)] =>
      destruct (add_inheritors_run caseId l s1 tr1)
        as (s3 & tr3 & Hrun3 & _ & Htotal3 & _)
    end.
    rewrite Hrun3 in Hrun. cbn [fst snd] in Hrun.
    rewrite Htotal3, Htotal2 in Hrun. cbn in Hrun.
    branch Hrun. apply N.leb_le in E5. lia.
  - match type of Hrun with context [for_each ?l (add_document _) (?s1, ?tr1)] =>
      rewrite (add_documents_missing caseId l s1 tr1) in Hrun
    end; [discriminate|exact Hmissing].
Qed.

Lemma total_share_new (addresses : list address) (shares : list uint256) :
  length addresses = length shares ->
  total_share (map new_inheritor (combine addresses shares)) = sum_of shares.
Proof.
  revert shares. induction addresses as [|a addresses IH]; intros [|x shares] Hlen;
    try discriminate; [reflexivity|].
  cbn. injection Hlen as Hlen. now rewrite (IH shares Hlen).
Qed.

(** A case created on an id that never held inheritors has shares
    summing to 100. *)
Lemma created_case_total_share st sender now caseId hashes addresses shares st' tr :
  inheritors (inheritanceCases st).[caseId] = [] ->
  run (createInheritanceCase sender now caseId hashes addresses shares) st = Ok (tt, (st', tr)) ->
  total_share (inheritors (inheritanceCases st').[caseId]) = 100.
Proof.
  intros Hnone Hrun.
  destruct (createInheritanceCase_success _ _ _ _ _ _ _ _ _ Hrun) as (Hwf & Hall & Hroom).
  destruct (createInheritanceCase_accepts st sender now caseId hashes addresses shares
              Hwf Hall Hroom) as (st'' & tr'' & Hrun' & _ & _ & Hinhs & _).
  rewrite Hrun in Hrun'. inversion Hrun'; subst st'' tr''.
  destruct Hwf as (_ & _ & Hlen & _ & Hsum).
  rewrite Hinhs, Hnone. cbn [app]. now rewrite total_share_new.
Qed.

(** The call once the four argument checks have passed. *)
Lemma createInheritanceCase_after_checks st sender now caseId hashes addresses shares :
  createdAt (inheritanceCases st).[caseId] = 0 ->
  hashes ≠ [] -> length addresses = length shares -> addresses ≠ [] ->
  run (createInheritanceCase sender now caseId hashes addresses shares) st =
  match sum_shares shares 0 (st, []) with
  | Ok (total, m) =>
      if total =? 100 then
        (sstore (update_case caseId (with_caseId caseId)) >>
         sstore (update_case caseId (with_createdAt now)) >>
         for_each hashes (add_document caseId) >>
         for_each (combine addresses shares) (add_inheritor caseId) >>
         let! n := gets totalCases in
         let! n' := checked_add n 1 in
         sstore (set_totalCases n') >>
         emit (InheritanceCaseCreated caseId sender now)) m
      else Err InvariantViolation
  | Err e => Err e
  end.
Proof.
  intros Hfresh Hdocs Hlen Hinhs.
  apply nonempty_length in Hdocs, Hinhs. apply Nat.eqb_eq in Hlen.
  unfold createInheritanceCase, run.
  unfold bind at 1, gets at 1. cbn [fst snd]. unfold bind at 1, require at 1.
  rewrite Hfresh. cbn [N.eqb]. unfold bind at 1, require at 1. rewrite Hdocs.
  unfold bind at 1, require at 1. rewrite Hlen.
  unfold bind at 1, require at 1. rewrite Hinhs.
  unfold bind at 1. destruct (sum_shares shares 0 (st, [])) as [[total m]|]; [|reflexivity].
  unfold bind at 1, require at 1. destruct (total =? 100); reflexivity.
Qed.

(** C7, as the contract has it: the checks are made in the order case
    exists, no documents, lengths differ, no inheritors, share sum,
    referenced documents. So a request fails with AlreadyExists on an
    existing case id; else with InvalidInput on an empty document list,
    on lists of different lengths or on an empty inheritor list; else
    with an arithmetic panic when the shares overflow uint256 and with
    InvariantViolation when they sum to anything but 100, whether or not
    the documents exist; else with NotFound when a referenced document
    is absent; and else it succeeds, recording the creation time, a copy
    of every referenced document and the inheritors. A failed request
    changes nothing. *)
Theorem createInheritanceCase_outcome (st : State) (sender now caseId : N)
    (hashes addresses shares : list N) :
  (createdAt (inheritanceCases st).[caseId] ≠ 0 ->
     run (createInheritanceCase sender now caseId hashes addresses shares) st =
       Err AlreadyExists_case)
  /\ (createdAt (inheritanceCases st).[caseId] = 0 ->
      (hashes = [] ->
         run (createInheritanceCase sender now caseId hashes addresses shares) st =
           Err InvalidInput_no_documents)
      /\ (hashes ≠ [] -> length addresses ≠ length shares ->
         run (createInheritanceCase sender now caseId hashes addresses shares) st =
           Err InvalidInput_length_mismatch)
      /\ (hashes ≠ [] -> length addresses = length shares -> addresses = [] ->
         run (createInheritanceCase sender now caseId hashes addresses shares) st =
           Err InvalidInput_no_inheritors)
      /\ (hashes ≠ [] -> length addresses = length shares -> addresses ≠ [] ->
          (MAX_UINT256 < sum_of shares ->
             run (createInheritanceCase sender now caseId hashes addresses shares) st =
               Err (Panic ARITHMETIC_OVERFLOW))
          /\ (sum_of shares <= MAX_UINT256 -> sum_of shares ≠ 100 ->
             run (createInheritanceCase sender now caseId hashes addresses shares) st =
               Err InvariantViolation)
          /\ (sum_of shares = 100 ->
              Exists (fun h => timestamp (documents st).[h] = 0) hashes ->
             run (createInheritanceCase sender now caseId hashes addresses shares) st =
               Err NotFound_referenced)
          /\ (sum_of shares = 100 ->
              Forall (fun h => timestamp (documents st).[h] ≠ 0) hashes ->
              totalCases st < MAX_UINT256 ->
             exists st' tr,
               run (createInheritanceCase sender now caseId hashes addresses shares) st =
                 Ok (tt, (st', tr))
               /\ createdAt (inheritanceCases st').[caseId] = now
               /\ caseDocuments (inheritanceCases st').[caseId] =
                    caseDocuments (inheritanceCases st).[caseId] ++
                    map (fun h => (documents st).[h]) hashes
               /\ inheritors (inheritanceCases st').[caseId] =
                    inheritors (inheritanceCases st).[caseId] ++
                    map new_inheritor (combine addresses shares)
               /\ totalCases st' = totalCases st + 1)))
  /\ (forall e,
        run (createInheritanceCase sender now caseId hashes addresses shares) st = Err e ->
        transact (createInheritanceCase sender now caseId hashes addresses shares) st = st).
Proof.
  split; [|split].
  - intros Hexists. apply N.eqb_neq in Hexists. exec. now rewrite Hexists.
  - intros Hfresh. split; [|split; [|split]].
    + intros ->. exec. now rewrite Hfresh.
    + intros Hdocs Hlen. apply nonempty_length in Hdocs. apply Nat.eqb_neq in Hlen.
      exec. rewrite Hfresh, Hdocs. cbn. now rewrite Hlen.
    + intros Hdocs Hlen ->. apply nonempty_length in Hdocs. symmetry in Hlen.
      apply length_zero_iff_nil in Hlen. subst shares.
      exec. rewrite Hfresh, Hdocs. reflexivity.
    + intros Hdocs Hlen Hinhs.
      rewrite createInheritanceCase_after_checks by assumption.
      rewrite sum_shares_run.
      split; [|split; [|split]].
      * intros Hover. apply N.leb_gt in Hover. now rewrite Hover.
      * intros Hfits Hsum. apply N.leb_le in Hfits. apply N.eqb_neq in Hsum.
        now rewrite Hfits, Hsum.
      * intros Hsum Hmissing. rewrite Hsum, hundred_fits. cbn [N.eqb Pos.eqb].
        unfold bind at 1, sstore at 1. cbn [fst snd]. unfold bind at 1, sstore at 1.
        cbn [fst snd]. unfold bind at 1.
        rewrite add_documents_missing; [reflexivity|].
        eapply Exists_impl; [exact Hmissing|]. unfold present. cbn. intros h Hh Hp. now apply Hp.
      * intros Hsum Hall Hroom.
        destruct (createInheritanceCase_accepts st sender now caseId hashes addresses shares)
          as (st' & tr & Hrun & Hprops); auto.
        { repeat split; auto. }
        exists st', tr. split; [|exact Hprops].
        rewrite <- Hrun. symmetry.
        rewrite createInheritanceCase_after_checks by assumption.
        now rewrite sum_shares_run, Hsum, hundred_fits.
  - intros e Hrun. unfold transact. now rewrite Hrun.
Qed.

(** *** Which verification state distributeAssets reads *)

Lemma forallb_false {A} (f : A -> bool) (l : list A) :
  forallb f l = false <-> exists x, In x l /\ f x = false.
Proof.
  induction l as [|x l IH]; cbn.
  - split; [discriminate|]. intros (x & Hx & _). destruct Hx.
  - rewrite andb_false_iff, IH. split.
    + intros [Hx|(y & Hy & Hfy)]; eauto.
    + intros (y & [<-|Hy] & Hfy); eauto.
Qed.

Lemma distributeAssets_verification now caseId s :
  createdAt (inheritanceCases s).[caseId] ≠ 0 ->
  _status s = false ->
  isDistributed (inheritanceCases s).[caseId] = false ->
  0 < totalAmount (inheritanceCases s).[caseId] ->
  run (distributeAssets now caseId) s = Err NotAllVerified
  <-> forallb isVerified (caseDocuments (inheritanceCases s).[caseId]) = false.
Proof.
  intros Hexists Hfree Hclear Hfunded.
  apply N.eqb_neq in Hexists. apply N.ltb_lt in Hfunded.
  unfold distributeAssets, caseExists, nonReentrant.
  unfold run, bind, gets, require, sstore, ret. cbn [fst snd].
  rewrite Hexists. cbn. rewrite Hfree. cbn. rewrite Hclear. cbn. rewrite Hfunded. cbn.
  rewrite verified_loop.
  destruct (forallb isVerified _); cbn; [|tauto].
  split; [|discriminate]. intros Hrun.
  match type of Hrun with
  | match ?loop with _ => _ end = _ => destruct loop as [[[] [last tr1]]|e] eqn:Hloop
  end; [discriminate|].
  apply payout_loop_failure in Hloop as [code ->]. discriminate.
Qed.

(** What distributeAssets reads instead of the registry: the flags of the
    document copies taken when the case was created. For a case created
    on a fresh id, in whatever state later transactions leave the
    contract with the case funded and not yet distributed,
    distributeAssets fails with NotAllVerified exactly when some
    referenced document was still unverified in the registry at the
    time of creation; verifying it afterwards changes nothing. *)
Lemma distributeAssets_reads_snapshot (st0 st1 : State) (tr1 : Trace)
    (sender now caseId : N) (hashes addresses shares : list N) :
  reachable keccak256 st0 ->
  now ≠ 0 ->
  caseDocuments (inheritanceCases st0).[caseId] = [] ->
  run (createInheritanceCase sender now caseId hashes addresses shares) st0 =
    Ok (tt, (st1, tr1)) ->
  forall txs now',
    isDistributed (inheritanceCases (apply_all keccak256 txs st1)).[caseId] = false ->
    0 < totalAmount (inheritanceCases (apply_all keccak256 txs st1)).[caseId] ->
    (run (distributeAssets now' caseId) (apply_all keccak256 txs st1) = Err NotAllVerified
     <-> exists h, In h hashes /\ isVerified (documents st0).[h] = false).
Proof.
  intros Hreach Hnow Hempty Hcreate txs now' Hclear Hfunded.
  set (tx := {| msg_sender := sender; block_timestamp := now;
                call := CreateInheritanceCase caseId hashes addresses shares |}).
  assert (Hst1 : st1 = apply keccak256 tx st0).
  { unfold apply, transact, dispatch, tx. cbn [call msg_sender block_timestamp].
    now rewrite Hcreate. }
  assert (Hfree : _status (apply_all keccak256 txs st1) = false).
  { apply reachable_lock. apply reachable_apply_all. rewrite Hst1. now constructor. }
  destruct (createInheritanceCase_success _ _ _ _ _ _ _ _ _ Hcreate) as (Hwf & Hall & Hroom).
  destruct (createInheritanceCase_accepts st0 sender now caseId hashes addresses shares
              Hwf Hall Hroom) as (st' & tr' & Hrun & Hcreated & Hcopies & _).
  rewrite Hcreate in Hrun. inversion Hrun; subst st' tr'. clear Hrun.
  rewrite Hempty in Hcopies. cbn [app] in Hcopies.
  assert (Hexists : createdAt (inheritanceCases st1).[caseId] ≠ 0) by congruence.
  destruct (apply_all_stable caseId txs st1 Hexists) as (Hlater_created & Hlater_copies & _).
  rewrite distributeAssets_verification; [|congruence|assumption..].
  rewrite Hlater_copies, Hcopies, forallb_false. split.
  - intros (d & Hd & Hflag). apply in_map_iff in Hd as (h & <- & Hh). eauto.
  - intros (h & Hh & Hflag). exists (documents st0).[h]. split; [|exact Hflag].
    apply in_map_iff. eauto.
Qed.
End Frame.
End LedgerFacts.

(** ** The fixed-split variant *)

Module FixedSplitFacts.
Import SimpleInheritance.

(** Symbolic execution, as for the ledger. *)
Ltac exec :=
  cbv beta iota zeta delta
    [run transact bind ret throw require gets sstore emit modify_balance trace_call
     checked_add checked_sub checked_mul onlyBank send
     registerDocument _distributeInheritance _checkAndDistributeInheritance
     verifyDocument deposit receive withdraw dispatch apply];
  cbn [fst snd].

Ltac exec_in H :=
  cbv beta iota zeta delta
    [run transact bind ret throw require gets sstore emit modify_balance trace_call
     checked_add checked_sub checked_mul onlyBank send
     registerDocument _distributeInheritance _checkAndDistributeInheritance
     verifyDocument deposit receive withdraw dispatch apply] in H;
  cbn [fst snd] in H.

Ltac branch H :=
  match type of H with
  | context [if ?b then _ else _] =>
      let E := fresh "E" in
      destruct b eqn:E; cbn [fst snd] in H; try discriminate H
  end.

Lemma hasVerifiedDocument_found (docs : gmap N Document) (hashes : list bytes32) h :
  In h hashes -> isVerified docs.[h] = true -> hasVerifiedDocument docs hashes = true.
Proof.
  intros Hin Hv. induction hashes as [|h' rest IH]; [destruct Hin|].
  cbn [hasVerifiedDocument]. destruct (isVerified docs.[h']) eqn:Hh'; [reflexivity|].
  destruct Hin as [->|Hin]; [congruence|auto].
Qed.

(** *** What holds in every state the contract can be in *)

Section Reachability.
Variable keccak256 : string -> bytes32.

Lemma constructor_invariant overseas domestic bank s :
  constructor overseas domestic bank = Ok s -> invariant s.
Proof.
  unfold constructor. intros Hinit.
  destruct (overseas =? 0); [discriminate|]. destruct (domestic =? 0); [discriminate|].
  destruct (bank =? 0); [discriminate|].
  destruct (N.eqb_spec overseas domestic) as [|Hne]; [discriminate|].
  inversion Hinit; subst. clear Hinit.
  split; cbn; auto.
Qed.

Lemma registerDocument_invariant sender now content type s tr a s' tr' :
  registerDocument keccak256 sender now content type (s, tr) = Ok (a, (s', tr')) ->
  invariant s -> invariant s'.
Proof.
  intros Hrun [Hw Hidx Hver Hpend Hfirst]. exec_in Hrun.
  branch Hrun. branch Hrun. inversion Hrun; subst a s' tr'. clear Hrun.
  apply N.eqb_eq in E.
  assert (Hold : forall h, isVerified (documents s).[h] = isVerified
            (<[keccak256 content := {| documentHash := keccak256 content; owner := sender;
                 timestamp := now; isVerified := false; documentType := type |}]>
               (documents s)).[h] \/
            (h = keccak256 content /\ isVerified (documents s).[h] = false)).
  { intros h. rewrite read_insert. case_decide as Hh; [|now left].
    subst h. right. split; [reflexivity|].
    destruct (isVerified (documents s).[keccak256 content]) eqn:Hv; [|reflexivity].
    now apply Hver in Hv. }
  split; cbn.
  - exact Hw.
  - intros h. rewrite read_insert. case_decide as Hh.
    + subst h. intros _. apply in_or_app. right. now left.
    + intros Hd. apply in_or_app. left. auto.
  - intros h. rewrite read_insert. case_decide as Hh; cbn; [discriminate|auto].
  - intros Hflag. destruct (Hpend Hflag) as (Hnone & Ho & Hd & Hb).
    repeat split; auto. intros h. rewrite read_insert. case_decide; cbn; auto.
  - intros Hnone. apply Hfirst. intros h.
    destruct (Hold h) as [->|[_ Hv]]; auto.
Qed.

(** A successful verification marks the document and leaves the
    distribution done, whether by this call or by an earlier one. *)
Lemma verifyDocument_success sender now h s tr a s' tr' :
  verifyDocument sender now h (s, tr) = Ok (a, (s', tr')) ->
  invariant s ->
  sender = bankAddress s
  /\ documentHash (documents s).[h] ≠ 0
  /\ documents s' = <[h := with_isVerified true (documents s).[h]]> (documents s)
  /\ allDocumentHashes s' = allDocumentHashes s
  /\ wallet (overseasInheritor s') = wallet (overseasInheritor s)
  /\ wallet (domesticInheritor s') = wallet (domesticInheritor s)
  /\ isInheritanceDistributed s' = true
  /\ (isInheritanceDistributed s = true -> balances s' = balances s).
Proof.
  intros Hrun [Hw Hidx Hver Hpend Hfirst]. exec_in Hrun.
  do 3 branch Hrun.
  apply N.eqb_eq in E. apply negb_true_iff in E0, E1. apply N.eqb_neq in E0.
  cbn in Hrun.
  destruct (isInheritanceDistributed s) eqn:Hflag; cbn in Hrun.
  - inversion Hrun; subst. cbn. repeat split; auto.
  - rewrite (hasVerifiedDocument_found _ _ h) in Hrun;
      [|auto|now rewrite read_insert_eq].
    cbn in Hrun.
    repeat (branch Hrun; cbn in Hrun); inversion Hrun; subst; cbn; repeat split; auto;
      discriminate.
Qed.

Lemma verifyDocument_invariant sender now h s tr a s' tr' :
  verifyDocument sender now h (s, tr) = Ok (a, (s', tr')) ->
  invariant s -> invariant s'.
Proof.
  intros Hrun Hinv.
  destruct (verifyDocument_success _ _ _ _ _ _ _ _ Hrun Hinv)
    as (_ & Hexists & Hdocs & Hlist & Ho & Hd & Hflag & _).
  destruct Hinv as [Hw Hidx Hver Hpend Hfirst].
  split.
  - congruence.
  - intros h'. rewrite Hdocs, Hlist, read_insert.
    case_decide as Hh; cbn; auto; subst h'; auto.
  - intros h'. rewrite Hdocs, read_insert.
    case_decide as Hh; cbn; auto; subst h'; auto.
  - congruence.
  - intros Hnone. specialize (Hnone h). rewrite Hdocs, read_insert_eq in Hnone.
    discriminate.
Qed.

Lemma withdraw_invariant sender now accepts s tr a s' tr' :
  withdraw sender now accepts (s, tr) = Ok (a, (s', tr')) ->
  invariant s -> invariant s'.
Proof.
  intros Hrun [Hw Hidx Hver Hpend Hfirst]. exec_in Hrun.
  do 3 branch Hrun. inversion Hrun; subst. clear Hrun.
  split; cbn; auto.
  intros Hflag. destruct (Hpend Hflag) as (Hnone & Ho & Hd & Hb).
  repeat split; auto. intros a. rewrite read_insert. case_decide; auto.
Qed.

Lemma dispatch_invariant tx s tr a s' tr' :
  dispatch keccak256 tx (s, tr) = Ok (a, (s', tr')) -> invariant s -> invariant s'.
Proof.
  unfold dispatch. destruct (call tx); intros Hrun Hinv.
  - unfold bind in Hrun.
    destruct (registerDocument _ _ _ _ _ _) as [[r [s1 tr1]]|] eqn:Hreg; [|discriminate].
    inversion Hrun; subst. eapply registerDocument_invariant; eauto.
  - eapply verifyDocument_invariant; eauto.
  - exec_in Hrun. branch Hrun. inversion Hrun; subst.
    destruct Hinv; split; cbn; auto.
  - exec_in Hrun. inversion Hrun; subst.
    destruct Hinv; split; cbn; auto.
  - eapply withdraw_invariant; eauto.
Qed.

Lemma apply_invariant tx s : invariant s -> invariant (apply keccak256 tx s).
Proof.
  intros Hinv. unfold apply, transact, run.
  destruct (dispatch keccak256 tx (s, [])) as [[a [s' tr']]|] eqn:Hrun; [|exact Hinv].
  cbn [fst]. eapply dispatch_invariant; eauto.
Qed.

Lemma reachable_invariant s : reachable keccak256 s -> invariant s.
Proof.
  induction 1 as [overseas domestic bank s Hinit|tx s _ IH].
  - eapply constructor_invariant; eauto.
  - now apply apply_invariant.
Qed.

Lemma reachable_apply_all_fixed txs s :
  reachable keccak256 s -> reachable keccak256 (apply_all keccak256 txs s).
Proof.
  revert s. induction txs as [|tx txs IH]; intros s Hs; cbn; [exact Hs|].
  apply IH. now constructor.
Qed.

(** Once the distribution is done it stays done, and no transaction
    adds to any balance. *)
Lemma distributed_forever tx s :
  reachable keccak256 s ->
  isInheritanceDistributed s = true ->
  isInheritanceDistributed (apply keccak256 tx s) = true
  /\ forall a, (balances (apply keccak256 tx s)).[a] <= (balances s).[a].
Proof.
  intros Hreach Hflag. pose proof (reachable_invariant _ Hreach) as Hinv.
  unfold apply, transact, run.
  destruct (dispatch keccak256 tx (s, [])) as [[r [s' tr']]|] eqn:Hrun; cbn [fst];
    [|split; [exact Hflag|intros; lia]].
  unfold dispatch in Hrun. destruct (call tx).
  - exec_in Hrun. do 2 branch Hrun. inversion Hrun; subst. cbn.
    split; [exact Hflag|intros; lia].
  - destruct (verifyDocument_success _ _ _ _ _ _ _ _ Hrun Hinv)
      as (_ & _ & _ & _ & _ & _ & Hflag' & Hbal).
    split; [exact Hflag'|]. intros a. rewrite (Hbal Hflag). lia.
  - exec_in Hrun. branch Hrun. inversion Hrun; subst. cbn.
    split; [exact Hflag|intros; lia].
  - exec_in Hrun. inversion Hrun; subst. cbn.
    split; [exact Hflag|intros; lia].
  - exec_in Hrun. do 3 branch Hrun. inversion Hrun; subst. cbn.
    split; [exact Hflag|]. intros a. rewrite read_insert. case_decide; lia.
Qed.

Lemma distributed_later txs s :
  reachable keccak256 s ->
  isInheritanceDistributed s = true ->
  isInheritanceDistributed (apply_all keccak256 txs s) = true.
Proof.
  revert s. induction txs as [|tx txs IH]; intros s Hreach Hflag; cbn; [exact Hflag|].
  apply IH; [now constructor|]. now apply distributed_forever.
Qed.

(** *** Verification and the pool *)

Lemma share_fits : (0 + SHARE_AMOUNT <=? MAX_UINT256) = true.
Proof. reflexivity. Qed.

(** C10: while the distribution has not happened and the contract holds
    less than 10,000,000,000, a verification by the bank of an existing,
    unverified document fails on the pool check of the distribution it
    triggers and leaves the state as it was; in such a state no document
    is verified. *)
Theorem verifyDocument_needs_funded_pool (st : State) (now h : N) :
  reachable keccak256 st ->
  isInheritanceDistributed st = false ->
  this_balance st < 10000000000 ->
  documentHash (documents st).[h] ≠ 0 ->
  isVerified (documents st).[h] = false ->
  run (verifyDocument (bankAddress st) now h) st = Err (Revert "Insufficient balance")
  /\ transact (verifyDocument (bankAddress st) now h) st = st
  /\ forall h', isVerified (documents st).[h'] = false.
Proof.
  intros Hreach Hflag Hpool Hexists Hunverified.
  destruct (reachable_invariant _ Hreach) as [Hw Hidx Hver Hpend Hfirst].
  assert (Hrun : run (verifyDocument (bankAddress st) now h) st =
                 Err (Revert "Insufficient balance")).
  { apply N.eqb_neq in Hexists. apply N.leb_gt in Hpool.
    exec. rewrite N.eqb_refl. cbn. rewrite Hexists. cbn. rewrite Hunverified. cbn.
    rewrite Hflag.
    rewrite (hasVerifiedDocument_found _ _ h);
      [|cbn; apply Hidx; now apply N.eqb_neq|cbn; now rewrite read_insert_eq].
    cbn. rewrite Hflag. cbn. now rewrite Hpool. }
  split; [exact Hrun|]. split; [unfold transact; now rewrite Hrun|].
  now destruct (Hpend Hflag).
Qed.

(** C4: with at least 10,000,000,000 in the pool, the first verification
    of a registered document by the bank succeeds and credits exactly
    5,000,000,000 to the overseas and to the domestic inheritor and to
    nobody else, and marks the distribution done; from then on it stays
    done, no later transaction adds to any balance, and a later
    verifyDocument in particular leaves all balances as they are. *)
Theorem first_verification_distributes (st : State) (now h : N) :
  reachable keccak256 st ->
  (forall h', isVerified (documents st).[h'] = false) ->
  documentHash (documents st).[h] ≠ 0 ->
  10000000000 <= this_balance st ->
  exists st' tr,
    run (verifyDocument (bankAddress st) now h) st = Ok (tt, (st', tr))
    /\ (balances st').[wallet (overseasInheritor st)] =
         (balances st).[wallet (overseasInheritor st)] + 5000000000
    /\ (balances st').[wallet (domesticInheritor st)] =
         (balances st).[wallet (domesticInheritor st)] + 5000000000
    /\ (forall a, a ≠ wallet (overseasInheritor st) -> a ≠ wallet (domesticInheritor st) ->
          (balances st').[a] = (balances st).[a])
    /\ isInheritanceDistributed st' = true
    /\ (forall txs,
          isInheritanceDistributed (apply_all keccak256 txs st') = true
          /\ (forall tx a,
                (balances (apply keccak256 tx (apply_all keccak256 txs st'))).[a] <=
                (balances (apply_all keccak256 txs st')).[a])
          /\ (forall sender now' h' st'' tr'',
                run (verifyDocument sender now' h') (apply_all keccak256 txs st') =
                  Ok (tt, (st'', tr'')) ->
                balances st'' = balances (apply_all keccak256 txs st'))).
Proof.
  intros Hreach Hnone Hexists Hpool.
  destruct (reachable_invariant _ Hreach) as [Hw Hidx Hver Hpend Hfirst].
  pose proof (Hfirst Hnone) as Hflag.
  destruct (Hpend Hflag) as (_ & Hoverseas & Hdomestic & Hzero).
  set (tx := {| msg_sender := bankAddress st; block_timestamp := now;
                call := VerifyDocument h |}).
  assert (Hrun : exists st' tr,
    run (verifyDocument (bankAddress st) now h) st = Ok (tt, (st', tr))
    /\ (balances st').[wallet (overseasInheritor st)] =
         (balances st).[wallet (overseasInheritor st)] + 5000000000
    /\ (balances st').[wallet (domesticInheritor st)] =
         (balances st).[wallet (domesticInheritor st)] + 5000000000
    /\ (forall a, a ≠ wallet (overseasInheritor st) -> a ≠ wallet (domesticInheritor st) ->
          (balances st').[a] = (balances st).[a])
    /\ isInheritanceDistributed st' = true).
  { pose proof (Hidx h Hexists) as Hin.
    apply N.eqb_neq in Hexists. apply N.leb_le in Hpool.
    eexists. eexists. exec. rewrite N.eqb_refl. cbn. rewrite Hexists. cbn.
    rewrite (Hnone h). cbn. rewrite Hflag.
    rewrite (hasVerifiedDocument_found _ _ h);
      [|exact Hin|cbn; now rewrite read_insert_eq].
    cbn. rewrite Hflag. cbn. rewrite Hpool. cbn. rewrite Hoverseas. cbn.
    rewrite (Hzero _), share_fits. cbn.
    rewrite Hdomestic. cbn. rewrite read_insert_ne by exact Hw.
    rewrite (Hzero _), share_fits. cbn.
    split; [reflexivity|]. cbn.
    split; [rewrite read_insert_ne by congruence; now rewrite read_insert_eq|].
    split; [now rewrite read_insert_eq|].
    split; [|reflexivity].
    intros a Ho Hd. now rewrite !read_insert_ne by congruence. }
  destruct Hrun as (st' & tr & Hrun & Ho & Hd & Hrest & Hflag').
  exists st', tr. do 5 (split; [assumption|]).
  assert (Hst' : st' = apply keccak256 tx st).
  { unfold apply, transact, dispatch, tx. cbn [call msg_sender block_timestamp].
    now rewrite Hrun. }
  assert (Hreach' : reachable keccak256 st') by (rewrite Hst'; now constructor).
  intros txs.
  pose proof (reachable_apply_all_fixed txs _ Hreach') as Hlater.
  pose proof (distributed_later txs _ Hreach' Hflag') as Hlater_flag.
  split; [exact Hlater_flag|]. split.
  - intros tx' a. now apply distributed_forever.
  - intros sender now' h' st'' tr'' Hverify.
    destruct (verifyDocument_success _ _ _ _ _ _ _ _ Hverify (reachable_invariant _ Hlater))
      as (_ & _ & _ & _ & _ & _ & _ & Hbal).
    now apply Hbal.
Qed.
End Reachability.
End FixedSplitFacts.

(** ** The ledger's registry and funds *)

Module LedgerRegistry.
Import InheritanceAutomation LedgerFacts.

(** *** Sums over mappings *)








(** *** What the calls leave alone *)

Lemma document_kept_refl h s : document_kept h s s.
Proof. intros _. auto. Qed.

Lemma document_kept_trans h s1 s2 s3 :
  document_kept h s1 s2 -> document_kept h s2 s3 -> document_kept h s1 s3.
Proof.
  unfold document_kept, present. intros H12 H23 Hp.
  destruct (H12 Hp) as (Hh & Ho & Ht & Hy & Hv).
  destruct H23 as (Hh' & Ho' & Ht' & Hy' & Hv'); [congruence|].
  repeat split; try congruence. auto.
Qed.

Lemma unverified_kept_refl h s : unverified_kept h s s.
Proof. intros Hv. exact Hv. Qed.

Lemma unverified_kept_trans h s1 s2 s3 :
  unverified_kept h s1 s2 -> unverified_kept h s2 s3 -> unverified_kept h s1 s3.
Proof. unfold unverified_kept. auto. Qed.

Lemma bank_same_refl s : bank_same s s.
Proof. reflexivity. Qed.

Lemma bank_same_trans s1 s2 s3 : bank_same s1 s2 -> bank_same s2 s3 -> bank_same s1 s3.
Proof. unfold bank_same. congruence. Qed.

Lemma ether_same_refl s : ether_same s s.
Proof. reflexivity. Qed.

Lemma ether_same_trans s1 s2 s3 : ether_same s1 s2 -> ether_same s2 s3 -> ether_same s1 s3.
Proof. unfold ether_same. congruence. Qed.

Lemma funds_same_refl s : funds_same s s.
Proof. split; reflexivity. Qed.

Lemma funds_same_trans s1 s2 s3 : funds_same s1 s2 -> funds_same s2 s3 -> funds_same s1 s3.
Proof. unfold funds_same. intros [] []. split; congruence. Qed.

Lemma index_same_refl s : index_same s s.
Proof. repeat split. Qed.

Lemma index_same_trans s1 s2 s3 : index_same s1 s2 -> index_same s2 s3 -> index_same s1 s3.
Proof.
  intros (Hd & Hu & Hl & Hn) (Hd' & Hu' & Hl' & Hn').
  split; [|repeat split; congruence].
  intros h. destruct (Hd h) as (? & ? & ?), (Hd' h) as (? & ? & ?).
  repeat split; congruence.
Qed.

#[global] Hint Resolve document_kept_refl document_kept_trans unverified_kept_refl
  unverified_kept_trans bank_same_refl bank_same_trans ether_same_refl ether_same_trans
  funds_same_refl funds_same_trans index_same_refl index_same_trans : preserve.

(** Settles what one write does to the registry or to the funds. *)
Ltac entry_ok :=
  unfold document_kept, unverified_kept, bank_same, ether_same, funds_same, index_same,
    present, update_inheritor, update_document, update_case;
  cbn -[encodePacked_uint256]; repeat (intros; split); intros; rewrite ?read_insert;
  repeat case_decide; subst; cbn -[encodePacked_uint256]; try tauto; try congruence; auto.

(** Splits a goal on a whole call into its writes and settles them. *)
Ltac frame :=
  unfold registerDocument, encryptAndSendToBank, decryptAndVerifyDocument, verifyDocument,
    createInheritanceCase, add_document, add_inheritor, distributeAssets, distribute_to,
    require_verified, deposit, withdraw, documentExists, caseExists, onlyBank,
    nonReentrant, send;
  repeat preserve_step; try entry_ok.

Section Registry.
Variable keccak256 : string -> bytes32.

Lemma dispatch_bank_same tx : preserves bank_same (dispatch keccak256 tx).
Proof. unfold dispatch. destruct (call tx); frame. Qed.

Lemma apply_bank_same tx s : bankAddress (apply keccak256 tx s) = bankAddress s.
Proof.
  unfold apply. apply (transact_preserves bank_same); [apply bank_same_refl|].
  apply dispatch_bank_same.
Qed.

Lemma apply_all_bank_same txs s : bankAddress (apply_all keccak256 txs s) = bankAddress s.
Proof.
  revert s. induction txs as [|tx txs IH]; intros s; cbn; [reflexivity|].
  etransitivity; [apply IH|apply apply_bank_same].
Qed.

(** A registration that succeeds found no document under the hash. *)
Lemma registerDocument_runs_on_absent sender now content type s tr a s' tr' :
  registerDocument keccak256 sender now content type (s, tr) = Ok (a, (s', tr')) ->
  timestamp (documents s).[keccak256 content] = 0.
Proof. intros Hrun. exec_in Hrun. branch Hrun. now apply N.eqb_eq. Qed.

Lemma registerDocument_document_kept h sender now content type :
  preserves (document_kept h) (registerDocument keccak256 sender now content type).
Proof.
  destruct (decide (h = keccak256 content)) as [->|Hne]; [|frame].
  intros s tr a s' tr' Hrun.
  pose proof (registerDocument_runs_on_absent _ _ _ _ _ _ _ _ _ Hrun) as Habsent.
  assert (Hany : preserves (fun _ _ : State => True)
            (registerDocument keccak256 sender now content type)).
  { unfold registerDocument. repeat preserve_step; auto. }
  destruct (Hany _ _ _ _ _ Hrun) as (_ & new & -> & _).
  split; [intros Hp; contradiction|]. exists new. split; [reflexivity|].
  intros x _ Hp. contradiction.
Qed.

Lemma dispatch_document_kept h tx : preserves (document_kept h) (dispatch keccak256 tx).
Proof.
  unfold dispatch. destruct (call tx); try solve [frame].
  apply preserves_bind; [eauto with preserve| |intros ?; eauto with preserve].
  apply registerDocument_document_kept.
Qed.

Lemma apply_document_kept h tx s : document_kept h s (apply keccak256 tx s).
Proof.
  unfold apply. apply (transact_preserves (document_kept h));
    [apply document_kept_refl | apply dispatch_document_kept].
Qed.

Lemma apply_all_document_kept h txs s : document_kept h s (apply_all keccak256 txs s).
Proof.
  revert s. induction txs as [|tx txs IH]; intros s; cbn.
  - apply document_kept_refl.
  - eapply document_kept_trans; [apply apply_document_kept | apply IH].
Qed.

Lemma dispatch_unverified_kept h tx :
  (forall h', call tx = VerifyDocument h' -> h' ≠ h) ->
  preserves (unverified_kept h) (dispatch keccak256 tx).
Proof.
  unfold dispatch. destruct (call tx) as [| | |h'| | | |]; intros Hother;
    try specialize (Hother h' eq_refl); frame.
Qed.

Lemma dispatch_index_same tx :
  (forall content type, call tx ≠ RegisterDocument content type) ->
  preserves index_same (dispatch keccak256 tx).
Proof.
  unfold dispatch. destruct (call tx) as [content type| | | | | | |]; intros Hother;
    [now destruct (Hother content type)|frame..].
Qed.

Lemma dispatch_funds_same tx :
  match call tx with
  | DistributeAssets _ | Deposit _ _ | Withdraw _ _ => False
  | _ => True
  end ->
  preserves funds_same (dispatch keccak256 tx).
Proof.
  unfold dispatch. destruct (call tx); intros Hquiet; try destruct Hquiet; frame.
Qed.

Lemma distributeAssets_ether_same now caseId :
  preserves ether_same (distributeAssets now caseId).
Proof. frame. Qed.

(** *** The bookkeeping of the registry *)

Lemma index_same_registry s s' : index_same s s' -> registry s -> registry s'.
Proof.
  intros (Hd & Hu & Hl & Hn) [Hcount Hkeyed Hindexed Howned].
  assert (Hp : forall h, present s' h -> present s h).
  { unfold present. intros h. destruct (Hd h) as (-> & _). auto. }
  split.
  - congruence.
  - intros h Hh. destruct (Hd h) as (_ & -> & _). auto.
  - intros h Hh. rewrite Hl. auto.
  - intros h Hh. destruct (Hd h) as (_ & _ & ->). rewrite Hu. auto.
Qed.

Lemma registerDocument_registry sender now content type s tr a s' tr' :
  registerDocument keccak256 sender now content type (s, tr) = Ok (a, (s', tr')) ->
  registry s -> registry s'.
Proof.
  intros Hrun [Hcount Hkeyed Hindexed Howned]. exec_in Hrun.
  do 2 branch Hrun. inversion Hrun; subst a s' tr'. clear Hrun.
  split; unfold present; cbn.
  - rewrite Hcount, length_app. cbn. lia.
  - intros h. rewrite read_insert. case_decide as Hh; cbn; auto.
  - intros h. rewrite read_insert. case_decide as Hh; cbn.
    + intros _. apply in_or_app. right. now left.
    + intros Hp. apply in_or_app. left. auto.
  - intros h. rewrite read_insert. case_decide as Hh; cbn.
    + intros _. rewrite read_insert_eq. apply in_or_app. right. now left.
    + intros Hp. rewrite read_insert. case_decide as Ho.
      * apply in_or_app. left. rewrite Ho. auto.
      * auto.
Qed.

Lemma dispatch_registry tx s tr a s' tr' :
  dispatch keccak256 tx (s, tr) = Ok (a, (s', tr')) -> registry s -> registry s'.
Proof.
  intros Hrun Hreg. destruct (call tx) as [content type| | | | | | |] eqn:Hcall.
  - unfold dispatch in Hrun. rewrite Hcall in Hrun. unfold bind in Hrun.
    destruct (registerDocument _ _ _ _ _ _) as [[r [s1 tr1]]|] eqn:Hregister; [|discriminate].
    inversion Hrun; subst. eapply registerDocument_registry; eauto.
  - apply (index_same_registry s); [|exact Hreg].
    refine (proj1 (dispatch_index_same tx _ _ _ _ _ _ Hrun)). rewrite Hcall. discriminate.
  - apply (index_same_registry s); [|exact Hreg].
    refine (proj1 (dispatch_index_same tx _ _ _ _ _ _ Hrun)). rewrite Hcall. discriminate.
  - apply (index_same_registry s); [|exact Hreg].
    refine (proj1 (dispatch_index_same tx _ _ _ _ _ _ Hrun)). rewrite Hcall. discriminate.
  - apply (index_same_registry s); [|exact Hreg].
    refine (proj1 (dispatch_index_same tx _ _ _ _ _ _ Hrun)). rewrite Hcall. discriminate.
  - apply (index_same_registry s); [|exact Hreg].
    refine (proj1 (dispatch_index_same tx _ _ _ _ _ _ Hrun)). rewrite Hcall. discriminate.
  - apply (index_same_registry s); [|exact Hreg].
    refine (proj1 (dispatch_index_same tx _ _ _ _ _ _ Hrun)). rewrite Hcall. discriminate.
  - apply (index_same_registry s); [|exact Hreg].
    refine (proj1 (dispatch_index_same tx _ _ _ _ _ _ Hrun)). rewrite Hcall. discriminate.
Qed.

Lemma apply_registry tx s : registry s -> registry (apply keccak256 tx s).
Proof.
  intros Hreg. unfold apply, transact, run.
  destruct (dispatch keccak256 tx (s, [])) as [[a [s' tr']]|] eqn:Hrun; [|exact Hreg].
  cbn [fst]. eapply dispatch_registry; eauto.
Qed.

Lemma reachable_registry s : reachable keccak256 s -> registry s.
Proof.
  induction 1 as [bank s Hinit|tx s _ IH]; [|now apply apply_registry].
  unfold constructor in Hinit. destruct (bank =? 0); inversion Hinit.
  split; unfold present; cbn; try reflexivity; intros h; rewrite read_empty; cbn;
    contradiction.
Qed.

Lemma getDocumentByIndex_at s (i : nat) h :
  registry s ->
  allDocumentHashes s !! i = Some h ->
  N.of_nat i < totalDocuments s
  /\ run (getDocumentByIndex (N.of_nat i)) s = Ok ((documents s).[h], (s, [])).
Proof.
  intros [Hcount _ _ _] Hi.
  assert (Hlt : N.of_nat i < totalDocuments s).
  { rewrite Hcount. apply lookup_lt_Some in Hi. lia. }
  split; [exact Hlt|]. apply N.ltb_lt in Hlt.
  unfold getDocumentByIndex. exec. rewrite Hlt. cbn. rewrite Nat2N.id, Hi. reflexivity.
Qed.

(** What a verification that succeeds went through. *)
Lemma verifyDocument_passed sender now h s tr a s' tr' :
  verifyDocument sender now h (s, tr) = Ok (a, (s', tr')) ->
  present s h
  /\ sender = bankAddress s
  /\ isVerified (documents s).[h] = false
  /\ s' = update_document h (with_isVerified true) s.
Proof.
  intros Hrun. exec_in Hrun. do 3 branch Hrun. inversion Hrun; subst. clear Hrun.
  apply negb_true_iff in E, E1. apply N.eqb_neq in E. apply N.eqb_eq in E0.
  repeat split; auto.
Qed.

(** *** Strings *)

Lemma length_append (s t : string) :
  String.length (String.append s t) = (String.length s + String.length t)%nat.
Proof. induction s as [|c s IH]; simpl; [reflexivity|]. now rewrite IH. Qed.

Lemma length_be_bytes k n : String.length (be_bytes k n) = k.
Proof.
  revert n. induction k as [|k IH]; intros n; cbn [be_bytes]; [reflexivity|].
  rewrite length_append, IH. cbn. lia.
Qed.

Lemma substring_prefix (s t : string) : substring 0 (String.length s) (String.append s t) = s.
Proof. induction s as [|c s IH]; simpl; [now destruct t|]. now rewrite IH. Qed.

(** *** Registering and reading documents *)

(** X1: registering content no document exists for, at a block time other
    than zero, returns the content's hash and stores under it a document
    that getDocument reads back with the caller as owner, the block time,
    the given type, unverified and with no payload; the hash is appended
    to the caller's list and to the list of all hashes and the counter
    grows by one, the cases and balances being left alone; and from then
    on, whatever transactions follow, registering the same content again
    fails with AlreadyExists, whoever the caller. *)
Theorem registerDocument_round_trip (st : State) (sender now : N) (content type : string) :
  timestamp (documents st).[keccak256 content] = 0 ->
  totalDocuments st < MAX_UINT256 ->
  now ≠ 0 ->
  exists st' tr,
    run (registerDocument keccak256 sender now content type) st =
      Ok (keccak256 content, (st', tr))
    /\ run (getDocument (keccak256 content)) st' =
         Ok ({| documentHash := keccak256 content; owner := sender; timestamp := now;
                isVerified := false; documentType := type;
                encryptedData := EmptyString; bankPublicKey := EmptyString |}, (st', []))
    /\ run (getUserDocuments sender) st' =
         Ok ((userDocuments st).[sender] ++ [keccak256 content], (st', []))
    /\ allDocumentHashes st' = allDocumentHashes st ++ [keccak256 content]
    /\ totalDocuments st' = totalDocuments st + 1
    /\ inheritanceCases st' = inheritanceCases st
    /\ balances st' = balances st
    /\ (forall txs sender' now' type',
          run (registerDocument keccak256 sender' now' content type')
              (apply_all keccak256 txs st') = Err AlreadyExists_document).
Proof.
  intros Habsent Hroom Hnow.
  assert (Hfits : (totalDocuments st + 1 <=? MAX_UINT256) = true) by (apply N.leb_le; lia).
  apply N.eqb_neq in Hnow.
  eexists. eexists. split.
  { exec. rewrite Habsent. cbn. rewrite Hfits. reflexivity. }
  split.
  { unfold getDocument. exec. cbn. rewrite read_insert_eq. cbn. rewrite Hnow. cbn.
    now rewrite read_insert_eq. }
  split.
  { unfold getUserDocuments. exec. cbn. now rewrite read_insert_eq. }
  do 4 (split; [reflexivity|]).
  intros txs sender' now' type'. exec.
  match goal with |- context [apply_all _ txs ?s] =>
    destruct (apply_all_document_kept (keccak256 content) txs s) as (_ & _ & Hlater & _)
  end.
  { unfold present. cbn. rewrite read_insert_eq. cbn. now apply N.eqb_neq. }
  rewrite Hlater. cbn. rewrite read_insert_eq. cbn. now rewrite Hnow.
Qed.

(** X2: an existing document keeps its hash, owner, registration time and
    type through every sequence of transactions, and so goes on
    existing. *)
Theorem document_identity_is_permanent (st : State) (h : N) (txs : list Tx) :
  present st h ->
  documentHash (documents (apply_all keccak256 txs st)).[h] = documentHash (documents st).[h]
  /\ owner (documents (apply_all keccak256 txs st)).[h] = owner (documents st).[h]
  /\ timestamp (documents (apply_all keccak256 txs st)).[h] = timestamp (documents st).[h]
  /\ documentType (documents (apply_all keccak256 txs st)).[h] = documentType (documents st).[h]
  /\ present (apply_all keccak256 txs st) h.
Proof.
  intros Hp. destruct (apply_all_document_kept h txs st Hp) as (Hh & Ho & Ht & Hy & _).
  do 4 (split; [assumption|]). unfold present in *. congruence.
Qed.

(** X3: a verified document stays verified through every sequence of
    transactions, and every later attempt of the bank to verify it again
    fails with AlreadyVerified. *)
Theorem verification_is_final (st : State) (h now : N) (txs : list Tx) :
  present st h ->
  isVerified (documents st).[h] = true ->
  isVerified (documents (apply_all keccak256 txs st)).[h] = true
  /\ run (verifyDocument (bankAddress st) now h) (apply_all keccak256 txs st) =
       Err AlreadyVerified.
Proof.
  intros Hp Hv. destruct (apply_all_document_kept h txs st Hp) as (_ & _ & Ht & _ & Hlater).
  specialize (Hlater Hv). split; [exact Hlater|].
  apply N.eqb_neq in Hp.
  exec. rewrite Ht, Hp. cbn. rewrite (apply_all_bank_same txs st), N.eqb_refl. cbn.
  now rewrite Hlater.
Qed.

(** X4: no transaction changes the bank, and a transaction that turns
    the verified flag of a document on is a verifyDocument on that
    document, which exists, sent by the bank. *)
Theorem only_the_bank_verifies (st : State) (tx : Tx) (h : N) :
  bankAddress (apply keccak256 tx st) = bankAddress st
  /\ (isVerified (documents st).[h] = false ->
      isVerified (documents (apply keccak256 tx st)).[h] = true ->
      msg_sender tx = bankAddress st /\ call tx = VerifyDocument h /\ present st h).
Proof.
  split; [apply apply_bank_same|]. intros Hclear Hset.
  assert (Hcall : exists h', call tx = VerifyDocument h' /\ h' = h).
  { destruct (call tx) as [| | |h'| | | |] eqn:Hcall;
      try destruct (decide (h' = h)) as [Heq|Hne]; eauto; exfalso.
    all: assert (Hkept : unverified_kept h st (transact (dispatch keccak256 tx) st));
      [apply (transact_preserves (unverified_kept h)); [apply unverified_kept_refl|];
       apply dispatch_unverified_kept; rewrite Hcall; intros h'' Hh''; inversion Hh'';
       congruence
      |unfold apply in Hset; rewrite (Hkept Hclear) in Hset; discriminate]. }
  destruct Hcall as (h' & Hcall & ->).
  unfold apply, transact, run, dispatch in Hset. rewrite Hcall in Hset.
  destruct (verifyDocument _ _ _ _) as [[[] [s' tr']]|] eqn:Hrun; [|congruence].
  destruct (verifyDocument_passed _ _ _ _ _ _ _ _ Hrun) as (Hp & Hbank & _).
  auto.
Qed.

(** X5: verifyDocument sent by the bank fails with NotFound on a hash no
    document has and with AlreadyVerified on a verified document; on an
    unverified one it stores the flag and logs the verification, nothing
    else: every other document, and every copy of a document held by an
    inheritance case, the copies of this one included, is as before. *)
Theorem verifyDocument_by_bank (st : State) (now h : N) :
  (timestamp (documents st).[h] = 0 ->
     run (verifyDocument (bankAddress st) now h) st = Err NotFound_document)
  /\ (present st h -> isVerified (documents st).[h] = true ->
     run (verifyDocument (bankAddress st) now h) st = Err AlreadyVerified)
  /\ (present st h -> isVerified (documents st).[h] = false ->
     exists st',
       run (verifyDocument (bankAddress st) now h) st =
         Ok (tt, (st', [SStore st'; Log (DocumentVerified h (bankAddress st) now)]))
       /\ (documents st').[h] = with_isVerified true (documents st).[h]
       /\ (forall h', h' ≠ h -> (documents st').[h'] = (documents st).[h'])
       /\ inheritanceCases st' = inheritanceCases st
       /\ balances st' = balances st).
Proof.
  split; [|split].
  - intros Habsent. exec. now rewrite Habsent.
  - intros Hp Hv. apply N.eqb_neq in Hp.
    exec. rewrite Hp. cbn. rewrite N.eqb_refl. cbn. now rewrite Hv.
  - intros Hp Hv. apply N.eqb_neq in Hp. eexists. split.
    { exec. rewrite Hp. cbn. rewrite N.eqb_refl. cbn. rewrite Hv. reflexivity. }
    cbn. rewrite read_insert_eq. repeat split. intros h' Hne. now apply read_insert_ne.
Qed.

(** X6: in every state the contract can be in, the counter of documents
    is the length of the list of hashes, so getDocumentByIndex never
    meets the bounds check of the array: below the counter it returns
    the document stored under the hash at that index, changing nothing,
    and from the counter on it fails with the message of its own
    check. *)
Theorem getDocumentByIndex_in_range (st : State) (index : N) :
  reachable keccak256 st ->
  totalDocuments st = N.of_nat (length (allDocumentHashes st))
  /\ (index < totalDocuments st ->
      exists h, allDocumentHashes st !! N.to_nat index = Some h
        /\ run (getDocumentByIndex index) st = Ok ((documents st).[h], (st, [])))
  /\ (totalDocuments st <= index ->
      run (getDocumentByIndex index) st = Err (Revert "Index out of bounds")).
Proof.
  intros Hreach. pose proof (reachable_registry _ Hreach) as Hreg.
  split; [apply Hreg|]. split.
  - intros Hlt.
    destruct (lookup_lt_is_Some_2 (allDocumentHashes st) (N.to_nat index)) as [h Hh].
    { destruct Hreg as [Hcount _ _ _]. lia. }
    exists h. split; [exact Hh|].
    destruct (getDocumentByIndex_at st _ h Hreg Hh) as (_ & Hrun).
    now rewrite N2Nat.id in Hrun.
  - intros Hge. apply N.ltb_ge in Hge. unfold getDocumentByIndex. exec. now rewrite Hge.
Qed.

(** X7: in every state the contract can be in, an existing document is
    stored under its own hash, is listed among its owner's documents and
    in the list of all hashes, and is returned by getDocumentByIndex at
    some index below the counter. *)
Theorem existing_documents_are_indexed (st : State) (h : N) :
  reachable keccak256 st ->
  present st h ->
  documentHash (documents st).[h] = h
  /\ In h (userDocuments st).[owner (documents st).[h]]
  /\ In h (allDocumentHashes st)
  /\ exists index, index < totalDocuments st
       /\ run (getDocumentByIndex index) st = Ok ((documents st).[h], (st, [])).
Proof.
  intros Hreach Hp. pose proof (reachable_registry _ Hreach) as Hreg.
  pose proof (reg_indexed _ Hreg h Hp) as Hin.
  split; [now apply reg_keyed|]. split; [now apply reg_owned|]. split; [exact Hin|].
  apply list_elem_of_In, list_elem_of_lookup_1 in Hin as [i Hi].
  exists (N.of_nat i). now apply getDocumentByIndex_at.
Qed.

(** X8: encryptAndSendToBank checks, in this order, that the document
    exists, that the caller owns it, and that neither the content nor
    the key is empty; the content is not compared with the document's
    hash. On success the payload returned and stored is the text
    ENCRYPTED: followed by the content as given, a colon and the block
    time in 32 bytes: the content can be read off the payload, which no
    key went into; the key is stored beside it, and the document's
    identity and verified flag stay as they were. *)
Theorem encryptAndSendToBank_outcome (st : State) (sender now h : N) (content key : string) :
  (timestamp (documents st).[h] = 0 ->
     run (encryptAndSendToBank sender now h content key) st = Err NotFound_document)
  /\ (present st h -> owner (documents st).[h] ≠ sender ->
     run (encryptAndSendToBank sender now h content key) st =
       Err (Revert "Only document owner can encrypt"))
  /\ (present st h -> owner (documents st).[h] = sender -> content = EmptyString ->
     run (encryptAndSendToBank sender now h content key) st =
       Err (Revert "Document content cannot be empty"))
  /\ (present st h -> owner (documents st).[h] = sender -> content ≠ EmptyString ->
      key = EmptyString ->
     run (encryptAndSendToBank sender now h content key) st =
       Err (Revert "Bank public key cannot be empty"))
  /\ (present st h -> owner (documents st).[h] = sender -> content ≠ EmptyString ->
      key ≠ EmptyString ->
     exists st' tr payload,
       run (encryptAndSendToBank sender now h content key) st = Ok (payload, (st', tr))
       /\ payload = String.append "ENCRYPTED:" (String.append content
                      (String.append ":" (encodePacked_uint256 now)))
       /\ substring 10 (String.length content) payload = content
       /\ String.length payload = (String.length content + 43)%nat
       /\ encryptedData (documents st').[h] = payload
       /\ bankPublicKey (documents st').[h] = key
       /\ isVerified (documents st').[h] = isVerified (documents st).[h]
       /\ owner (documents st').[h] = sender
       /\ timestamp (documents st').[h] = timestamp (documents st).[h]).
Proof.
  assert (Hempty : forall s : string, s ≠ EmptyString -> (String.length s =? 0)%nat = false).
  { intros [|c s] Hs; [contradiction|reflexivity]. }
  split; [|split; [|split; [|split]]].
  - intros Habsent. exec. now rewrite Habsent.
  - intros Hp Howner. apply N.eqb_neq in Hp, Howner. exec. rewrite Hp. cbn. now rewrite Howner.
  - intros Hp Howner ->. apply N.eqb_neq in Hp. apply N.eqb_eq in Howner.
    exec. rewrite Hp. cbn. now rewrite Howner.
  - intros Hp Howner Hcontent ->. apply N.eqb_neq in Hp. apply N.eqb_eq in Howner.
    exec. rewrite Hp. cbn. rewrite Howner. cbn. now rewrite (Hempty content Hcontent).
  - intros Hp Howner Hcontent Hkey. pose proof Hp as Hp'. pose proof Howner as Howner'.
    apply N.eqb_neq in Hp'. apply N.eqb_eq in Howner'.
    eexists. eexists. eexists. split.
    { exec. rewrite Hp'. cbn -[encodePacked_uint256]. rewrite Howner'.
      cbn -[encodePacked_uint256]. rewrite (Hempty content Hcontent).
      cbn -[encodePacked_uint256]. rewrite (Hempty key Hkey). reflexivity. }
    split; [reflexivity|].
    split; [cbn [String.append substring]; apply substring_prefix|].
    split.
    { rewrite !length_append. unfold encodePacked_uint256. rewrite length_be_bytes.
      cbn [String.length]. lia. }
    cbn -[encodePacked_uint256]. rewrite !read_insert_eq. cbn -[encodePacked_uint256].
    repeat split. exact Howner.
Qed.

(** *** The funds *)

(** What a successful distribution does to the funds. *)
Lemma distributeAssets_credits now caseId st st' tr :
  run (distributeAssets now caseId) st = Ok (tt, (st', tr)) ->
  this_balance st' = this_balance st
  /\ forall a, (balances st').[a] =
       (balances st).[a] +
       credited (totalAmount (inheritanceCases st).[caseId])
         (inheritors (inheritanceCases st).[caseId]) a.
Proof.
  intros Hrun. split.
  { now destruct (distributeAssets_ether_same now caseId _ _ _ _ _ Hrun). }
  destruct (distributeAssets_success _ _ _ _ _ Hrun)
    as (_ & _ & _ & _ & _ & last & new & Hloop & -> & _).
  set (pool := totalAmount (inheritanceCases st).[caseId]) in *.
  set (inhs := inheritors (inheritanceCases st).[caseId]) in *.
  assert (Hstart : payout_invariant caseId pool inhs st 0
            (update_case caseId (with_isDistributed true) (set_status true st))).
  { unfold payout_invariant. rewrite case_update_case_eq. cbn.
    repeat split; auto. intros a. rewrite take_0. cbn [credited]. lia. }
  pose proof (payout_loop _ _ _ _ _ _ 0%nat _ _ _ _ eq_refl Hstart Hloop)
    as (_ & _ & _ & Hbal).
  rewrite firstn_all in Hbal. exact Hbal.
Qed.

(** What each kind of transaction does to the funds when it succeeds. *)
Lemma dispatch_funds tx s r s' tr' :
  run (dispatch keccak256 tx) s = Ok (r, (s', tr')) ->
  match call tx with
  | Deposit _ value =>
      balances s' = <[msg_sender tx := (balances s).[msg_sender tx] + value]> (balances s)
      /\ this_balance s' = this_balance s + value
  | Withdraw amount accepts =>
      amount <= (balances s).[msg_sender tx]
      /\ amount <= this_balance s
      /\ accepts = true
      /\ balances s' = <[msg_sender tx := (balances s).[msg_sender tx] - amount]> (balances s)
      /\ this_balance s' = this_balance s - amount
  | DistributeAssets caseId =>
      this_balance s' = this_balance s
      /\ forall a, (balances s').[a] =
           (balances s).[a] +
           credited (totalAmount (inheritanceCases s).[caseId])
             (inheritors (inheritanceCases s).[caseId]) a
  | _ => balances s' = balances s /\ this_balance s' = this_balance s
  end.
Proof.
  intros Hrun.
  destruct (call tx) as [| | | | |caseId|caseId value|amount accepts] eqn:Hcall.
  1-5: refine (proj1 (dispatch_funds_same tx _ _ _ _ _ _ Hrun)); now rewrite Hcall.
  - unfold dispatch in Hrun. rewrite Hcall in Hrun. destruct r.
    now apply distributeAssets_credits in Hrun.
  - unfold dispatch in Hrun. rewrite Hcall in Hrun. exec_in Hrun.
    do 4 branch Hrun. inversion Hrun; subst. cbn. auto.
  - unfold dispatch in Hrun. rewrite Hcall in Hrun. exec_in Hrun.
    do 3 branch Hrun. cbn in Hrun.
    inversion Hrun; subst. cbn in *.
    apply andb_prop in E1 as [Hheld Haccepts]. apply N.leb_le in E0, Hheld.
    auto.
Qed.



(** X9: the balance of an account falls only through a withdrawal sent
    by that account and accepted by it: a transaction that lowers the
    balance of [a] is a withdraw by [a], and it lowers that balance and
    the ether held by the amount asked for. *)
Theorem balance_falls_only_by_own_withdrawal (st : State) (tx : Tx) (a : N) :
  (balances (apply keccak256 tx st)).[a] < (balances st).[a] ->
  msg_sender tx = a
  /\ exists amount,
       call tx = Withdraw amount true
       /\ amount <= this_balance st
       /\ (balances (apply keccak256 tx st)).[a] = (balances st).[a] - amount
       /\ this_balance (apply keccak256 tx st) = this_balance st - amount.
Proof.
  unfold apply, transact.
  destruct (run (dispatch keccak256 tx) st) as [[r [s' tr']]|] eqn:Hrun; cbn [fst]; [|lia].
  apply dispatch_funds in Hrun. intros Hless.
  destruct (call tx) as [| | | | |caseId|caseId value|amount accepts].
  1-5: destruct Hrun as [Hsame _]; rewrite Hsame in Hless; lia.
  - destruct Hrun as [_ Hcredit]. rewrite Hcredit in Hless. lia.
  - destruct Hrun as [Hbal _]. rewrite Hbal, read_insert in Hless.
    case_decide; subst; lia.
  - destruct Hrun as (Hle & Hheld & -> & Hbal & Hether).
    rewrite Hbal, read_insert in Hless. rewrite Hbal, read_insert.
    case_decide as Ha; [|lia]. split; [exact Ha|]. subst a.
    exists amount. auto.
Qed.



(** X12: a deposit to a case can be taken back at once: in every state
    the contract can be in, a positive deposit to an existing case
    followed by a withdrawal of the same amount by the depositor, the
    transfer being accepted, succeeds and leaves the depositor's balance
    and the ether held where they were before the deposit, while the
    case's totalAmount still counts the deposit. *)
Theorem deposit_can_be_taken_back (st : State) (sender now now' value caseId : N) :
  reachable keccak256 st ->
  0 < value ->
  createdAt (inheritanceCases st).[caseId] ≠ 0 ->
  totalAmount (inheritanceCases st).[caseId] + value <= MAX_UINT256 ->
  (balances st).[sender] + value <= MAX_UINT256 ->
  exists st1 tr1 st2 tr2,
    run (deposit sender now value caseId) st = Ok (tt, (st1, tr1))
    /\ run (withdraw sender now' true value) st1 = Ok (tt, (st2, tr2))
    /\ (balances st2).[sender] = (balances st).[sender]
    /\ this_balance st2 = this_balance st
    /\ totalAmount (inheritanceCases st2).[caseId] =
         totalAmount (inheritanceCases st).[caseId] + value.
Proof.
  intros Hreach Hpos Hexists Htotal Hbalance.
  pose proof (reachable_lock _ _ Hreach) as Hfree.
  apply N.ltb_lt in Hpos. apply N.eqb_neq in Hexists.
  apply N.leb_le in Htotal. apply N.leb_le in Hbalance.
  eexists. eexists. eexists. eexists. split.
  { exec. rewrite Hpos. cbn. rewrite Hexists. cbn. rewrite Htotal. cbn. rewrite Hbalance.
    reflexivity. }
  split.
  { exec. cbn. rewrite Hfree. cbn. rewrite read_insert_eq.
    assert (Hle : (value <=? (balances st).[sender] + value) = true) by (apply N.leb_le; lia).
    rewrite Hle. cbn.
    assert (Hheld : (value <=? this_balance st + value) = true) by (apply N.leb_le; lia).
    rewrite Hheld. reflexivity. }
  cbn. rewrite !read_insert_eq. cbn. repeat split; lia.
Qed.

(** X13: in every state the contract can be in, distributeAssets fails
    with NotFound on a case that does not exist; on an existing case it
    fails with AlreadyDistributed when the case is distributed, else with
    NothingToDistribute when nothing was deposited to it, and else with
    NotAllVerified exactly when one of the document copies the case
    holds is unverified. *)
Theorem distributeAssets_refusals (st : State) (now caseId : N) :
  reachable keccak256 st ->
  (createdAt (inheritanceCases st).[caseId] = 0 ->
     run (distributeAssets now caseId) st = Err NotFound_case)
  /\ (createdAt (inheritanceCases st).[caseId] ≠ 0 ->
      (isDistributed (inheritanceCases st).[caseId] = true ->
         run (distributeAssets now caseId) st = Err AlreadyDistributed)
      /\ (isDistributed (inheritanceCases st).[caseId] = false ->
          (totalAmount (inheritanceCases st).[caseId] = 0 ->
             run (distributeAssets now caseId) st = Err NothingToDistribute)
          /\ (0 < totalAmount (inheritanceCases st).[caseId] ->
              (run (distributeAssets now caseId) st = Err NotAllVerified
               <-> exists d, In d (caseDocuments (inheritanceCases st).[caseId])
                             /\ isVerified d = false)))).
Proof.
  intros Hreach. pose proof (reachable_lock _ _ Hreach) as Hfree.
  split.
  - intros Habsent. exec. now rewrite Habsent.
  - intros Hexists. pose proof Hexists as Hexists'. apply N.eqb_neq in Hexists'. split.
    + intros Hflag. exec. rewrite Hexists'. cbn. rewrite Hfree. cbn. now rewrite Hflag.
    + intros Hflag. split.
      * intros Hzero. exec. rewrite Hexists'. cbn. rewrite Hfree. cbn. rewrite Hflag. cbn.
        now rewrite Hzero.
      * intros Hfunded. rewrite distributeAssets_verification by assumption.
        apply forallb_false.
Qed.

(** *** Reading a case back *)

Lemma case_fields_same_refl c s : case_fields_same c s s.
Proof. repeat split. Qed.

Lemma case_fields_same_trans c s1 s2 s3 :
  case_fields_same c s1 s2 -> case_fields_same c s2 s3 -> case_fields_same c s1 s3.
Proof. unfold case_fields_same. intros (? & ? & ?) (? & ? & ?). repeat split; congruence. Qed.

(** The part of createInheritanceCase that follows the two writes of the
    id and the creation time leaves the id, the pool and the flag of
    the case alone. *)
Lemma createInheritanceCase_fills sender now caseId (hashes : list bytes32)
    (pairs : list (address * uint256)) :
  preserves (case_fields_same caseId)
    (for_each hashes (add_document caseId) >>
     for_each pairs (add_inheritor caseId) >>
     let! n := gets totalCases in
     let! n' := checked_add n 1 in
     sstore (set_totalCases n') >>
     emit (InheritanceCaseCreated caseId sender now)).
Proof.
  pose proof (case_fields_same_refl caseId). pose proof (case_fields_same_trans caseId).
  unfold add_document, add_inheritor. repeat preserve_step;
    unfold case_fields_same, update_case; cbn; rewrite ?read_insert_eq; cbn; auto.
Qed.

(** X14: a case created at a block time other than zero on an id never
    used can be read back: getInheritanceCase returns the id, the copies
    of the referenced documents as the registry had them at creation, an
    inheritor record per address and share, nothing received yet, an
    empty pool, the distributed flag clear and the creation time; the
    shares recorded sum to 100. *)
Theorem created_case_is_readable (st st' : State) (tr : Trace) (sender now caseId : N)
    (hashes addresses shares : list N) :
  (inheritanceCases st).[caseId] = zero ->
  now ≠ 0 ->
  run (createInheritanceCase sender now caseId hashes addresses shares) st =
    Ok (tt, (st', tr)) ->
  run (getInheritanceCase caseId) st' =
    Ok ({| caseId := caseId;
           caseDocuments := map (fun h => (documents st).[h]) hashes;
           inheritors := map new_inheritor (combine addresses shares);
           totalAmount := 0; isDistributed := false; createdAt := now |}, (st', []))
  /\ total_share (inheritors (inheritanceCases st').[caseId]) = 100
  /\ totalCases st' = totalCases st + 1.
Proof.
  intros Hpristine Hnow Hrun.
  destruct (createInheritanceCase_success _ _ _ _ _ _ _ _ _ Hrun) as (Hwf & Hall & Hroom).
  destruct (createInheritanceCase_accepts st sender now caseId hashes addresses shares
              Hwf Hall Hroom) as (st'' & tr'' & Hrun' & Hcreated & Hcopies & Hinhs & Hcount).
  rewrite Hrun in Hrun'. inversion Hrun'; subst st'' tr''. clear Hrun'.
  rewrite Hpristine in Hcopies, Hinhs. cbn [caseDocuments inheritors zero InheritanceCase_zero app]
    in Hcopies, Hinhs.
  destruct Hwf as (Hfresh & Hdocs & Hlen & Haddrs & Hsum).
  assert (Hfields : InheritanceAutomation.caseId (inheritanceCases st').[caseId] = caseId
                    /\ totalAmount (inheritanceCases st').[caseId] = 0
                    /\ isDistributed (inheritanceCases st').[caseId] = false).
  { rewrite createInheritanceCase_after_checks in Hrun by assumption.
    rewrite sum_shares_run, Hsum, hundred_fits in Hrun. cbn [N.eqb Pos.eqb] in Hrun.
    unfold bind at 1, sstore at 1 in Hrun. cbn [fst snd] in Hrun.
    unfold bind at 1, sstore at 1 in Hrun. cbn [fst snd] in Hrun.
    destruct (createInheritanceCase_fills _ _ _ _ _ _ _ _ _ _ Hrun) as ((Hid & Hpool & Hflag) & _).
    rewrite Hid, Hpool, Hflag, !case_update_case_eq, Hpristine. repeat split. }
  destruct Hfields as (Hid & Hpool & Hflag).
  split; [|split; [|exact Hcount]].
  - unfold getInheritanceCase. exec. rewrite Hcreated.
    apply N.eqb_neq in Hnow. rewrite Hnow. cbn. f_equal. f_equal.
    destruct ((inheritanceCases st').[caseId]) as [i d l t f c]. cbn in *. congruence.
  - rewrite Hinhs, total_share_new by exact Hlen. exact Hsum.
Qed.

(** *** The bank *)

(** X15: the constructor refuses the zero address as bank, so in every
    state the contract can be in the bank is set; and whatever
    transactions follow, it stays the same. *)
Theorem bank_is_set_and_fixed (st : State) (txs : list Tx) :
  reachable keccak256 st ->
  constructor 0 = Err (Revert "Invalid bank address")
  /\ bankAddress st ≠ 0
  /\ bankAddress (apply_all keccak256 txs st) = bankAddress st.
Proof.
  intros Hreach. split; [reflexivity|]. split; [|apply apply_all_bank_same].
  induction Hreach as [bank s Hinit|tx s _ IH].
  - unfold constructor in Hinit. destruct (N.eqb_spec bank 0); inversion Hinit. auto.
  - now rewrite apply_bank_same.
Qed.

(** *** The inheritors and the pool of a case *)

Lemma map_alter_kept {A B} (g : A -> B) (f : A -> A) (i : nat) (l : list A) :
  (forall x, g (f x) = g x) -> map g (alter f i l) = map g l.
Proof.
  intros Hf. revert i. induction l as [|x l IH]; intros [|i]; cbn; [reflexivity..| |].
  - now rewrite Hf.
  - f_equal. apply IH.
Qed.

Lemma heirs_kept_refl c s : heirs_kept c s s.
Proof. intros _. auto. Qed.

Lemma heirs_kept_trans c s1 s2 s3 :
  heirs_kept c s1 s2 -> heirs_kept c s2 s3 -> heirs_kept c s1 s3.
Proof.
  unfold heirs_kept. intros H12 H23 Hc. destruct (H12 Hc) as (Ht & Hw & Hs).
  destruct H23 as (Ht' & Hw' & Hs'); [congruence|]. repeat split; congruence.
Qed.

Lemma pool_same_refl c s : pool_same c s s.
Proof. reflexivity. Qed.

Lemma pool_same_trans c s1 s2 s3 : pool_same c s1 s2 -> pool_same c s2 s3 -> pool_same c s1 s3.
Proof. unfold pool_same. congruence. Qed.

#[local] Hint Resolve heirs_kept_refl heirs_kept_trans pool_same_refl pool_same_trans : preserve.

Lemma case_same_heirs_kept c s s' : case_same c s s' -> heirs_kept c s s'.
Proof. unfold case_same. intros Heq _. rewrite Heq. auto. Qed.

(** Settles what one write does to the inheritors or the pool of a case. *)
Ltac case_entry_ok :=
  unfold heirs_kept, pool_same, case_same, update_inheritor, update_document, update_case;
  cbn; intros; rewrite ?read_insert;
  repeat case_decide; subst; cbn; rewrite ?map_alter_kept by reflexivity;
  try tauto; try congruence; auto.

Ltac case_frame :=
  unfold registerDocument, encryptAndSendToBank, decryptAndVerifyDocument, verifyDocument,
    createInheritanceCase, add_document, add_inheritor, distributeAssets, distribute_to,
    require_verified, deposit, withdraw, documentExists, caseExists, onlyBank,
    nonReentrant, send;
  repeat preserve_step; try case_entry_ok.

Lemma createInheritanceCase_heirs_kept cid sender now caseId hashes addresses shares :
  preserves (heirs_kept cid) (createInheritanceCase sender now caseId hashes addresses shares).
Proof.
  destruct (decide (cid = caseId)) as [->|Hne].
  - intros s tr a s' tr' Hrun.
    pose proof (createInheritanceCase_runs_on_fresh _ _ _ _ _ _ _ _ _ _ _ Hrun) as Hfresh.
    assert (Hany : preserves (fun _ _ : State => True)
              (createInheritanceCase sender now caseId hashes addresses shares)).
    { unfold createInheritanceCase, add_document, add_inheritor.
      repeat preserve_step; auto. }
    destruct (Hany _ _ _ _ _ Hrun) as (_ & new & -> & _).
    split; [intros Hc; contradiction|]. exists new. split; [reflexivity|].
    intros x _ Hc. contradiction.
  - apply preserves_weaken with (R := case_same cid); [apply case_same_heirs_kept|].
    unfold createInheritanceCase, add_document, add_inheritor. preserve.
Qed.

Lemma dispatch_heirs_kept cid tx : preserves (heirs_kept cid) (dispatch keccak256 tx).
Proof.
  unfold dispatch. destruct (call tx); try solve [case_frame].
  apply createInheritanceCase_heirs_kept.
Qed.

Lemma apply_all_heirs_kept cid txs s : heirs_kept cid s (apply_all keccak256 txs s).
Proof.
  revert s. induction txs as [|tx txs IH]; intros s; cbn.
  - apply heirs_kept_refl.
  - eapply heirs_kept_trans; [|apply IH].
    unfold apply. apply (transact_preserves (heirs_kept cid));
      [apply heirs_kept_refl | apply dispatch_heirs_kept].
Qed.

Lemma dispatch_pool_same c tx :
  (forall value, call tx ≠ Deposit c value) ->
  preserves (pool_same c) (dispatch keccak256 tx).
Proof.
  unfold dispatch. destruct (call tx) as [| | | | | |c' value|]; intros Hother;
    try (destruct (decide (c' = c)) as [->|Hne]; [now destruct (Hother value)|]);
    case_frame.
Qed.

(** X16: once a case exists, whatever transactions follow, its inheritors
    keep their wallets and their shares, in the same order, and the case
    keeps its creation time and its document copies: nobody can change
    who inherits, in what proportion or on what evidence. *)
Theorem heirs_are_permanent (st : State) (cid : N) (txs : list Tx) :
  createdAt (inheritanceCases st).[cid] ≠ 0 ->
  map wallet (inheritors (inheritanceCases (apply_all keccak256 txs st)).[cid]) =
    map wallet (inheritors (inheritanceCases st).[cid])
  /\ map share (inheritors (inheritanceCases (apply_all keccak256 txs st)).[cid]) =
       map share (inheritors (inheritanceCases st).[cid])
  /\ createdAt (inheritanceCases (apply_all keccak256 txs st)).[cid] =
       createdAt (inheritanceCases st).[cid]
  /\ caseDocuments (inheritanceCases (apply_all keccak256 txs st)).[cid] =
       caseDocuments (inheritanceCases st).[cid].
Proof.
  intros Hexists.
  destruct (apply_all_heirs_kept cid txs st Hexists) as (Ht & Hw & Hs).
  destruct (apply_all_stable keccak256 cid txs st Hexists) as (_ & Hd & _).
  auto.
Qed.

(** X17: the pool of a case changes only by a deposit to that case,
    which adds the amount sent: neither a distribution nor a withdrawal
    takes anything out of it. *)
Theorem pool_changes_only_by_deposit (st : State) (tx : Tx) (cid : N) :
  totalAmount (inheritanceCases (apply keccak256 tx st)).[cid] ≠
    totalAmount (inheritanceCases st).[cid] ->
  exists value,
    call tx = Deposit cid value
    /\ 0 < value
    /\ totalAmount (inheritanceCases (apply keccak256 tx st)).[cid] =
         totalAmount (inheritanceCases st).[cid] + value.
Proof.
  intros Hchanged.
  assert (Hcall : exists value, call tx = Deposit cid value).
  { destruct (call tx) as [| | | | | |c' value|] eqn:Hcall;
      try (destruct (decide (c' = cid)) as [->|Hne]; [eauto|]); exfalso.
    all: apply Hchanged; unfold apply;
      apply (transact_preserves (pool_same cid)); [apply pool_same_refl|];
      apply dispatch_pool_same; rewrite Hcall; intros v Hv; inversion Hv; congruence. }
  destruct Hcall as (value & Hcall). exists value. split; [exact Hcall|].
  unfold apply, transact, run, dispatch in *. rewrite Hcall in *.
  destruct (deposit _ _ _ _ _) as [[[] [s' tr']]|] eqn:Hrun; cbn [fst] in *; [|congruence].
  exec_in Hrun. do 4 branch Hrun. inversion Hrun; subst. cbn.
  apply N.ltb_lt in E. split; [exact E|].
  now rewrite read_insert_eq.
Qed.

(** *** When a distribution goes through *)

Lemma credited_le_total_paid pool (l : list Inheritor) a : credited pool l a <= total_paid pool l.
Proof.
  induction l as [|i l IH]; cbn [credited total_paid]; [lia|].
  destruct (wallet i =? a); lia.
Qed.

Lemma share_le_total_share (l : list Inheritor) (k : nat) inh :
  l !! k = Some inh -> share inh <= total_share l.
Proof.
  revert k. induction l as [|i l IH]; intros [|k] Hk; cbn in *; try discriminate.
  - inversion Hk; subst. lia.
  - specialize (IH k Hk). lia.
Qed.

Lemma total_paid_app pool (l1 l2 : list Inheritor) :
  total_paid pool (l1 ++ l2) = total_paid pool l1 + total_paid pool l2.
Proof. induction l1 as [|i l1 IH]; cbn [total_paid app]; [reflexivity|]. rewrite IH. lia. Qed.

Lemma total_paid_take pool (l : list Inheritor) (k : nat) inh :
  l !! k = Some inh -> total_paid pool (take k l) + payout pool inh <= total_paid pool l.
Proof.
  intros Hk. rewrite <- (take_drop_middle l k inh Hk) at 2.
  rewrite total_paid_app. cbn [total_paid]. lia.
Qed.

(** The payout loop runs to its end when no product and no balance can
    leave uint256. *)
Lemma payout_loop_runs now caseId pool inhs st n : forall k s tr,
  (k + n = length inhs)%nat ->
  payout_invariant caseId pool inhs st k s ->
  total_share inhs = 100 ->
  pool * 100 <= MAX_UINT256 ->
  (forall a, (balances st).[a] + pool <= MAX_UINT256) ->
  exists s' tr', for_each (seq k n) (distribute_to now caseId) (s, tr) = Ok (tt, (s', tr')).
Proof.
  induction n as [|n IH]; intros k s tr Hkn Hinv Hshares Hpool Hroom; cbn [seq for_each].
  - eexists. eexists. reflexivity.
  - assert (Hstep : exists s1 tr1, distribute_to now caseId k (s, tr) = Ok (tt, (s1, tr1))).
    { destruct Hinv as (Htotal & Hlen & Hinhs & Hbal).
      destruct (lookup_lt_is_Some_2 inhs k) as [inh Hinh]; [lia|].
      pose proof (Hinhs k inh Hinh) as Hcur. rewrite Nat.ltb_irrefl in Hcur.
      pose proof (share_le_total_share inhs k inh Hinh) as Hshare.
      pose proof (total_paid_take pool inhs k inh Hinh) as Htake.
      pose proof (total_paid_bound pool inhs) as Hbound. rewrite Hshares in Hbound.
      unfold distribute_to. exec. rewrite Hcur, Htotal.
      destruct (N.leb_spec (pool * share inh) MAX_UINT256) as [_|Hover]; [|nia].
      fold (payout pool inh).
      destruct (0 <? payout pool inh); cbn [fst snd]; [|eauto].
      rewrite Hbal.
      pose proof (credited_le_total_paid pool (take k inhs) (wallet inh)) as Hcredited.
      pose proof (Hroom (wallet inh)) as Hfits.
      destruct (N.leb_spec ((balances st).[wallet inh] + credited pool (take k inhs) (wallet inh)
                            + payout pool inh) MAX_UINT256) as [_|Hover]; [eauto|lia]. }
    destruct Hstep as (s1 & tr1 & Hstep). unfold bind at 1. rewrite Hstep.
    apply (IH (S k)); auto; [lia|]. eapply payout_step; eauto. lia.
Qed.

(** X18: in every state the contract can be in, distributeAssets goes
    through on an existing, funded, undistributed case whose document
    copies are all verified and whose shares sum to 100, provided the
    pool times 100 and every balance plus the pool stay within uint256:
    whoever calls, the case is then marked distributed. *)
Theorem distributeAssets_goes_through (st : State) (now caseId : N) :
  reachable keccak256 st ->
  createdAt (inheritanceCases st).[caseId] ≠ 0 ->
  isDistributed (inheritanceCases st).[caseId] = false ->
  0 < totalAmount (inheritanceCases st).[caseId] ->
  forallb isVerified (caseDocuments (inheritanceCases st).[caseId]) = true ->
  total_share (inheritors (inheritanceCases st).[caseId]) = 100 ->
  totalAmount (inheritanceCases st).[caseId] * 100 <= MAX_UINT256 ->
  (forall a, (balances st).[a] + totalAmount (inheritanceCases st).[caseId] <= MAX_UINT256) ->
  exists st' tr,
    run (distributeAssets now caseId) st = Ok (tt, (st', tr))
    /\ isDistributed (inheritanceCases st').[caseId] = true.
Proof.
  intros Hreach Hexists Hclear Hfunded Hverified Hshares Hpool Hroom.
  pose proof (reachable_lock _ _ Hreach) as Hfree.
  set (pool := totalAmount (inheritanceCases st).[caseId]) in *.
  set (inhs := inheritors (inheritanceCases st).[caseId]) in *.
  set (flagged := update_case caseId (with_isDistributed true) (set_status true st)).
  assert (Hstart : payout_invariant caseId pool inhs st 0 flagged).
  { unfold payout_invariant, flagged. rewrite case_update_case_eq. cbn.
    repeat split; auto. intros a. rewrite take_0. cbn [credited]. lia. }
  destruct (payout_loop_runs now caseId pool inhs st (length inhs) 0 flagged
              [SStore (set_status true st); SStore flagged] eq_refl Hstart Hshares Hpool Hroom)
    as (paid & tr' & Hloop).
  assert (Hrun : run (distributeAssets now caseId) st =
                 Ok (tt, (set_status false paid, tr' ++ [SStore (set_status false paid)]))).
  { apply N.eqb_neq in Hexists. apply N.ltb_lt in Hfunded.
    unfold distributeAssets, caseExists, nonReentrant.
    unfold run, bind, gets, require, sstore, ret. cbn [fst snd].
    rewrite Hexists. cbn. rewrite Hfree. cbn. rewrite Hclear. cbn.
    fold pool. rewrite Hfunded. cbn. rewrite verified_loop, Hverified. cbn.
    fold inhs. fold flagged. rewrite Hloop. reflexivity. }
  eexists. eexists. split; [exact Hrun|].
  destruct (payout_loop_stable caseId _ _ _ _ _ _ _ _ Hloop) as (Hstable & _).
  destruct Hstable as (_ & _ & Hflag).
  { unfold flagged. now rewrite case_update_case_eq. }
  cbn. apply Hflag. unfold flagged. now rewrite case_update_case_eq.
Qed.

(** X19: a case holding an unverified copy of a document is never
    distributed: whatever transactions follow, verifications by the
    bank included, every distributeAssets on it fails. *)
Theorem unverified_copy_blocks_distribution (st : State) (now caseId : N) (txs : list Tx) :
  createdAt (inheritanceCases st).[caseId] ≠ 0 ->
  forallb isVerified (caseDocuments (inheritanceCases st).[caseId]) = false ->
  exists e, run (distributeAssets now caseId) (apply_all keccak256 txs st) = Err e.
Proof.
  intros Hexists Hunverified.
  destruct (run (distributeAssets now caseId) (apply_all keccak256 txs st))
    as [[[] [st' tr]]|e] eqn:Hrun; [exfalso|eauto].
  destruct (distributeAssets_success _ _ _ _ _ Hrun) as (_ & _ & _ & _ & Hverified & _).
  destruct (apply_all_stable keccak256 caseId txs st Hexists) as (_ & Hcopies & _).
  congruence.
Qed.

End Registry.
End LedgerRegistry.

(** ** The fixed-split variant: parties, registry and money *)

Module FixedSplitFunds.
Import SimpleInheritance FixedSplitFacts.

Lemma parties_same_refl s : parties_same s s.
Proof. repeat split. Qed.

Lemma parties_same_trans s1 s2 s3 :
  parties_same s1 s2 -> parties_same s2 s3 -> parties_same s1 s3.
Proof. unfold parties_same. intros (? & ? & ?) (? & ? & ?). repeat split; congruence. Qed.

Lemma fixed_document_kept_refl h s : document_kept h s s.
Proof. intros _. auto. Qed.

Lemma fixed_document_kept_trans h s1 s2 s3 :
  document_kept h s1 s2 -> document_kept h s2 s3 -> document_kept h s1 s3.
Proof.
  unfold document_kept. intros H12 H23 Hp.
  destruct (H12 Hp) as (Hh & Ho & Ht & Hy & Hv).
  destruct H23 as (Hh' & Ho' & Ht' & Hy' & Hv'); [congruence|].
  repeat split; try congruence. auto.
Qed.

#[global] Hint Resolve parties_same_refl parties_same_trans fixed_document_kept_refl
  fixed_document_kept_trans : preserve.

(** Splits a goal on a whole call into its writes and settles them. *)
Ltac frame :=
  unfold registerDocument, verifyDocument, _checkAndDistributeInheritance,
    _distributeInheritance, deposit, receive, withdraw, onlyBank, send;
  repeat LedgerFacts.preserve_step;
  unfold parties_same, document_kept, update_document;
  cbn; repeat (intros; split); intros; rewrite ?read_insert;
  repeat case_decide; subst; cbn; try tauto; try congruence; auto.

Section Funds.
Variable keccak256 : string -> bytes32.

(** *** What the calls leave alone *)

Lemma dispatch_parties_same tx : preserves parties_same (dispatch keccak256 tx).
Proof. unfold dispatch. destruct (call tx); frame. Qed.

Lemma apply_parties_same tx s : parties_same s (apply keccak256 tx s).
Proof.
  unfold apply. apply (transact_preserves parties_same); [apply parties_same_refl|].
  apply dispatch_parties_same.
Qed.

Lemma apply_all_parties_same txs s : parties_same s (apply_all keccak256 txs s).
Proof.
  revert s. induction txs as [|tx txs IH]; intros s; cbn.
  - apply parties_same_refl.
  - eapply parties_same_trans; [apply apply_parties_same | apply IH].
Qed.

(** A registration that succeeds found no document under the hash. *)
Lemma registerDocument_runs_on_free sender now content type s tr a s' tr' :
  registerDocument keccak256 sender now content type (s, tr) = Ok (a, (s', tr')) ->
  documentHash (documents s).[keccak256 content] = 0.
Proof. intros Hrun. exec_in Hrun. branch Hrun. now apply N.eqb_eq. Qed.

Lemma registerDocument_fixed_document_kept h sender now content type :
  preserves (document_kept h) (registerDocument keccak256 sender now content type).
Proof.
  destruct (decide (h = keccak256 content)) as [->|Hne]; [|frame].
  intros s tr a s' tr' Hrun.
  pose proof (registerDocument_runs_on_free _ _ _ _ _ _ _ _ _ Hrun) as Hfree.
  assert (Hany : preserves (fun _ _ : State => True)
            (registerDocument keccak256 sender now content type)).
  { unfold registerDocument. repeat LedgerFacts.preserve_step; auto. }
  destruct (Hany _ _ _ _ _ Hrun) as (_ & new & -> & _).
  split; [intros Hp; contradiction|]. exists new. split; [reflexivity|].
  intros x _ Hp. contradiction.
Qed.

Lemma dispatch_fixed_document_kept h tx : preserves (document_kept h) (dispatch keccak256 tx).
Proof.
  unfold dispatch. destruct (call tx); try solve [frame].
  apply preserves_bind; [eauto with preserve| |intros ?; eauto with preserve].
  apply registerDocument_fixed_document_kept.
Qed.

Lemma apply_all_fixed_document_kept h txs s : document_kept h s (apply_all keccak256 txs s).
Proof.
  revert s. induction txs as [|tx txs IH]; intros s; cbn.
  - apply fixed_document_kept_refl.
  - eapply fixed_document_kept_trans; [|apply IH].
    unfold apply. apply (transact_preserves (document_kept h));
      [apply fixed_document_kept_refl | apply dispatch_fixed_document_kept].
Qed.

(** *** What the calls do to the money *)

(** A verification that succeeds moves no ether and, when the
    distribution is still to come, finds the pool filled and credits one
    share to each inheritor. *)
Lemma verifyDocument_funds sender now h s tr a s' tr' :
  verifyDocument sender now h (s, tr) = Ok (a, (s', tr')) ->
  invariant s ->
  this_balance s' = this_balance s
  /\ allDocumentHashes s' = allDocumentHashes s
  /\ totalDocuments s' = totalDocuments s
  /\ (isInheritanceDistributed s = false ->
      10000000000 <= this_balance s
      /\ forall x, (balances s').[x] =
           if (x =? wallet (overseasInheritor s)) || (x =? wallet (domesticInheritor s))
           then SHARE_AMOUNT else 0).
Proof.
  intros Hrun [Hw Hidx Hver Hpend Hfirst]. exec_in Hrun.
  do 3 branch Hrun.
  apply N.eqb_eq in E. apply negb_true_iff in E0, E1. apply N.eqb_neq in E0.
  cbn in Hrun.
  destruct (isInheritanceDistributed s) eqn:Hflag; cbn in Hrun.
  - inversion Hrun; subst. cbn. repeat split; discriminate.
  - destruct (Hpend eq_refl) as (_ & Ho & Hd & Hzero).
    rewrite (hasVerifiedDocument_found _ _ h) in Hrun;
      [|auto|now rewrite read_insert_eq].
    cbn in Hrun. rewrite Hflag in Hrun. cbn in Hrun. branch Hrun. cbn in Hrun.
    rewrite Ho in Hrun. cbn in Hrun.
    rewrite (Hzero _), share_fits in Hrun. cbn in Hrun.
    rewrite Hd in Hrun. cbn in Hrun. rewrite read_insert_ne in Hrun by exact Hw.
    rewrite (Hzero _), share_fits in Hrun. cbn in Hrun.
    inversion Hrun; subst. cbn. clear Hrun.
    do 3 (split; [reflexivity|]). intros _. split; [now apply N.leb_le|].
    intros x. rewrite !read_insert.
    destruct (N.eqb_spec x (wallet (overseasInheritor s))) as [Ho'|Hno];
      destruct (N.eqb_spec x (wallet (domesticInheritor s))) as [Hd'|Hnd];
      repeat case_decide; try congruence; try reflexivity; cbn; auto.
Qed.

(** What each kind of transaction does to the money, the flag and the
    index when it succeeds. *)
Lemma dispatch_effect tx s r s' tr' :
  run (dispatch keccak256 tx) s = Ok (r, (s', tr')) ->
  invariant s ->
  match call tx with
  | RegisterDocument content _ =>
      balances s' = balances s /\ this_balance s' = this_balance s
      /\ isInheritanceDistributed s' = isInheritanceDistributed s
      /\ allDocumentHashes s' = allDocumentHashes s ++ [keccak256 content]
      /\ totalDocuments s' = totalDocuments s + 1
  | VerifyDocument h =>
      msg_sender tx = bankAddress s
      /\ documentHash (documents s).[h] ≠ 0
      /\ this_balance s' = this_balance s
      /\ isInheritanceDistributed s' = true
      /\ allDocumentHashes s' = allDocumentHashes s
      /\ totalDocuments s' = totalDocuments s
      /\ (isInheritanceDistributed s = true -> balances s' = balances s)
      /\ (isInheritanceDistributed s = false ->
          10000000000 <= this_balance s
          /\ forall x, (balances s').[x] =
               if (x =? wallet (overseasInheritor s)) || (x =? wallet (domesticInheritor s))
               then SHARE_AMOUNT else 0)
  | Deposit value | Receive value =>
      balances s' = balances s /\ this_balance s' = this_balance s + value
      /\ isInheritanceDistributed s' = isInheritanceDistributed s
      /\ allDocumentHashes s' = allDocumentHashes s
      /\ totalDocuments s' = totalDocuments s
  | Withdraw accepts =>
      (msg_sender tx = wallet (overseasInheritor s)
       \/ msg_sender tx = wallet (domesticInheritor s))
      /\ 0 < (balances s).[msg_sender tx]
      /\ (balances s).[msg_sender tx] <= this_balance s
      /\ accepts = true
      /\ balances s' = <[msg_sender tx := 0]> (balances s)
      /\ this_balance s' = this_balance s - (balances s).[msg_sender tx]
      /\ isInheritanceDistributed s' = isInheritanceDistributed s
      /\ allDocumentHashes s' = allDocumentHashes s
      /\ totalDocuments s' = totalDocuments s
  end.
Proof.
  intros Hrun Hinv. unfold dispatch in Hrun.
  destruct (call tx) as [content type|h|value|value|accepts].
  - exec_in Hrun. do 2 branch Hrun. inversion Hrun; subst. cbn. repeat split.
  - destruct (verifyDocument_success _ _ _ _ _ _ _ _ Hrun Hinv)
      as (Hbank & Hexists & _ & _ & _ & _ & Hflag & Hsame).
    destruct (verifyDocument_funds _ _ _ _ _ _ _ _ Hrun Hinv) as (Hether & Hlist & Hcount & Hpaid).
    repeat split; auto; now apply Hpaid.
  - exec_in Hrun. branch Hrun. inversion Hrun; subst. cbn. repeat split.
  - exec_in Hrun. inversion Hrun; subst. cbn. repeat split.
  - exec_in Hrun. do 3 branch Hrun. inversion Hrun; subst. cbn in *.
    apply orb_prop in E. apply N.ltb_lt in E0. apply andb_prop in E1 as [Hheld Haccepts].
    apply N.leb_le in Hheld.
    repeat split; auto. destruct E as [E|E]; apply N.eqb_eq in E; auto.
Qed.

(** *** The accounts *)

Lemma dispatch_accounts tx s r s' tr' :
  run (dispatch keccak256 tx) s = Ok (r, (s', tr')) ->
  invariant s -> accounts s -> accounts s'.
Proof.
  intros Hrun Hinv [Hparties Hbacked Hshares Hothers Hcount].
  destruct (dispatch_parties_same tx _ _ _ _ _ Hrun) as ((Hb & Ho & Hd) & _).
  pose proof (inv_wallets _ Hinv) as Hw.
  pose proof (dispatch_effect _ _ _ _ _ Hrun Hinv) as Heffect.
  unfold owed in *.
  destruct (call tx) as [content type|h|value|value|accepts].
  - destruct Heffect as (Hbal & Hether & _ & Hlist & Hnum).
    split; rewrite ?Hb, ?Ho, ?Hd, ?Hbal, ?Hether, ?Hlist, ?Hnum; unfold owed; auto.
    + rewrite Ho, Hd, Hbal. exact Hbacked.
    + rewrite length_app. cbn. lia.
  - destruct Heffect as (_ & _ & Hether & _ & Hlist & Hnum & Hsame & Hpaid).
    destruct (isInheritanceDistributed s) eqn:Hflag.
    + specialize (Hsame eq_refl).
      split; rewrite ?Hb, ?Ho, ?Hd, ?Hsame, ?Hether, ?Hlist, ?Hnum; unfold owed; auto.
      rewrite Ho, Hd, Hsame. exact Hbacked.
    + destruct (Hpaid eq_refl) as (Hpool & Hcredit).
      split; rewrite ?Hb, ?Ho, ?Hd, ?Hether, ?Hlist, ?Hnum; unfold owed; auto.
      * rewrite Ho, Hd, !Hcredit, !N.eqb_refl, orb_true_r. cbn [orb].
        unfold SHARE_AMOUNT. lia.
      * intros x. rewrite Hcredit. destruct (_ || _); auto.
      * intros x Hxo Hxd. rewrite Hcredit.
        apply N.eqb_neq in Hxo, Hxd. now rewrite Hxo, Hxd.
  - destruct Heffect as (Hbal & Hether & _ & Hlist & Hnum).
    split; rewrite ?Hb, ?Ho, ?Hd, ?Hbal, ?Hether, ?Hlist, ?Hnum; unfold owed; auto.
    rewrite Ho, Hd, Hbal. lia.
  - destruct Heffect as (Hbal & Hether & _ & Hlist & Hnum).
    split; rewrite ?Hb, ?Ho, ?Hd, ?Hbal, ?Hether, ?Hlist, ?Hnum; unfold owed; auto.
    rewrite Ho, Hd, Hbal. lia.
  - destruct Heffect as (Hwho & Hpos & Hheld & _ & Hbal & Hether & _ & Hlist & Hnum).
    split; rewrite ?Hb, ?Ho, ?Hd, ?Hether, ?Hlist, ?Hnum; unfold owed; auto.
    + rewrite Ho, Hd, Hbal, !read_insert.
      destruct Hwho as [Hwho|Hwho]; rewrite Hwho in *; repeat case_decide; try congruence; lia.
    + intros x. rewrite Hbal, read_insert. case_decide; auto.
    + intros x Hxo Hxd. rewrite Hbal, read_insert. case_decide; auto.
Qed.

Lemma reachable_accounts s : reachable keccak256 s -> accounts s.
Proof.
  induction 1 as [overseas domestic bank s Hinit|tx s Hreach IH].
  - unfold constructor in Hinit.
    destruct (N.eqb_spec overseas 0); [discriminate|].
    destruct (N.eqb_spec domestic 0); [discriminate|].
    destruct (N.eqb_spec bank 0); [discriminate|].
    destruct (overseas =? domestic); [discriminate|].
    inversion Hinit; subst. split; unfold owed; cbn; auto.
  - unfold apply, transact.
    destruct (run (dispatch keccak256 tx) s) as [[r [s' tr']]|] eqn:Hrun; [|exact IH].
    cbn [fst]. eapply dispatch_accounts; eauto. now apply (reachable_invariant keccak256).
Qed.

(** *** The parties *)

(** X20: in every state the contract can be in, the two inheritors and
    the bank are set, the inheritors differ, and whatever transactions
    follow, the bank and the two wallets stay the same. *)
Theorem parties_are_fixed (st : State) (txs : list Tx) :
  reachable keccak256 st ->
  wallet (overseasInheritor st) ≠ 0
  /\ wallet (domesticInheritor st) ≠ 0
  /\ bankAddress st ≠ 0
  /\ wallet (overseasInheritor st) ≠ wallet (domesticInheritor st)
  /\ bankAddress (apply_all keccak256 txs st) = bankAddress st
  /\ wallet (overseasInheritor (apply_all keccak256 txs st)) = wallet (overseasInheritor st)
  /\ wallet (domesticInheritor (apply_all keccak256 txs st)) = wallet (domesticInheritor st).
Proof.
  intros Hreach.
  destruct (acc_parties _ (reachable_accounts _ Hreach)) as (Ho & Hd & Hb).
  pose proof (inv_wallets _ (reachable_invariant keccak256 _ Hreach)) as Hw.
  destruct (apply_all_parties_same txs st) as (Hb' & Ho' & Hd').
  repeat split; assumption.
Qed.

(** *** Verification *)

(** X21: in this contract the caller is checked first: verifyDocument
    from anyone but the bank fails with the bank-only message whether or
    not the document exists; from the bank it fails on a hash no
    document is stored under, and on a verified document. *)
Theorem verifyDocument_fixed_refusals (st : State) (sender now h : N) :
  (sender ≠ bankAddress st ->
     run (verifyDocument sender now h) st = Err (Revert "Only bank can call this function"))
  /\ (documentHash (documents st).[h] = 0 ->
     run (verifyDocument (bankAddress st) now h) st = Err (Revert "Document does not exist"))
  /\ (documentHash (documents st).[h] ≠ 0 -> isVerified (documents st).[h] = true ->
     run (verifyDocument (bankAddress st) now h) st = Err (Revert "Document already verified")).
Proof.
  split; [|split].
  - intros Hsender. apply N.eqb_neq in Hsender. exec. now rewrite Hsender.
  - intros Habsent. exec. rewrite N.eqb_refl. cbn. now rewrite Habsent.
  - intros Hexists Hv. apply N.eqb_neq in Hexists.
    exec. rewrite N.eqb_refl. cbn. rewrite Hexists. cbn. now rewrite Hv.
Qed.

(** X22: in every state the contract can be in, a transaction that turns
    the distributed flag on is a verifyDocument sent by the bank on a
    stored document, it found at least 10,000,000,000 in the pool, and
    it leaves each inheritor with a balance of one share and everybody
    else with none. *)
Theorem distribution_needs_the_bank (st : State) (tx : Tx) :
  reachable keccak256 st ->
  isInheritanceDistributed st = false ->
  isInheritanceDistributed (apply keccak256 tx st) = true ->
  msg_sender tx = bankAddress st
  /\ (exists h, call tx = VerifyDocument h /\ documentHash (documents st).[h] ≠ 0)
  /\ 10000000000 <= this_balance st
  /\ (balances (apply keccak256 tx st)).[wallet (overseasInheritor st)] = SHARE_AMOUNT
  /\ (balances (apply keccak256 tx st)).[wallet (domesticInheritor st)] = SHARE_AMOUNT
  /\ (forall a, a ≠ wallet (overseasInheritor st) -> a ≠ wallet (domesticInheritor st) ->
        (balances (apply keccak256 tx st)).[a] = 0).
Proof.
  intros Hreach Hclear. pose proof (reachable_invariant keccak256 _ Hreach) as Hinv.
  unfold apply, transact.
  destruct (run (dispatch keccak256 tx) st) as [[r [s' tr']]|] eqn:Hrun; cbn [fst];
    [|congruence].
  pose proof (dispatch_effect _ _ _ _ _ Hrun Hinv) as Heffect. intros Hset.
  destruct (call tx) as [content type|h|value|value|accepts].
  - destruct Heffect as (_ & _ & Hflag & _). congruence.
  - destruct Heffect as (Hbank & Hexists & _ & _ & _ & _ & _ & Hpaid).
    destruct (Hpaid Hclear) as (Hpool & Hcredit).
    split; [exact Hbank|]. split; [eauto|]. split; [exact Hpool|].
    rewrite !Hcredit, !N.eqb_refl, orb_true_r. cbn [orb].
    do 2 (split; [reflexivity|]).
    intros a Ho Hd. rewrite Hcredit. apply N.eqb_neq in Ho, Hd. now rewrite Ho, Hd.
  - destruct Heffect as (_ & _ & Hflag & _). congruence.
  - destruct Heffect as (_ & _ & Hflag & _). congruence.
  - destruct Heffect as (_ & _ & _ & _ & _ & _ & Hflag & _). congruence.
Qed.

(** *** The money *)

(** X23: in every state the contract can be in, what the two inheritors
    are owed is held in ether, every balance is nothing or exactly one
    share of 5,000,000,000, and nobody but the two inheritors has a
    balance. *)
Theorem inheritors_are_backed (st : State) :
  reachable keccak256 st ->
  owed st <= this_balance st
  /\ (forall a, (balances st).[a] = 0 \/ (balances st).[a] = 5000000000)
  /\ (forall a, a ≠ wallet (overseasInheritor st) -> a ≠ wallet (domesticInheritor st) ->
        (balances st).[a] = 0).
Proof.
  intros Hreach. destruct (reachable_accounts _ Hreach) as [_ Hbacked Hshares Hothers _].
  auto.
Qed.

(** X24: in every state the contract can be in, withdraw fails for a
    caller other than the two inheritors and for an inheritor with no
    balance; an inheritor with a balance is never refused for lack of
    ether: when the transfer is accepted the whole balance, one share,
    is sent, the balance being stored as zero before the call is made,
    and when the transfer is refused the call fails and nothing, the
    balance included, changes. *)
Theorem withdraw_fixed_outcome (st : State) (sender now : N) (accepts : bool) :
  reachable keccak256 st ->
  (sender ≠ wallet (overseasInheritor st) -> sender ≠ wallet (domesticInheritor st) ->
     run (withdraw sender now accepts) st = Err (Revert "Only inheritors can withdraw"))
  /\ (sender = wallet (overseasInheritor st) \/ sender = wallet (domesticInheritor st) ->
      ((balances st).[sender] = 0 ->
         run (withdraw sender now accepts) st = Err (Revert "No balance to withdraw"))
      /\ (0 < (balances st).[sender] -> accepts = false ->
         run (withdraw sender now accepts) st = Err (Revert "Transfer failed")
         /\ transact (withdraw sender now accepts) st = st)
      /\ (0 < (balances st).[sender] -> accepts = true ->
         exists st' zeroed,
           run (withdraw sender now accepts) st =
             Ok (tt, (st', [SStore zeroed; ExtCall sender SHARE_AMOUNT zeroed;
                            Log (Released sender SHARE_AMOUNT now)]))
           /\ (balances zeroed).[sender] = 0
           /\ this_balance zeroed = this_balance st
           /\ (balances st').[sender] = 0
           /\ this_balance st' = this_balance st - SHARE_AMOUNT
           /\ (forall a, a ≠ sender -> (balances st').[a] = (balances st).[a]))).
Proof.
  intros Hreach. destruct (reachable_accounts _ Hreach) as [_ Hbacked Hshares _ _].
  split.
  - intros Ho Hd. apply N.eqb_neq in Ho, Hd. exec. now rewrite Ho, Hd.
  - intros Hwho.
    assert (Hwho' : (sender =? wallet (overseasInheritor st))
                    || (sender =? wallet (domesticInheritor st)) = true).
    { apply orb_true_iff. destruct Hwho as [->| ->]; rewrite N.eqb_refl; auto. }
    assert (Hshare : 0 < (balances st).[sender] ->
              (balances st).[sender] = SHARE_AMOUNT /\ SHARE_AMOUNT <= this_balance st).
    { intros Hpos. destruct (Hshares sender) as [Hzero|Hone]; [lia|].
      split; [exact Hone|]. unfold owed in Hbacked.
      destruct Hwho as [Heq|Heq]; rewrite Heq in Hone; lia. }
    split; [|split].
    + intros Hzero. exec. rewrite Hwho'. cbn. now rewrite Hzero.
    + intros Hpos ->. destruct (Hshare Hpos) as (Hone & Hheld).
      apply N.ltb_lt in Hpos.
      assert (Hrun : run (withdraw sender now false) st = Err (Revert "Transfer failed")).
      { exec. rewrite Hwho'. cbn. rewrite Hpos. cbn. now rewrite andb_false_r. }
      split; [exact Hrun|]. unfold transact. now rewrite Hrun.
    + intros Hpos ->. destruct (Hshare Hpos) as (Hone & Hheld).
      apply N.ltb_lt in Hpos. apply N.leb_le in Hheld.
      eexists. eexists. split.
      { exec. rewrite Hwho'. cbn. rewrite Hpos. cbn. rewrite Hone, Hheld. reflexivity. }
      cbn. rewrite read_insert_eq. repeat split.
      intros a Ha. now apply read_insert_ne.
Qed.

(** X25: once the distribution is done, the ether held beyond what the
    two inheritors are owed never shrinks, whatever transactions follow:
    what is deposited or received from then on, and whatever the pool
    held above 10,000,000,000, can be withdrawn by nobody. *)
Theorem surplus_is_locked (st : State) (txs : list Tx) :
  reachable keccak256 st ->
  isInheritanceDistributed st = true ->
  owed (apply_all keccak256 txs st) <= this_balance (apply_all keccak256 txs st)
  /\ this_balance st - owed st <=
     this_balance (apply_all keccak256 txs st) - owed (apply_all keccak256 txs st).
Proof.
  intros Hreach Hflag.
  split; [apply reachable_accounts; now apply reachable_apply_all_fixed|].
  revert st Hreach Hflag. induction txs as [|tx txs IH]; intros st Hreach Hflag; cbn; [lia|].
  assert (Hstep : isInheritanceDistributed (apply keccak256 tx st) = true
                  /\ this_balance st - owed st <=
                     this_balance (apply keccak256 tx st) - owed (apply keccak256 tx st)).
  { pose proof (reachable_invariant keccak256 _ Hreach) as Hinv.
    pose proof (acc_backed _ (reachable_accounts _ Hreach)) as Hbacked.
    pose proof (inv_wallets _ Hinv) as Hw.
    destruct (apply_parties_same tx st) as (_ & Ho & Hd).
    unfold owed in *. rewrite Ho, Hd. clear Ho Hd.
    unfold apply, transact.
    destruct (run (dispatch keccak256 tx) st) as [[r [s' tr']]|] eqn:Hrun; cbn [fst];
      [|split; [exact Hflag|lia]].
    pose proof (dispatch_effect _ _ _ _ _ Hrun Hinv) as Heffect.
    destruct (call tx) as [content type|h|value|value|accepts].
    - destruct Heffect as (-> & -> & -> & _). split; [exact Hflag|lia].
    - destruct Heffect as (_ & _ & -> & -> & _ & _ & Hsame & _).
      rewrite (Hsame Hflag). split; [reflexivity|lia].
    - destruct Heffect as (-> & -> & -> & _). split; [exact Hflag|lia].
    - destruct Heffect as (-> & -> & -> & _). split; [exact Hflag|lia].
    - destruct Heffect as (Hwho & Hpos & Hheld & _ & -> & -> & -> & _).
      split; [exact Hflag|]. rewrite !read_insert.
      destruct Hwho as [Hwho|Hwho]; rewrite Hwho in *; repeat case_decide;
        try congruence; lia. }
  destruct Hstep as (Hflag' & Hstep).
  etransitivity; [exact Hstep|]. apply IH; [now constructor|exact Hflag'].
Qed.

(** *** The registry *)

(** X26: here a document exists when the hash stored in it is not zero.
    Registering content whose hash is not zero and which no document
    exists for returns the hash and stores a document that getDocument
    reads back, unverified, with the caller as owner; the hash is
    appended to the list of all hashes, the counter grows by one and no
    balance changes; and whatever transactions follow, registering the
    same content again fails. *)
Theorem registerDocument_fixed_round_trip (st : State) (sender now : N) (content type : string) :
  keccak256 content ≠ 0 ->
  documentHash (documents st).[keccak256 content] = 0 ->
  totalDocuments st < MAX_UINT256 ->
  exists st' tr,
    run (registerDocument keccak256 sender now content type) st =
      Ok (keccak256 content, (st', tr))
    /\ run (getDocument (keccak256 content)) st' =
         Ok ({| documentHash := keccak256 content; owner := sender; timestamp := now;
                isVerified := false; documentType := type |}, (st', []))
    /\ allDocumentHashes st' = allDocumentHashes st ++ [keccak256 content]
    /\ totalDocuments st' = totalDocuments st + 1
    /\ balances st' = balances st
    /\ (forall txs sender' now' type',
          run (registerDocument keccak256 sender' now' content type')
              (apply_all keccak256 txs st') = Err (Revert "Document already exists")).
Proof.
  intros Hhash Hfree Hroom.
  assert (Hfits : (totalDocuments st + 1 <=? MAX_UINT256) = true) by (apply N.leb_le; lia).
  apply N.eqb_neq in Hhash.
  eexists. eexists. split.
  { exec. rewrite Hfree. cbn. rewrite Hfits. reflexivity. }
  split.
  { unfold getDocument. exec. cbn. rewrite read_insert_eq. cbn. now rewrite Hhash. }
  do 3 (split; [reflexivity|]).
  intros txs sender' now' type'. exec.
  match goal with |- context [apply_all _ txs ?s] =>
    destruct (apply_all_fixed_document_kept (keccak256 content) txs s) as (Hlater & _)
  end.
  { cbn. rewrite read_insert_eq. cbn. now apply N.eqb_neq. }
  rewrite Hlater. cbn. rewrite read_insert_eq. cbn. now rewrite Hhash.
Qed.

(** X27: in every state the contract can be in, the counter of documents
    is the length of the list of hashes, so getDocumentByIndex never
    meets the bounds check of the array: below the counter it returns
    the document stored under the hash at that index, changing nothing,
    and from the counter on it fails with the message of its own
    check. *)
Theorem getDocumentByIndex_fixed_in_range (st : State) (index : N) :
  reachable keccak256 st ->
  totalDocuments st = N.of_nat (length (allDocumentHashes st))
  /\ (index < totalDocuments st ->
      exists h, allDocumentHashes st !! N.to_nat index = Some h
        /\ run (getDocumentByIndex index) st = Ok ((documents st).[h], (st, [])))
  /\ (totalDocuments st <= index ->
      run (getDocumentByIndex index) st = Err (Revert "Index out of bounds")).
Proof.
  intros Hreach. pose proof (acc_count _ (reachable_accounts _ Hreach)) as Hcount.
  split; [exact Hcount|]. split.
  - intros Hlt.
    destruct (lookup_lt_is_Some_2 (allDocumentHashes st) (N.to_nat index)) as [h Hh]; [lia|].
    exists h. split; [exact Hh|]. apply N.ltb_lt in Hlt.
    unfold getDocumentByIndex. exec. rewrite Hlt. cbn. now rewrite Hh.
  - intros Hge. apply N.ltb_ge in Hge. unfold getDocumentByIndex. exec. now rewrite Hge.
Qed.

End Funds.
End FixedSplitFunds.

(** ** The display helpers of the web client *)

Module WebFacts.
Import Web.








End WebFacts.

(** * The theorems on concrete runs *)

Module LedgerRuns.
Import InheritanceAutomation Scenario Scenario.Ledger LedgerFacts.

Lemma fresh_reachable : reachable length_hash fresh.
Proof. now apply (reachable_deployed length_hash 1). Qed.

Lemma run_reachable txs : reachable length_hash (apply_all length_hash txs fresh).
Proof. apply reachable_apply_all, fresh_reachable. Qed.

(** C1 at a failing run: the case is created, then its only document is
    verified by the bank, so that every document the case refers to is
    verified in the registry; distributeAssets nevertheless fails with
    NotAllVerified, "All documents must be verified". *)
Theorem distributeAssets_ignores_later_verification :
  run (verifyDocument 1 13 doc_A)
      (apply_all length_hash [register_A; create_case; fund_case] fresh) =
    Ok (tt, (verified_late,
             trace_of (verifyDocument 1 13 doc_A)
               (apply_all length_hash [register_A; create_case; fund_case] fresh)))
  /\ Forall (fun d => isVerified (documents verified_late).[documentHash d] = true)
       (caseDocuments (inheritanceCases verified_late).[7])
  /\ run (distributeAssets 14 7) verified_late = Err NotAllVerified.
Proof.
  split; [vm_compute; reflexivity|]. split; [|vm_compute; reflexivity].
  repeat constructor.
Qed.

(** The snapshot lemma on the same run: the document was unverified when
    the case was created, so the distribution is refused. *)
Lemma distributeAssets_reads_snapshot_example :
  run (distributeAssets 14 7) (apply_all length_hash [fund_case; verify_A] created_early) =
    Err NotAllVerified
  <-> exists h, In h [doc_A] /\ isVerified (documents registered).[h] = false.
Proof.
  apply (distributeAssets_reads_snapshot length_hash registered created_early
           (trace_of (createInheritanceCase 2 11 7 [doc_A] [20; 21] [70; 30]) registered)
           2 11 7 [doc_A] [20; 21] [70; 30]
           (run_reachable [register_A])) with (txs := [fund_case; verify_A]).
  - discriminate.
  - vm_compute. reflexivity.
  - vm_compute. reflexivity.
  - vm_compute. reflexivity.
  - vm_compute. reflexivity.
Qed.

(** C2 on a pool of 1000 with shares 70 and 30. *)
Lemma distributeAssets_payout_witness :
  run (distributeAssets 14 7) ready =
    Ok (tt, (distributed, trace_of (distributeAssets 14 7) ready))
  /\ total_share (inheritors (inheritanceCases ready).[7]) = 100
  /\ (balances distributed).[20] = (balances ready).[20] + 700
  /\ (balances distributed).[21] = (balances ready).[21] + 300
  /\ total_paid 1000 (inheritors (inheritanceCases ready).[7]) <= 1000.
Proof.
  assert (Hrun : run (distributeAssets 14 7) ready =
    Ok (tt, (distributed, trace_of (distributeAssets 14 7) ready))) by (vm_compute; reflexivity).
  assert (Hshares : total_share (inheritors (inheritanceCases ready).[7]) = 100)
    by (vm_compute; reflexivity).
  destruct (distributeAssets_payout 14 7 ready distributed _ Hrun Hshares)
    as (_ & _ & _ & Hcredit & Hsum).
  split; [exact Hrun|]. split; [exact Hshares|].
  split; [exact (Hcredit 20)|]. split; [exact (Hcredit 21)|exact Hsum].
Defined.

(** C3 on the same run: after the distribution a deposit and a second
    attempt. *)
Lemma distributeAssets_once_witness :
  isDistributed (inheritanceCases ready).[7] = false
  /\ isDistributed (inheritanceCases distributed).[7] = true
  /\ run (distributeAssets 16 7) (apply_all length_hash [fund_case] distributed) =
       Err AlreadyDistributed.
Proof.
  assert (Hrun : run (distributeAssets 14 7) ready =
    Ok (tt, (distributed, trace_of (distributeAssets 14 7) ready))) by (vm_compute; reflexivity).
  destruct (distributeAssets_once length_hash 14 7 ready distributed _ Hrun)
    as (Hclear & Hset & _ & Hlater).
  split; [exact Hclear|]. split; [exact Hset|].
  exact (proj2 (Hlater [fund_case] 16)).
Defined.

(** C5 fails as stated: a caller other than the bank, on a hash no
    document has, is answered NotFound, not Unauthorized. *)
Lemma verifyDocument_unauthorized_counterexample :
  2 ≠ bankAddress fresh
  /\ timestamp (documents fresh).[5] = 0
  /\ run (verifyDocument 2 13 5) fresh = Err NotFound_document
  /\ NotFound_document ≠ Unauthorized.
Proof. repeat split; discriminate. Qed.

(** On a registered document the same caller is answered Unauthorized. *)
Lemma verifyDocument_non_bank_witness :
  run (verifyDocument 2 13 doc_A) registered = Err Unauthorized
  /\ transact (verifyDocument 2 13 doc_A) registered = registered.
Proof.
  apply (verifyDocument_non_bank registered 2 13 doc_A).
  vm_compute. discriminate.
Defined.

(** C6 on the funded run: the depositor, credited 1000, asks for 2000,
    then for 400 with the recipient refusing and accepting. *)
Lemma withdraw_outcome_witness :
  run (withdraw 3 20 true 2000) ready = Err InsufficientFunds
  /\ run (withdraw 3 20 false 400) ready = Err TransferFailure
  /\ transact (withdraw 3 20 false 400) ready = ready
  /\ exists st' pre debited post,
       run (withdraw 3 20 true 400) ready =
         Ok (tt, (st', pre ++ ExtCall 3 400 debited :: post))
       /\ In (SStore debited) pre
       /\ (balances debited).[3] = 600.
Proof.
  destruct (withdraw_outcome length_hash ready 3 20 2000 true (run_reachable _))
    as (Hmore & _ & _).
  destruct (withdraw_outcome length_hash ready 3 20 400 false (run_reachable _))
    as (_ & Hrefused & _).
  destruct (withdraw_outcome length_hash ready 3 20 400 true (run_reachable _))
    as (_ & _ & Hsent).
  split; [apply Hmore; vm_compute; reflexivity|].
  split; [apply Hrefused; vm_compute; [discriminate|reflexivity]|].
  split; [apply Hrefused; vm_compute; [discriminate|reflexivity]|].
  destruct Hsent as (st' & pre & debited & post & Hrun & Hpre & Hdebit & _);
    [vm_compute; discriminate|vm_compute; reflexivity|].
  exists st', pre, debited, post. split; [exact Hrun|]. split; [exact Hpre|].
  exact Hdebit.
Defined.

(** C7 fails as stated: with a referenced document absent and shares
    60 and 30 the request is answered InvariantViolation, not NotFound;
    and shares that overflow uint256 are answered by an arithmetic
    panic, not InvariantViolation. *)
Lemma createInheritanceCase_order_counterexample :
  timestamp (documents fresh).[5] = 0
  /\ run (createInheritanceCase 2 11 7 [5] [20; 21] [60; 30]) fresh = Err InvariantViolation
  /\ InvariantViolation ≠ NotFound_referenced
  /\ sum_of [MAX_UINT256; 1] ≠ 100
  /\ run (createInheritanceCase 2 11 7 [doc_A] [20; 21] [MAX_UINT256; 1]) registered =
       Err (Panic ARITHMETIC_OVERFLOW)
  /\ Panic ARITHMETIC_OVERFLOW ≠ InvariantViolation.
Proof. repeat split; vm_compute; discriminate. Qed.

(** Shares 60 and 30 are rejected, 60 and 40 accepted. *)
Lemma createInheritanceCase_outcome_witness :
  run (createInheritanceCase 2 11 7 [doc_A] [20; 21] [60; 30]) registered =
    Err InvariantViolation
  /\ exists st' tr,
       run (createInheritanceCase 2 11 7 [doc_A] [20; 21] [60; 40]) registered =
         Ok (tt, (st', tr))
       /\ createdAt (inheritanceCases st').[7] = 11.
Proof.
  destruct (createInheritanceCase_outcome registered 2 11 7 [doc_A] [20; 21] [60; 30])
    as (_ & Hfresh & _).
  destruct (Hfresh eq_refl) as (_ & _ & _ & Hchecked).
  destruct Hchecked as (_ & Hsum & _); [discriminate|reflexivity|discriminate|].
  split; [apply Hsum; vm_compute; discriminate|].
  destruct (createInheritanceCase_outcome registered 2 11 7 [doc_A] [20; 21] [60; 40])
    as (_ & Hfresh' & _).
  destruct (Hfresh' eq_refl) as (_ & _ & _ & Hchecked').
  destruct Hchecked' as (_ & _ & _ & Hok); [discriminate|reflexivity|discriminate|].
  destruct Hok as (st' & tr & Hrun & Hcreated & _).
  - reflexivity.
  - repeat constructor. vm_compute. discriminate.
  - vm_compute. reflexivity.
  - exists st', tr. split; [exact Hrun|exact Hcreated].
Defined.

(** C8 fails as stated: a deposit of zero to an absent case is answered
    InvalidInput, not NotFound. *)
Lemma deposit_order_counterexample :
  createdAt (inheritanceCases fresh).[7] = 0
  /\ run (deposit 3 12 0 7) fresh = Err InvalidInput_amount
  /\ InvalidInput_amount ≠ NotFound_case.
Proof. repeat split; discriminate. Qed.

(** A deposit of 1000 to the case of the run. *)
Lemma deposit_outcome_witness :
  run (deposit 3 12 1000 9) created_early = Err NotFound_case
  /\ exists st' tr,
       run (deposit 3 12 1000 7) created_early = Ok (tt, (st', tr))
       /\ totalAmount (inheritanceCases st').[7] =
            totalAmount (inheritanceCases created_early).[7] + 1000
       /\ (balances st').[3] = (balances created_early).[3] + 1000.
Proof.
  destruct (deposit_outcome created_early 3 12 1000 9) as (_ & Habsent & _).
  destruct (deposit_outcome created_early 3 12 1000 7) as (_ & _ & Hexists & _).
  split; [apply Habsent; reflexivity|].
  destruct Hexists as (st' & tr & Hrun & Htotal & Hbalance & _).
  - reflexivity.
  - vm_compute. discriminate.
  - vm_compute. discriminate.
  - vm_compute. discriminate.
  - exists st', tr. split; [exact Hrun|]. split; [exact Htotal|exact Hbalance].
Defined.
End LedgerRuns.

Module FixedSplitRuns.
Import SimpleInheritance Scenario Scenario.FixedSplit FixedSplitFacts.

Lemma fresh_reachable_fixed : reachable length_hash fresh.
Proof. now apply (reachable_deployed length_hash 20 21 1). Qed.

Lemma run_reachable_fixed txs : reachable length_hash (apply_all length_hash txs fresh).
Proof. apply reachable_apply_all_fixed, fresh_reachable_fixed. Qed.

(** C10 on an unfunded pool. *)
Lemma verifyDocument_needs_funded_pool_witness :
  run (verifyDocument 1 12 doc_A) unfunded = Err (Revert "Insufficient balance")
  /\ transact (verifyDocument 1 12 doc_A) unfunded = unfunded
  /\ forall h', isVerified (documents unfunded).[h'] = false.
Proof.
  apply (verifyDocument_needs_funded_pool length_hash unfunded 12 doc_A (run_reachable_fixed _)).
  - reflexivity.
  - reflexivity.
  - vm_compute. discriminate.
  - reflexivity.
Defined.

(** C4 on a pool of exactly 10,000,000,000. *)
Lemma first_verification_distributes_witness :
  exists st' tr,
    run (verifyDocument 1 12 doc_A) funded = Ok (tt, (st', tr))
    /\ (balances st').[20] = (balances funded).[20] + 5000000000
    /\ (balances st').[21] = (balances funded).[21] + 5000000000
    /\ isInheritanceDistributed st' = true.
Proof.
  destruct (first_verification_distributes length_hash funded 12 doc_A (run_reachable_fixed _))
    as (st' & tr & Hrun & Ho & Hd & _ & Hflag & _).
  - destruct (reachable_invariant length_hash funded (run_reachable_fixed _)) as [_ _ _ Hpending _].
    now apply Hpending.
  - vm_compute. discriminate.
  - vm_compute. discriminate.
  - exists st', tr. split; [exact Hrun|]. split; [exact Ho|]. split; [exact Hd|exact Hflag].
Defined.
End FixedSplitRuns.

Module LedgerRegistryRuns.
Import InheritanceAutomation Scenario Scenario.Ledger LedgerFacts LedgerRegistry.

Lemma ledger_run_reachable txs : reachable length_hash (apply_all length_hash txs fresh).
Proof. apply reachable_apply_all. now apply (reachable_deployed length_hash 1). Qed.

(** X1 on the first registration of the run; the same content is then
    refused to another caller after the bank's verification. *)
Lemma registerDocument_round_trip_witness :
  exists st' tr,
    run (registerDocument length_hash 2 10 "doc-A" "inheritance") fresh =
      Ok (length_hash "doc-A", (st', tr))
    /\ run (getDocument (length_hash "doc-A")) st' =
         Ok ({| documentHash := length_hash "doc-A"; owner := 2; timestamp := 10;
                isVerified := false; documentType := "inheritance";
                encryptedData := EmptyString; bankPublicKey := EmptyString |}, (st', []))
    /\ run (registerDocument length_hash 3 20 "doc-A" "will")
           (apply_all length_hash [verify_A] st') = Err AlreadyExists_document.
Proof.
  destruct (registerDocument_round_trip length_hash fresh 2 10 "doc-A" "inheritance")
    as (st' & tr & Hrun & Hget & _ & _ & _ & _ & _ & Hagain).
  - reflexivity.
  - reflexivity.
  - discriminate.
  - exists st', tr. split; [exact Hrun|]. split; [exact Hget|]. apply Hagain.
Defined.

(** X2 on the registered document, through the creation and funding of
    the case and the verification. *)
Lemma document_identity_is_permanent_witness :
  owner (documents (apply_all length_hash [create_case; fund_case; verify_A] registered)).[doc_A] =
    owner (documents registered).[doc_A]
  /\ present (apply_all length_hash [create_case; fund_case; verify_A] registered) doc_A.
Proof.
  destruct (document_identity_is_permanent length_hash registered doc_A
              [create_case; fund_case; verify_A]) as (_ & Howner & _ & _ & Hpresent).
  - vm_compute. discriminate.
  - split; [exact Howner|exact Hpresent].
Defined.

(** X3 on the verified document of the funded run, after the
    distribution. *)
Lemma verification_is_final_witness :
  isVerified (documents (apply_all length_hash [distribute] ready)).[doc_A] = true
  /\ run (verifyDocument (bankAddress ready) 20 doc_A) (apply_all length_hash [distribute] ready) =
       Err AlreadyVerified.
Proof.
  apply (verification_is_final length_hash ready doc_A 20 [distribute]).
  - vm_compute. discriminate.
  - vm_compute. reflexivity.
Defined.

(** X4 on the verification of the run. *)
Lemma only_the_bank_verifies_witness :
  msg_sender verify_A = bankAddress registered
  /\ call verify_A = VerifyDocument doc_A
  /\ present registered doc_A.
Proof.
  apply (proj2 (only_the_bank_verifies length_hash registered verify_A doc_A)).
  - vm_compute. reflexivity.
  - vm_compute. reflexivity.
Defined.

(** X5 on the registered, unverified document. *)
Lemma verifyDocument_by_bank_witness :
  run (verifyDocument (bankAddress registered) 13 5) registered = Err NotFound_document
  /\ exists st',
       run (verifyDocument (bankAddress registered) 13 doc_A) registered =
         Ok (tt, (st', [SStore st'; Log (DocumentVerified doc_A (bankAddress registered) 13)]))
       /\ (documents st').[doc_A] = with_isVerified true (documents registered).[doc_A].
Proof.
  destruct (verifyDocument_by_bank registered 13 5) as (Habsent & _).
  destruct (verifyDocument_by_bank registered 13 doc_A) as (_ & _ & Hfresh).
  split; [apply Habsent; reflexivity|].
  destruct Hfresh as (st' & Hrun & Hdoc & _).
  - vm_compute. discriminate.
  - vm_compute. reflexivity.
  - exists st'. split; [exact Hrun|exact Hdoc].
Defined.

(** X6 after one registration: index 0 is served, index 1 refused. *)
Lemma getDocumentByIndex_in_range_witness :
  (exists h, allDocumentHashes registered !! N.to_nat 0 = Some h
     /\ run (getDocumentByIndex 0) registered = Ok ((documents registered).[h], (registered, [])))
  /\ run (getDocumentByIndex 1) registered = Err (Revert "Index out of bounds").
Proof.
  destruct (getDocumentByIndex_in_range length_hash registered 0 (ledger_run_reachable [register_A]))
    as (_ & Hin & _).
  destruct (getDocumentByIndex_in_range length_hash registered 1 (ledger_run_reachable [register_A]))
    as (_ & _ & Hout).
  split; [apply Hin; reflexivity|apply Hout; vm_compute; discriminate].
Defined.

(** X7 on the registered document. *)
Lemma existing_documents_are_indexed_witness :
  documentHash (documents registered).[doc_A] = doc_A
  /\ In doc_A (userDocuments registered).[owner (documents registered).[doc_A]]
  /\ In doc_A (allDocumentHashes registered)
  /\ exists index, index < totalDocuments registered
       /\ run (getDocumentByIndex index) registered =
            Ok ((documents registered).[doc_A], (registered, [])).
Proof.
  apply (existing_documents_are_indexed length_hash registered doc_A
           (ledger_run_reachable [register_A])).
  vm_compute. discriminate.
Defined.

(** X8 on the registered document: its owner sends other content than
    was registered, and reads it back from the payload. *)
Lemma encryptAndSendToBank_outcome_witness :
  run (encryptAndSendToBank 3 12 doc_A "other" "key") registered =
    Err (Revert "Only document owner can encrypt")
  /\ exists st' tr payload,
       run (encryptAndSendToBank 2 12 doc_A "other" "key") registered = Ok (payload, (st', tr))
       /\ substring 10 (String.length "other") payload = "other"%string
       /\ encryptedData (documents st').[doc_A] = payload.
Proof.
  destruct (encryptAndSendToBank_outcome registered 3 12 doc_A "other" "key")
    as (_ & Hstranger & _).
  destruct (encryptAndSendToBank_outcome registered 2 12 doc_A "other" "key")
    as (_ & _ & _ & _ & Howner).
  split; [apply Hstranger; vm_compute; discriminate|].
  destruct Howner as (st' & tr & payload & Hrun & _ & Hread & _ & Hstored & _).
  - vm_compute. discriminate.
  - reflexivity.
  - discriminate.
  - discriminate.
  - exists st', tr, payload. split; [exact Hrun|]. split; [exact Hread|exact Hstored].
Defined.

(** X9 on the depositor taking 400 out of the funded run. *)
Lemma balance_falls_only_by_own_withdrawal_witness :
  msg_sender take_out = 3
  /\ exists amount,
       call take_out = Withdraw amount true
       /\ amount <= this_balance ready
       /\ (balances (apply length_hash take_out ready)).[3] = (balances ready).[3] - amount
       /\ this_balance (apply length_hash take_out ready) = this_balance ready - amount.
Proof.
  apply (balance_falls_only_by_own_withdrawal length_hash ready take_out 3).
  vm_compute. reflexivity.
Defined.



(** X12 on a deposit of 1000 to the case of the run. *)
Lemma deposit_can_be_taken_back_witness :
  exists st1 tr1 st2 tr2,
    run (deposit 3 12 1000 7) created_early = Ok (tt, (st1, tr1))
    /\ run (withdraw 3 13 true 1000) st1 = Ok (tt, (st2, tr2))
    /\ (balances st2).[3] = (balances created_early).[3]
    /\ this_balance st2 = this_balance created_early
    /\ totalAmount (inheritanceCases st2).[7] =
         totalAmount (inheritanceCases created_early).[7] + 1000.
Proof.
  apply (deposit_can_be_taken_back length_hash created_early 3 12 13 1000 7
           (ledger_run_reachable _)).
  - reflexivity.
  - vm_compute. discriminate.
  - vm_compute. discriminate.
  - vm_compute. discriminate.
Defined.

(** X13 on the case of the run before it is funded, and on an id no case
    has. *)
Lemma distributeAssets_refusals_witness :
  run (distributeAssets 14 9) created_early = Err NotFound_case
  /\ run (distributeAssets 14 7) created_early = Err NothingToDistribute.
Proof.
  destruct (distributeAssets_refusals length_hash created_early 14 9 (ledger_run_reachable _))
    as (Habsent & _).
  destruct (distributeAssets_refusals length_hash created_early 14 7 (ledger_run_reachable _))
    as (_ & Hexists).
  split; [apply Habsent; reflexivity|].
  destruct Hexists as (_ & Hclear); [vm_compute; discriminate|].
  destruct Hclear as (Hempty & _); [reflexivity|].
  apply Hempty. reflexivity.
Defined.

(** X14 on the case of the run. *)
Lemma created_case_is_readable_witness :
  run (getInheritanceCase 7) created_early =
    Ok ({| caseId := 7;
           caseDocuments := map (fun h => (documents registered).[h]) [doc_A];
           inheritors := map new_inheritor (combine [20; 21] [70; 30]);
           totalAmount := 0; isDistributed := false; createdAt := 11 |}, (created_early, []))
  /\ total_share (inheritors (inheritanceCases created_early).[7]) = 100
  /\ totalCases created_early = totalCases registered + 1.
Proof.
  apply (created_case_is_readable registered created_early
           (trace_of (createInheritanceCase 2 11 7 [doc_A] [20; 21] [70; 30]) registered)
           2 11 7 [doc_A] [20; 21] [70; 30]).
  - reflexivity.
  - discriminate.
  - vm_compute. reflexivity.
Defined.

(** X15 on the run. *)
Lemma bank_is_set_and_fixed_witness :
  constructor 0 = Err (Revert "Invalid bank address")
  /\ bankAddress registered ≠ 0
  /\ bankAddress (apply_all length_hash [create_case; fund_case; verify_A] registered) =
       bankAddress registered.
Proof.
  apply (bank_is_set_and_fixed length_hash registered [create_case; fund_case; verify_A]
           (ledger_run_reachable _)).
Defined.

(** X16 on the case of the funded run, through the distribution. *)
Lemma heirs_are_permanent_witness :
  map wallet (inheritors (inheritanceCases (apply_all length_hash [distribute] ready)).[7]) =
    map wallet (inheritors (inheritanceCases ready).[7])
  /\ map share (inheritors (inheritanceCases (apply_all length_hash [distribute] ready)).[7]) =
       map share (inheritors (inheritanceCases ready).[7])
  /\ createdAt (inheritanceCases (apply_all length_hash [distribute] ready)).[7] =
       createdAt (inheritanceCases ready).[7]
  /\ caseDocuments (inheritanceCases (apply_all length_hash [distribute] ready)).[7] =
       caseDocuments (inheritanceCases ready).[7].
Proof.
  apply (heirs_are_permanent length_hash ready 7 [distribute]).
  vm_compute. discriminate.
Defined.

(** X17 on the deposit of the run. *)
Lemma pool_changes_only_by_deposit_witness :
  exists value,
    call fund_case = Deposit 7 value
    /\ 0 < value
    /\ totalAmount (inheritanceCases (apply length_hash fund_case created_early)).[7] =
         totalAmount (inheritanceCases created_early).[7] + value.
Proof.
  apply (pool_changes_only_by_deposit length_hash created_early fund_case 7).
  vm_compute. discriminate.
Defined.

(** X18 on the funded run, where the document was verified before the
    case was created. *)
Lemma distributeAssets_goes_through_witness :
  exists st' tr,
    run (distributeAssets 14 7) ready = Ok (tt, (st', tr))
    /\ isDistributed (inheritanceCases st').[7] = true.
Proof.
  apply (distributeAssets_goes_through length_hash ready 14 7 (ledger_run_reachable _)).
  - vm_compute. discriminate.
  - vm_compute. reflexivity.
  - vm_compute. reflexivity.
  - vm_compute. reflexivity.
  - vm_compute. reflexivity.
  - vm_compute. discriminate.
  - intros a.
    assert (Hbalances : balances ready = <[3 := 1000]> ∅) by (vm_compute; reflexivity).
    assert (Hpool : totalAmount (inheritanceCases ready).[7] = 1000) by (vm_compute; reflexivity).
    rewrite Hbalances, Hpool, read_insert. case_decide; [|rewrite read_empty]; vm_compute;
      discriminate.
Defined.

(** X19 on the case created before the verification, through its funding
    and the verification of its document. *)
Lemma unverified_copy_blocks_distribution_witness :
  exists e, run (distributeAssets 14 7) (apply_all length_hash [fund_case; verify_A] created_early) =
            Err e.
Proof.
  apply (unverified_copy_blocks_distribution length_hash created_early 14 7 [fund_case; verify_A]).
  - vm_compute. discriminate.
  - vm_compute. reflexivity.
Defined.
End LedgerRegistryRuns.

Module FixedSplitFundsRuns.
Import SimpleInheritance Scenario Scenario.FixedSplit FixedSplitFacts FixedSplitFunds.

Lemma fixed_run_reachable txs : reachable length_hash (apply_all length_hash txs fresh).
Proof. apply reachable_apply_all_fixed. now apply (reachable_deployed length_hash 20 21 1). Qed.

(** X20 on the funded run, through the verification. *)
Lemma parties_are_fixed_witness :
  wallet (overseasInheritor funded) ≠ 0
  /\ wallet (domesticInheritor funded) ≠ 0
  /\ bankAddress funded ≠ 0
  /\ wallet (overseasInheritor funded) ≠ wallet (domesticInheritor funded)
  /\ bankAddress (apply_all length_hash [verify_A] funded) = bankAddress funded
  /\ wallet (overseasInheritor (apply_all length_hash [verify_A] funded)) =
       wallet (overseasInheritor funded)
  /\ wallet (domesticInheritor (apply_all length_hash [verify_A] funded)) =
       wallet (domesticInheritor funded).
Proof.
  apply (parties_are_fixed length_hash funded [verify_A] (fixed_run_reachable _)).
Defined.

(** X21 on a stranger asking for a hash no document has, and on the bank
    asking for it. *)
Lemma verifyDocument_fixed_refusals_witness :
  run (verifyDocument 2 12 5) unfunded = Err (Revert "Only bank can call this function")
  /\ run (verifyDocument (bankAddress unfunded) 12 5) unfunded =
       Err (Revert "Document does not exist").
Proof.
  destruct (verifyDocument_fixed_refusals unfunded 2 12 5) as (Hstranger & Habsent & _).
  split; [apply Hstranger; vm_compute; discriminate|apply Habsent; reflexivity].
Defined.

(** X22 on the verification that settles the funded run. *)
Lemma distribution_needs_the_bank_witness :
  msg_sender verify_A = bankAddress funded
  /\ (exists h, call verify_A = VerifyDocument h /\ documentHash (documents funded).[h] ≠ 0)
  /\ 10000000000 <= this_balance funded
  /\ (balances (apply length_hash verify_A funded)).[wallet (overseasInheritor funded)] =
       SHARE_AMOUNT
  /\ (balances (apply length_hash verify_A funded)).[wallet (domesticInheritor funded)] =
       SHARE_AMOUNT
  /\ (forall a, a ≠ wallet (overseasInheritor funded) ->
                a ≠ wallet (domesticInheritor funded) ->
        (balances (apply length_hash verify_A funded)).[a] = 0).
Proof.
  apply (distribution_needs_the_bank length_hash funded verify_A (fixed_run_reachable _)).
  - reflexivity.
  - vm_compute. reflexivity.
Defined.

(** X23 on the settled run. *)
Lemma inheritors_are_backed_witness :
  owed settled <= this_balance settled
  /\ (forall a, (balances settled).[a] = 0 \/ (balances settled).[a] = 5000000000)
  /\ (forall a, a ≠ wallet (overseasInheritor settled) ->
                a ≠ wallet (domesticInheritor settled) -> (balances settled).[a] = 0).
Proof.
  apply (inheritors_are_backed length_hash settled (fixed_run_reachable _)).
Defined.

(** X24 on the settled run: the bank is refused, the overseas inheritor
    is paid one share. *)
Lemma withdraw_fixed_outcome_witness :
  run (withdraw 1 14 true) settled = Err (Revert "Only inheritors can withdraw")
  /\ exists st' zeroed,
       run (withdraw 20 14 true) settled =
         Ok (tt, (st', [SStore zeroed; ExtCall 20 SHARE_AMOUNT zeroed;
                        Log (Released 20 SHARE_AMOUNT 14)]))
       /\ (balances zeroed).[20] = 0
       /\ this_balance st' = this_balance settled - SHARE_AMOUNT.
Proof.
  destruct (withdraw_fixed_outcome length_hash settled 1 14 true (fixed_run_reachable _))
    as (Hstranger & _).
  destruct (withdraw_fixed_outcome length_hash settled 20 14 true (fixed_run_reachable _))
    as (_ & Hinheritor).
  split; [apply Hstranger; vm_compute; discriminate|].
  destruct Hinheritor as (_ & _ & Hpaid); [left; reflexivity|].
  destruct Hpaid as (st' & zeroed & Hrun & Hzero & _ & _ & Hether & _).
  - vm_compute. reflexivity.
  - reflexivity.
  - exists st', zeroed. split; [exact Hrun|]. split; [exact Hzero|exact Hether].
Defined.

(** X25 on the settled run, through 7 more sent in and a withdrawal. *)
Lemma surplus_is_locked_witness :
  owed (apply_all length_hash [top_up; collect] settled) <=
    this_balance (apply_all length_hash [top_up; collect] settled)
  /\ this_balance settled - owed settled <=
     this_balance (apply_all length_hash [top_up; collect] settled) -
     owed (apply_all length_hash [top_up; collect] settled).
Proof.
  apply (surplus_is_locked length_hash settled [top_up; collect] (fixed_run_reachable _)).
  vm_compute. reflexivity.
Defined.

(** X26 on the first registration of the run; the same content is then
    refused to another caller after the pool is funded. *)
Lemma registerDocument_fixed_round_trip_witness :
  exists st' tr,
    run (registerDocument length_hash 2 10 "doc-A" "inheritance") fresh =
      Ok (length_hash "doc-A", (st', tr))
    /\ run (getDocument (length_hash "doc-A")) st' =
         Ok ({| documentHash := length_hash "doc-A"; owner := 2; timestamp := 10;
                isVerified := false; documentType := "inheritance" |}, (st', []))
    /\ run (registerDocument length_hash 3 20 "doc-A" "will")
           (apply_all length_hash [fund_pool] st') = Err (Revert "Document already exists").
Proof.
  destruct (registerDocument_fixed_round_trip length_hash fresh 2 10 "doc-A" "inheritance")
    as (st' & tr & Hrun & Hget & _ & _ & _ & Hagain).
  - discriminate.
  - reflexivity.
  - reflexivity.
  - exists st', tr. split; [exact Hrun|]. split; [exact Hget|]. apply Hagain.
Defined.

(** X27 after one registration: index 0 is served, index 1 refused. *)
Lemma getDocumentByIndex_fixed_in_range_witness :
  (exists h, allDocumentHashes unfunded !! N.to_nat 0 = Some h
     /\ run (getDocumentByIndex 0) unfunded = Ok ((documents unfunded).[h], (unfunded, [])))
  /\ run (getDocumentByIndex 1) unfunded = Err (Revert "Index out of bounds").
Proof.
  destruct (getDocumentByIndex_fixed_in_range length_hash unfunded 0 (fixed_run_reachable _))
    as (_ & Hin & _).
  destruct (getDocumentByIndex_fixed_in_range length_hash unfunded 1 (fixed_run_reachable _))
    as (_ & _ & Hout).
  split; [apply Hin; reflexivity|apply Hout; vm_compute; discriminate].
Defined.
End FixedSplitFundsRuns.

Module WebRuns.
Import Web WebFacts.

End WebRuns.
